(** * Berkeley DB backend of the key/value Store (store/bdb.c)

    A shallow embedding of [store/bdb.c] together with a model of the
    operating-system and Berkeley DB calls it makes, and the properties
    of the six store operations (open, fetch, store, delete, close)
    proved on that embedding.

    Layout of the development:
    - the world the backend runs in: files, descriptors and their
      advisory locks, engine objects, the C heap, and the log of
      external calls;
    - the external calls (libc, Berkeley DB, the mutt library);
    - the functions of [store/bdb.c], one definition per C function;
    - the vocabulary of the properties: open handles, bindings, the
      outcomes of an open, the worlds of the example scenario;
    - the proofs: rules for the calls, the cleanup ladder, the outcomes
      of [store_bdb_open], and the properties of the store operations.

    The two toggles of the autocrypt account menu are embedded as well,
    with the properties of their error handling. *)

From stdpp Require Import base gmap sets list strings.
From Stdlib Require Import ZArith Lia.
From Stdlib.Strings Require Import Byte.

(** ** Bytes *)

(** Keys and values are byte sequences with an explicit length
    ([const char *key, size_t klen] / [void *value, size_t vlen]). *)

#[global] Instance byte_eq_dec : EqDecision byte := Byte.byte_eq_dec.
#[global] Instance byte_countable : Countable byte :=
  inj_countable Byte.to_N Byte.of_N Byte.of_to_N.

(** ** The world *)

(** A file is an ordinary file of length zero (a sidecar lock file as
    [open] creates it), an ordinary file that holds something other
    than a database, or a Btree database with its page size and its
    key/value contents.  Keys are unique: the database is opened as a
    plain [DB_BTREE] without duplicates. *)
Inductive File :=
  | FEmpty
  | FPlain
  | FDb (pagesize : Z) (contents : gmap (list byte) (list byte)).

(** An open descriptor remembers the path it was opened on and whether
    this process holds the advisory lock through it. *)
Record FdEntry := { fd_path : string; fd_locked : bool }.

(** A [DB_ENV] object, created by [db_env_create]. *)
Record EnvObj := { env_opened : bool }.

(** A [DB] object, created by [db_create]; [db_file] is set once the
    object has been opened on a file. *)
Record DbObj := {
  db_env : option nat;
  db_pagesize : option Z;
  db_file : option string
}.

(** Modelled from the spec: [struct Buffer] of mutt/buffer.h is not
    among the sources; it is the "lock-file path buffer" of the handle,
    reduced to the pointer to its character array and the allocated
    size. *)
Record Buffer := { buf_data : option nat; buf_dsize : nat }.

(** [struct StoreDbCtx]. *)
Record StoreDbCtx := {
  ctx_env : option nat;      (* DB_ENV *env *)
  ctx_db : option nat;       (* DB *db *)
  ctx_fd : Z;                (* int fd *)
  ctx_lockfile : Buffer      (* struct Buffer lockfile *)
}.

(** Heap blocks: a context, a C string owned by a [Buffer], or a byte
    array handed out by the engine. *)
Inductive Block :=
  | BCtx (c : StoreDbCtx)
  | BStr (s : string)
  | BBytes (b : list byte).

(** The external calls the backend makes, as they are logged. *)
Inductive Event :=
  | EOpen (path : string) (ret : Z)
  | EFileLock (fd : Z) (ret : Z)
  | EFileUnlock (fd : Z)
  | EClose (fd : Z)
  | EUnlink (path : string)
  | EStat (path : string) (ret : Z)
  | EEnvCreate (ret : Z)
  | EEnvOpen (e : nat) (ret : Z)
  | EEnvClose (e : nat)
  | EDbCreate (ret : Z)
  | ESetPagesize (d : nat) (pagesize : Z)
  | EDbOpen (d : nat) (path : string) (flags : Z) (ret : Z)
  | EDbClose (d : nat)
  | EDbGet (d : nat) (key : list byte) (ret : Z)
  | EDbPut (d : nat) (key value : list byte) (ret : Z)
  | EDbDel (d : nat) (key : list byte) (ret : Z).

Record World := {
  files : gmap string File;      (* the file system, by path *)
  fdtab : gmap nat FdEntry;      (* open descriptors of this process *)
  envs : gmap nat EnvObj;        (* live DB_ENV objects *)
  dbs : gmap nat DbObj;          (* live DB objects *)
  heap : gmap nat Block;         (* live heap blocks *)
  trace : list Event             (* external calls, oldest first *)
}.

Definition set_files (f : gmap string File) (w : World) : World :=
  {| files := f; fdtab := fdtab w; envs := envs w; dbs := dbs w;
     heap := heap w; trace := trace w |}.
Definition set_fdtab (t : gmap nat FdEntry) (w : World) : World :=
  {| files := files w; fdtab := t; envs := envs w; dbs := dbs w;
     heap := heap w; trace := trace w |}.
Definition set_envs (e : gmap nat EnvObj) (w : World) : World :=
  {| files := files w; fdtab := fdtab w; envs := e; dbs := dbs w;
     heap := heap w; trace := trace w |}.
Definition set_dbs (d : gmap nat DbObj) (w : World) : World :=
  {| files := files w; fdtab := fdtab w; envs := envs w; dbs := d;
     heap := heap w; trace := trace w |}.
Definition set_heap (h : gmap nat Block) (w : World) : World :=
  {| files := files w; fdtab := fdtab w; envs := envs w; dbs := dbs w;
     heap := h; trace := trace w |}.
Definition log (e : Event) (w : World) : World :=
  {| files := files w; fdtab := fdtab w; envs := envs w; dbs := dbs w;
     heap := heap w; trace := trace w ++ [e] |}.

(** The empty world: no file, no descriptor, nothing allocated. *)
Definition world0 : World :=
  {| files := ∅; fdtab := ∅; envs := ∅; dbs := ∅; heap := ∅; trace := [] |}.

(** ** Computations *)

(** A computation threads the world and may be undefined ([None]): a
    null or dangling pointer is dereferenced, a block is freed twice, a
    buffer is read past its end. *)
Definition M (A : Type) : Type := World → option (A * World).

#[global] Instance M_ret : MRet M := λ A a w, Some (a, w).
#[global] Instance M_bind : MBind M := λ A B k m w,
  match m w with
  | Some (a, w') => k a w'
  | None => None
  end.

Definition undefined {A} : M A := λ _, None.
Definition modify (f : World → World) : M unit := λ w, Some (tt, f w).
Definition emit (e : Event) : M unit := modify (log e).

(** ** Failure of external calls *)

(** The calls that can fail for reasons outside the backend (an
    unwritable directory, lock contention, a full disk, an engine
    error).  The conditions of one run are given by a function from
    calls to the error code they meet, [0] for none. *)
Inductive Call :=
  | CallOpen (path : string)
  | CallLock (fd : Z)
  | CallEnvCreate
  | CallEnvOpen
  | CallDbCreate
  | CallDbOpen (path : string)
  | CallGet (key : list byte)
  | CallPut (key value : list byte)
  | CallDel (key : list byte).

Definition no_fault : Call → Z := λ _, 0%Z.

(** What a lookup that fails leaves in the [DBT] it was to fill, as a
    function of the key looked up.  The engine may fail before it
    touches the [DBT] ([None]), or after it has written to it: then the
    [data] field is still null ([None]) or points to a block the engine
    allocated for the result ([Some] of the bytes of the block), and
    the [size] field holds some number. *)
Definition Leftover : Type := list byte → option (option (list byte) * Z).

(** A failing lookup that leaves nothing behind. *)
Definition no_leftover : Leftover := λ _, None.

(** Error codes of [errno.h] and [db.h] that the calls return. *)
Definition ENOENT : Z := 2.
Definition EEXIST : Z := 17.
Definition EINVAL : Z := 22.
Definition DB_NOTFOUND : Z := (-30988).

(** Flags of [db.h].  The header belongs to the engine; the properties
    only need the flags to be distinct bits. *)
Definition DB_CREATE : Z := 1.
Definition DB_EXCL : Z := 4.
Definition DB_DBT_MALLOC : Z := 16.
Definition DB_DBT_USERMEM : Z := 256.

(** Page size the engine picks when [set_pagesize] was not called. *)
Definition default_pagesize : Z := 4096.

(** ** Pointers to byte buffers and Berkeley DB's [DBT] *)

(** A [void *] to bytes is null, points to memory of the caller (whose
    bytes are carried along), or points to a heap block. *)
Inductive Ptr :=
  | PNull
  | PUser (b : list byte)
  | PHeap (l : nat).

(** A [size_t] stored into an [u_int32_t] keeps its low 32 bits. *)
Definition u32 (z : Z) : Z := (z mod 4294967296)%Z.

(** [DBT] of [db.h].  Its length fields ([size], [ulen], [dlen],
    [doff]) and its flags are [u_int32_t]. *)
Record DBT := {
  dbt_data : Ptr;
  dbt_size : Z;
  dbt_ulen : Z;
  dbt_dlen : Z;
  dbt_doff : Z;
  dbt_flags : Z
}.

(** The zero-initialised [DBT] of [DBT x = { 0 }]. *)
Definition dbt_zero : DBT :=
  {| dbt_data := PNull; dbt_size := 0; dbt_ulen := 0; dbt_dlen := 0;
     dbt_doff := 0; dbt_flags := 0 |}.

(** The first [n] bytes behind a pointer; reading past the end of the
    buffer is undefined. *)
Definition read_bytes (p : Ptr) (n : nat) : M (list byte) := λ w,
  match p with
  | PNull => if decide (n = 0) then Some ([], w) else None
  | PUser b => if decide (n ≤ length b) then Some (take n b, w) else None
  | PHeap l =>
      match heap w !! l with
      | Some (BBytes b) =>
          if decide (n ≤ length b) then Some (take n b, w) else None
      | _ => None
      end
  end.

(** ** The C heap *)

Definition malloc (b : Block) : M nat := λ w,
  let l := fresh (dom (heap w)) in
  Some (l, set_heap (<[l := b]> (heap w)) w).

(** [free(p)] of a live block; freeing anything else is undefined. *)
Definition free (l : nat) : M unit := λ w,
  match heap w !! l with
  | Some _ => Some (tt, set_heap (delete l (heap w)) w)
  | None => None
  end.

(** Modelled from the spec: the macro [FREE] of mutt/memory.h is not
    among the sources; [FREE(&p)] frees [p] unless it is null and sets
    it to null, which the caller sees as the returned [None] (close
    "frees all handle-owned memory"). *)
Definition FREE (p : option nat) : M (option nat) :=
  match p with
  | Some l => free l;; mret None
  | None => mret None
  end.

Definition ctx_load (h : nat) : M StoreDbCtx := λ w,
  match heap w !! h with
  | Some (BCtx c) => Some (c, w)
  | _ => None
  end.

Definition ctx_store (h : nat) (c : StoreDbCtx) : M unit := λ w,
  match heap w !! h with
  | Some (BCtx _) => Some (tt, set_heap (<[h := BCtx c]> (heap w)) w)
  | _ => None
  end.

Definition with_env (e : option nat) (c : StoreDbCtx) : StoreDbCtx :=
  {| ctx_env := e; ctx_db := ctx_db c; ctx_fd := ctx_fd c;
     ctx_lockfile := ctx_lockfile c |}.
Definition with_db (d : option nat) (c : StoreDbCtx) : StoreDbCtx :=
  {| ctx_env := ctx_env c; ctx_db := d; ctx_fd := ctx_fd c;
     ctx_lockfile := ctx_lockfile c |}.
Definition with_fd (fd : Z) (c : StoreDbCtx) : StoreDbCtx :=
  {| ctx_env := ctx_env c; ctx_db := ctx_db c; ctx_fd := fd;
     ctx_lockfile := ctx_lockfile c |}.
Definition with_lockfile (b : Buffer) (c : StoreDbCtx) : StoreDbCtx :=
  {| ctx_env := ctx_env c; ctx_db := ctx_db c; ctx_fd := ctx_fd c;
     ctx_lockfile := b |}.

(** [ctx->field = v]. *)
Definition ctx_update (h : nat) (f : StoreDbCtx → StoreDbCtx) : M unit :=
  c ← ctx_load h; ctx_store h (f c).

(** ** The mutt library: memory and buffers *)

(** Modelled from the spec: mutt/memory.c is not among the sources;
    [mutt_mem_calloc(1, sizeof(struct StoreDbCtx))] returns a fresh,
    zero-filled context (the handle "owns the native environment state,
    the native database state, the locked file descriptor, and the
    lock-file path buffer"). *)
Definition mutt_mem_calloc_ctx : M nat :=
  malloc (BCtx {| ctx_env := None; ctx_db := None; ctx_fd := 0;
                  ctx_lockfile := {| buf_data := None; buf_dsize := 0 |} |}).

(** Modelled from the spec: mutt/buffer.c is not among the sources;
    [buf_make(size)] allocates an empty string of [size] bytes. *)
Definition buf_make (size : nat) : M Buffer :=
  l ← malloc (BStr ""); mret {| buf_data := Some l; buf_dsize := size |}.

(** Modelled from the spec: [buf_printf(buf, "%s-lock-hack", path)]
    leaves the formatted string in the buffer, growing it when needed
    (the sidecar path is "derive[d] deterministically from the store
    path (suffix-based, no hashing)"). *)
Definition buf_printf (buf : Buffer) (s : string) : M Buffer := λ w,
  match buf_data buf with
  | Some l =>
      match heap w !! l with
      | Some (BStr _) =>
          Some ({| buf_data := Some l;
                   buf_dsize := Nat.max (buf_dsize buf) (S (String.length s)) |},
                set_heap (<[l := BStr s]> (heap w)) w)
      | _ => None
      end
  | None =>
      (l' ← malloc (BStr s);
       mret {| buf_data := Some l'; buf_dsize := S (String.length s) |}) w
  end.

(** Modelled from the spec: [buf_string(buf)] is the string held by the
    buffer, the empty string for a buffer without storage. *)
Definition buf_string (buf : Buffer) : M string := λ w,
  match buf_data buf with
  | Some l =>
      match heap w !! l with
      | Some (BStr s) => Some (s, w)
      | _ => None
      end
  | None => Some ("", w)
  end.

(** Modelled from the spec: [buf_dealloc(buf)] releases the storage of
    the buffer and resets it. *)
Definition buf_dealloc (buf : Buffer) : M Buffer :=
  FREE (buf_data buf);; mret {| buf_data := None; buf_dsize := 0 |}.

(** ** External calls *)

Section Calls.

(** The conditions of the run: which external calls fail, and how. *)
Variable fault : Call → Z.

(** What a lookup that fails leaves in the [DBT] it was to fill. *)
Variable leftover : Leftover.

(** *** libc *)

(** [open(path, O_WRONLY | O_CREAT, S_IRUSR | S_IWUSR)]: on success the
    file exists afterwards, created with length zero when it was
    absent, and a descriptor not in use is returned; on failure nothing
    changes and the result is [-1]. *)
Definition posix_open (path : string) : M Z := λ w,
  if decide (fault (CallOpen path) = 0%Z) then
    let fd := fresh (dom (fdtab w)) in
    let fs := match files w !! path with
              | Some _ => files w
              | None => <[path := FEmpty]> (files w)
              end in
    Some (Z.of_nat fd,
          log (EOpen path (Z.of_nat fd))
            (set_fdtab (<[fd := {| fd_path := path; fd_locked := false |}]>
                          (fdtab w))
               (set_files fs w)))
  else Some ((-1)%Z, log (EOpen path (-1)) w).

(** [close(fd)]: the descriptor is released, and with it any lock held
    through it. *)
Definition posix_close (fd : Z) : M Z := λ w,
  if decide (0 ≤ fd)%Z then
    match fdtab w !! Z.to_nat fd with
    | Some _ =>
        Some (0%Z, log (EClose fd)
                     (set_fdtab (delete (Z.to_nat fd) (fdtab w)) w))
    | None => Some ((-1)%Z, log (EClose fd) w)
    end
  else Some ((-1)%Z, log (EClose fd) w).

(** [unlink(path)]. *)
Definition posix_unlink (path : string) : M Z := λ w,
  match files w !! path with
  | Some _ =>
      Some (0%Z, log (EUnlink path) (set_files (delete path (files w)) w))
  | None => Some ((-1)%Z, log (EUnlink path) w)
  end.

(** [stat(path, &st)], with the value of [errno] after a failure. *)
Definition posix_stat (path : string) : M (Z * Z) := λ w,
  match files w !! path with
  | Some _ => Some ((0%Z, 0%Z), log (EStat path 0) w)
  | None => Some (((-1)%Z, ENOENT), log (EStat path (-1)) w)
  end.

(** *** mutt/file.c *)

(** Modelled from the spec: mutt/file.c is not among the sources;
    [mutt_file_lock(fd, true, true)] "takes a blocking, exclusive,
    advisory lock on the resulting descriptor" and answers [0], or
    fails with a non-zero result and no lock held. *)
Definition mutt_file_lock (fd : Z) : M Z := λ w,
  if decide (fault (CallLock fd) = 0%Z) then
    if decide (0 ≤ fd)%Z then
      match fdtab w !! Z.to_nat fd with
      | Some en =>
          Some (0%Z,
                log (EFileLock fd 0)
                  (set_fdtab (<[Z.to_nat fd :=
                                  {| fd_path := fd_path en;
                                     fd_locked := true |}]> (fdtab w)) w))
      | None => Some ((-1)%Z, log (EFileLock fd (-1)) w)
      end
    else Some ((-1)%Z, log (EFileLock fd (-1)) w)
  else Some ((-1)%Z, log (EFileLock fd (-1)) w).

(** Modelled from the spec: [mutt_file_unlock(fd)] "unlocks the
    descriptor". *)
Definition mutt_file_unlock (fd : Z) : M Z := λ w,
  if decide (0 ≤ fd)%Z then
    match fdtab w !! Z.to_nat fd with
    | Some en =>
        Some (0%Z,
              log (EFileUnlock fd)
                (set_fdtab (<[Z.to_nat fd :=
                                {| fd_path := fd_path en;
                                   fd_locked := false |}]> (fdtab w)) w))
    | None => Some ((-1)%Z, log (EFileUnlock fd) w)
    end
  else Some ((-1)%Z, log (EFileUnlock fd) w).

(** *** Berkeley DB: environments *)

(** [db_env_create(&env, 0)]: the result code and the object stored
    through the first argument (none on failure). *)
Definition db_env_create (envp : option nat) : M (Z * option nat) := λ w,
  let rc := fault CallEnvCreate in
  if decide (rc = 0%Z) then
    let e := fresh (dom (envs w)) in
    Some ((0%Z, Some e),
          log (EEnvCreate 0)
            (set_envs (<[e := {| env_opened := false |}]> (envs w)) w))
  else Some ((rc, envp), log (EEnvCreate rc) w).

(** [env->open(env, NULL, DB_INIT_MPOOL | DB_CREATE | DB_PRIVATE, 0600)];
    a failed open leaves the object to be closed by the caller. *)
Definition DB_ENV_open (env : option nat) : M Z := λ w,
  match env with
  | Some e =>
      match envs w !! e with
      | Some _ =>
          let rc := fault CallEnvOpen in
          if decide (rc = 0%Z) then
            Some (0%Z,
                  log (EEnvOpen e 0)
                    (set_envs (<[e := {| env_opened := true |}]> (envs w)) w))
          else Some (rc, log (EEnvOpen e rc) w)
      | None => None
      end
  | None => None
  end.

(** [env->close(env, 0)]: the object is gone afterwards. *)
Definition DB_ENV_close (env : option nat) : M Z := λ w,
  match env with
  | Some e =>
      match envs w !! e with
      | Some _ =>
          Some (0%Z, log (EEnvClose e) (set_envs (delete e (envs w)) w))
      | None => None
      end
  | None => None
  end.

(** *** Berkeley DB: databases *)

(** [db_create(&db, env, 0)]. *)
Definition db_create (dbp env : option nat) : M (Z * option nat) := λ w,
  let rc := fault CallDbCreate in
  if decide (rc = 0%Z) then
    let d := fresh (dom (dbs w)) in
    Some ((0%Z, Some d),
          log (EDbCreate 0)
            (set_dbs (<[d := {| db_env := env; db_pagesize := None;
                                db_file := None |}]> (dbs w)) w))
  else Some ((rc, dbp), log (EDbCreate rc) w).

(** [db->set_pagesize(db, pagesize)]. *)
Definition DB_set_pagesize (db : option nat) (pagesize : Z) : M Z := λ w,
  match db with
  | Some d =>
      match dbs w !! d with
      | Some o =>
          Some (0%Z,
                log (ESetPagesize d pagesize)
                  (set_dbs (<[d := {| db_env := db_env o;
                                      db_pagesize := Some pagesize;
                                      db_file := db_file o |}]> (dbs w)) w))
      | None => None
      end
  | None => None
  end.

Definition has_flag (flags flag : Z) : bool :=
  negb (Z.land flags flag =? 0)%Z.

(** What [db->open] finds at the path: the result code and the file
    system afterwards.  A file of length zero is not refused: under
    [DB_CREATE] the engine initialises it as a new, empty database,
    with the page size set on the object or its default. *)
Definition db_open_file (o : DbObj) (path : string) (flags : Z)
    (fs : gmap string File) : Z * gmap string File :=
  match fs !! path with
  | None =>
      if has_flag flags DB_CREATE
      then (0%Z, <[path := FDb (default default_pagesize (db_pagesize o)) ∅]> fs)
      else (ENOENT, fs)
  | Some (FDb _ _) =>
      if has_flag flags DB_EXCL then (EEXIST, fs) else (0%Z, fs)
  | Some FEmpty =>
      if has_flag flags DB_EXCL then (EEXIST, fs)
      else if has_flag flags DB_CREATE
      then (0%Z, <[path := FDb (default default_pagesize (db_pagesize o)) ∅]> fs)
      else (EINVAL, fs)
  | Some FPlain => (EINVAL, fs)
  end.

(** [db->open(db, NULL, path, NULL, DB_BTREE, flags, 0600)]: creates
    the database file when it is absent and [DB_CREATE] is given,
    refuses an existing file under [DB_EXCL], initialises a file of
    length zero, and refuses a file that holds something other than a
    database. *)
Definition DB_open (db : option nat) (path : string) (flags : Z) : M Z := λ w,
  match db with
  | Some d =>
      match dbs w !! d with
      | Some o =>
          let rc := fault (CallDbOpen path) in
          if decide (rc = 0%Z) then
            let '(rc', fs) := db_open_file o path flags (files w) in
            if decide (rc' = 0%Z) then
              Some (0%Z,
                    log (EDbOpen d path flags 0)
                      (set_dbs (<[d := {| db_env := db_env o;
                                          db_pagesize := db_pagesize o;
                                          db_file := Some path |}]> (dbs w))
                         (set_files fs w)))
            else Some (rc', log (EDbOpen d path flags rc') w)
          else Some (rc, log (EDbOpen d path flags rc) w)
      | None => None
      end
  | None => None
  end.

(** [db->close(db, 0)]: the object is gone afterwards. *)
Definition DB_close (db : option nat) : M Z := λ w,
  match db with
  | Some d =>
      match dbs w !! d with
      | Some _ =>
          Some (0%Z, log (EDbClose d) (set_dbs (delete d (dbs w)) w))
      | None => None
      end
  | None => None
  end.

(** The file a live, opened [DB] object is bound to, with its page
    size and contents. *)
Definition db_contents (w : World) (d : nat)
    : option (string * Z * gmap (list byte) (list byte)) :=
  match dbs w !! d with
  | Some o =>
      match db_file o with
      | Some path =>
          match files w !! path with
          | Some (FDb ps m) => Some (path, ps, m)
          | _ => None
          end
      | None => None
      end
  | None => None
  end.

(** The engine puts [v] in a [DBT] in the [DB_DBT_MALLOC] mode: it
    allocates a block for the bytes, also for a value of length zero,
    and stores its address in [data] and the number [n] in [size]. *)
Definition dbt_fill (d : nat) (k v : list byte) (n rc : Z) (data : DBT)
    : M (Z * DBT) :=
  l ← malloc (BBytes v);
  emit (EDbGet d k rc);;
  mret (rc, {| dbt_data := PHeap l;
               dbt_size := u32 n;
               dbt_ulen := dbt_ulen data;
               dbt_dlen := dbt_dlen data;
               dbt_doff := dbt_doff data;
               dbt_flags := dbt_flags data |}).

(** [db->get(db, NULL, &key, &data, 0)]: the result code and [data] as
    the engine leaves it.  The key is the first [key.size] bytes behind
    [key.data].  On a hit the value is handed out in [data], with its
    length; on [DB_NOTFOUND] [data] is left as it was; on an error
    [data] holds what the failed lookup left in it ([leftover]).  Only
    the [DB_DBT_MALLOC] mode is modelled. *)
Definition DB_get (db : option nat) (key data : DBT) : M (Z * DBT) :=
  match db with
  | Some d =>
      k ← read_bytes (dbt_data key) (Z.to_nat (dbt_size key));
      (λ w,
        match db_contents w d with
        | Some (path, ps, m) =>
            let rc := fault (CallGet k) in
            if decide (dbt_flags data = DB_DBT_MALLOC) then
              if decide (rc = 0%Z) then
                match m !! k with
                | Some v => dbt_fill d k v (Z.of_nat (length v)) 0%Z data w
                | None =>
                    Some ((DB_NOTFOUND, data), log (EDbGet d k DB_NOTFOUND) w)
                end
              else
                match leftover k with
                | Some (Some v, n) => dbt_fill d k v n rc data w
                | Some (None, n) =>
                    Some ((rc, {| dbt_data := dbt_data data;
                                  dbt_size := u32 n;
                                  dbt_ulen := dbt_ulen data;
                                  dbt_dlen := dbt_dlen data;
                                  dbt_doff := dbt_doff data;
                                  dbt_flags := dbt_flags data |}),
                          log (EDbGet d k rc) w)
                | None => Some ((rc, data), log (EDbGet d k rc) w)
                end
            else None
        | None => None
        end) : M (Z * DBT)
  | None => undefined
  end.

(** [db->put(db, NULL, &key, &data, 0)]: binds the key, the first
    [key.size] bytes behind [key.data], to the value, the first
    [data.size] bytes behind [data.data], replacing a value bound
    before. *)
Definition DB_put (db : option nat) (key data : DBT) : M Z :=
  match db with
  | Some d =>
      k ← read_bytes (dbt_data key) (Z.to_nat (dbt_size key));
      v ← read_bytes (dbt_data data) (Z.to_nat (dbt_size data));
      (λ w,
        match db_contents w d with
        | Some (path, ps, m) =>
            let rc := fault (CallPut k v) in
            if decide (rc = 0%Z) then
              Some (0%Z,
                    log (EDbPut d k v 0)
                      (set_files (<[path := FDb ps (<[k := v]> m)]> (files w)) w))
            else Some (rc, log (EDbPut d k v rc) w)
        | None => None
        end) : M Z
  | None => undefined
  end.

(** [db->del(db, NULL, &key, 0)]: removes the key, [DB_NOTFOUND] when
    it is not bound. *)
Definition DB_del (db : option nat) (key : DBT) : M Z :=
  match db with
  | Some d =>
      k ← read_bytes (dbt_data key) (Z.to_nat (dbt_size key));
      (λ w,
        match db_contents w d with
        | Some (path, ps, m) =>
            let rc := fault (CallDel k) in
            if decide (rc = 0%Z) then
              match m !! k with
              | Some _ =>
                  Some (0%Z,
                        log (EDbDel d k 0)
                          (set_files (<[path := FDb ps (delete k m)]> (files w)) w))
              | None => Some (DB_NOTFOUND, log (EDbDel d k DB_NOTFOUND) w)
              end
            else Some (rc, log (EDbDel d k rc) w)
        | None => None
        end) : M Z
  | None => undefined
  end.

(** ** store/bdb.c *)

(** A [struct StoreDbCtx **ptr] is null ([None]) or points to a
    variable holding a possibly null context pointer; functions that
    write through it return the variable as they leave it. *)

(** [bdb_sdata_free] - Free Bdb Store Data. *)
Definition bdb_sdata_free (ptr : option (option nat))
    : M (option (option nat)) :=
  match ptr with
  | None => mret None
  | Some None => mret (Some None)
  | Some (Some sdata) =>
      c ← ctx_load sdata;
      b ← buf_dealloc (ctx_lockfile c);
      ctx_store sdata (with_lockfile b c);;
      p ← FREE (Some sdata);
      mret (Some p)
  end.

(** [bdb_sdata_new] - Create new Bdb Store Data. *)
Definition bdb_sdata_new : M nat :=
  sdata ← mutt_mem_calloc_ctx;
  b ← buf_make 128;
  ctx_update sdata (with_lockfile b);;
  mret sdata.

(** [dbt_init] - Initialise a BDB thing.  [len] is a [size_t]; the
    assignments [dbt->size = len] and [dbt->ulen = len] narrow it to 32
    bits. *)
Definition dbt_init (dbt : DBT) (data : Ptr) (len : nat) : DBT :=
  {| dbt_data := data; dbt_size := u32 (Z.of_nat len);
     dbt_ulen := u32 (Z.of_nat len); dbt_dlen := 0;
     dbt_doff := 0; dbt_flags := DB_DBT_USERMEM |}.

(** [dbt_empty_init] - Initialise an empty BDB thing. *)
Definition dbt_empty_init (dbt : DBT) : DBT :=
  {| dbt_data := PNull; dbt_size := 0; dbt_ulen := 0; dbt_dlen := 0;
     dbt_doff := 0; dbt_flags := 0 |}.

(** The cleanup ladder of [store_bdb_open]: each label falls through to
    the next one. *)
Definition fail_close (ctx : nat) : M (option nat) :=
  c ← ctx_load ctx;
  posix_close (ctx_fd c);;
  lf ← buf_string (ctx_lockfile c);
  posix_unlink lf;;
  bdb_sdata_free (Some (Some ctx));;
  mret None.

Definition fail_unlock (ctx : nat) : M (option nat) :=
  c ← ctx_load ctx;
  mutt_file_unlock (ctx_fd c);;
  fail_close ctx.

Definition fail_env (ctx : nat) : M (option nat) :=
  c ← ctx_load ctx;
  DB_ENV_close (ctx_env c);;
  fail_unlock ctx.

Definition fail_db (ctx : nat) : M (option nat) :=
  c ← ctx_load ctx;
  DB_close (ctx_db c);;
  fail_env ctx.

(** [store_bdb_open] - Implements StoreOps::open(). *)
Definition store_bdb_open (path : option string) : M (option nat) :=
  match path with
  | None => mret None
  | Some path =>
      ctx ← bdb_sdata_new;
      let pagesize := 512%Z in
      c ← ctx_load ctx;
      b ← buf_printf (ctx_lockfile c) (path +:+ "-lock-hack");
      ctx_update ctx (with_lockfile b);;
      c ← ctx_load ctx;
      lf ← buf_string (ctx_lockfile c);
      fd ← posix_open lf;
      ctx_update ctx (with_fd fd);;
      if decide (fd < 0)%Z then
        FREE (Some ctx);;
        mret None
      else
        rc ← mutt_file_lock fd;
        if decide (rc ≠ 0%Z) then fail_close ctx
        else
          c ← ctx_load ctx;
          '(rc, e) ← db_env_create (ctx_env c);
          ctx_update ctx (with_env e);;
          if decide (rc ≠ 0%Z) then fail_unlock ctx
          else
            rc ← DB_ENV_open e;
            if decide (rc ≠ 0%Z) then fail_env ctx
            else
              ctx_update ctx (with_db None);;
              '(rc, d) ← db_create None e;
              ctx_update ctx (with_db d);;
              if decide (rc ≠ 0%Z) then fail_env ctx
              else
                let createflags := DB_CREATE in
                '(st, errno) ← posix_stat path;
                createflags ←
                  (if decide (st ≠ 0%Z ∧ errno = ENOENT)
                   then DB_set_pagesize d pagesize;;
                        mret (Z.lor createflags DB_EXCL)
                   else mret createflags);
                rc ← DB_open d path createflags;
                if decide (rc ≠ 0%Z) then fail_db ctx
                else mret (Some ctx)
  end.

(** [store_bdb_fetch] - Implements StoreOps::fetch().  [vlen] is the
    value of [*vlen] before the call; the result is the returned
    pointer and [*vlen] after the call. *)
Definition store_bdb_fetch (store : option nat) (key : list byte)
    (klen : nat) (vlen : nat) : M (Ptr * nat) :=
  match store with
  | None => mret (PNull, vlen)
  | Some ctx =>
      c ← ctx_load ctx;
      let dkey := dbt_init dbt_zero (PUser key) klen in
      let data := dbt_empty_init dbt_zero in
      let data := {| dbt_data := dbt_data data; dbt_size := dbt_size data;
                     dbt_ulen := dbt_ulen data; dbt_dlen := dbt_dlen data;
                     dbt_doff := dbt_doff data;
                     dbt_flags := DB_DBT_MALLOC |} in
      '(_, data) ← DB_get (ctx_db c) dkey data;
      mret (dbt_data data, Z.to_nat (dbt_size data))
  end.

(** [store_bdb_free] - Implements StoreOps::free(): [FREE(ptr)] on a
    [void **ptr]. *)
Definition store_bdb_free (store : option nat) (ptr : option Ptr)
    : M (option Ptr) :=
  match ptr with
  | None => mret None
  | Some PNull => mret (Some PNull)
  | Some (PHeap l) => free l;; mret (Some PNull)
  | Some (PUser _) => undefined
  end.

(** [store_bdb_store] - Implements StoreOps::store(). *)
Definition store_bdb_store (store : option nat) (key : list byte)
    (klen : nat) (value : list byte) (vlen : nat) : M Z :=
  match store with
  | None => mret (-1)%Z
  | Some ctx =>
      c ← ctx_load ctx;
      let dkey := dbt_init dbt_zero (PUser key) klen in
      let databuf := dbt_empty_init dbt_zero in
      let databuf := {| dbt_data := PUser value;
                        dbt_size := u32 (Z.of_nat vlen);
                        dbt_ulen := u32 (Z.of_nat vlen);
                        dbt_dlen := dbt_dlen databuf;
                        dbt_doff := dbt_doff databuf;
                        dbt_flags := DB_DBT_USERMEM |} in
      DB_put (ctx_db c) dkey databuf
  end.

(** [store_bdb_delete_record] - Implements StoreOps::delete_record(). *)
Definition store_bdb_delete_record (store : option nat) (key : list byte)
    (klen : nat) : M Z :=
  match store with
  | None => mret (-1)%Z
  | Some ctx =>
      c ← ctx_load ctx;
      let dkey := dbt_init dbt_zero (PUser key) klen in
      DB_del (ctx_db c) dkey
  end.

(** [store_bdb_close] - Implements StoreOps::close(). *)
Definition store_bdb_close (ptr : option (option nat))
    : M (option (option nat)) :=
  match ptr with
  | None => mret None
  | Some None => mret (Some None)
  | Some (Some db) =>
      c ← ctx_load db;
      DB_close (ctx_db c);;
      DB_ENV_close (ctx_env c);;
      mutt_file_unlock (ctx_fd c);;
      posix_close (ctx_fd c);;
      lf ← buf_string (ctx_lockfile c);
      posix_unlink lf;;
      bdb_sdata_free (Some (Some db))
  end.

End Calls.

(** * The autocrypt account menu *)

(** Modelled from the spec: [struct AutocryptAccount] of autocrypt.h is
    not among the sources; an "account record" with the fields the menu
    reads and writes ([email_addr], [keyid], [prefer_encrypt],
    [enabled]).  The two flags are used as truth values; they are
    integers here, which covers a declaration as [int] and as [bool]
    (the values 0 and 1). *)
Record AutocryptAccount := {
  email_addr : string;
  keyid : string;
  prefer_encrypt : Z;
  enabled : Z
}.

(** C's [!x] on an integer. *)
Definition c_not (x : Z) : Z := if decide (x = 0%Z) then 1%Z else 0%Z.

Definition with_enabled (v : Z) (a : AutocryptAccount) : AutocryptAccount :=
  {| email_addr := email_addr a; keyid := keyid a;
     prefer_encrypt := prefer_encrypt a; enabled := v |}.
Definition with_prefer_encrypt (v : Z) (a : AutocryptAccount)
    : AutocryptAccount :=
  {| email_addr := email_addr a; keyid := keyid a;
     prefer_encrypt := v; enabled := enabled a |}.

(** The message both toggles pass to [mutt_error]. *)
Definition update_error : string := "Error updating account record".

Section AccountMenu.

(** The account database and [mutt_autocrypt_db_account_update], which
    are not among the sources: the update reads the account it is given,
    answers a result code and leaves the database in some state. *)
Variable Db : Type.
Variable mutt_autocrypt_db_account_update : AutocryptAccount → Db → Z * Db.

(** [toggle_active]: the account of the entry, the database and the
    messages passed to [mutt_error], after the call. *)
Definition toggle_active (account : AutocryptAccount) (db : Db)
    : AutocryptAccount * Db * list string :=
  let account := with_enabled (c_not (enabled account)) account in
  let '(rc, db) := mutt_autocrypt_db_account_update account db in
  if decide (rc ≠ 0%Z) then
    (with_enabled (c_not (enabled account)) account, db, [update_error])
  else (account, db, []).

(** [toggle_prefer_encrypt]. *)
Definition toggle_prefer_encrypt (account : AutocryptAccount) (db : Db)
    : AutocryptAccount * Db * list string :=
  let account := with_prefer_encrypt (c_not (prefer_encrypt account)) account in
  let '(rc, db) := mutt_autocrypt_db_account_update account db in
  if decide (rc ≠ 0%Z) then
    (with_prefer_encrypt (c_not (prefer_encrypt account)) account, db,
     [update_error])
  else (account, db, []).

End AccountMenu.

(** * Vocabulary of the properties *)

(** ** Store paths and handles *)

(** The sidecar lock file of a store path. *)
Definition lockfile_of (path : string) : string := path +:+ "-lock-hack".

(** A context pointer is an open handle on [path]: the context is live
    and owns a live lock-file buffer holding the sidecar path, an opened
    environment, a database object opened on the database file at
    [path], and a descriptor on the sidecar through which the advisory
    lock is held. *)
Definition handle_ok (w : World) (h : nat) (path : string) : Prop :=
  ∃ (e d fd b dsz : nat) (dps : option Z) (ps : Z)
    (m : gmap (list byte) (list byte)),
    heap w !! h
      = Some (BCtx {| ctx_env := Some e; ctx_db := Some d;
                      ctx_fd := Z.of_nat fd;
                      ctx_lockfile := {| buf_data := Some b;
                                         buf_dsize := dsz |} |})
    ∧ heap w !! b = Some (BStr (lockfile_of path))
    ∧ envs w !! e = Some {| env_opened := true |}
    ∧ dbs w !! d = Some {| db_env := Some e; db_pagesize := dps;
                           db_file := Some path |}
    ∧ files w !! path = Some (FDb ps m)
    ∧ fdtab w !! fd = Some {| fd_path := lockfile_of path;
                              fd_locked := true |}.

(** The key/value contents of the database file at a path. *)
Definition contents (w : World) (path : string)
    : option (gmap (list byte) (list byte)) :=
  match files w !! path with
  | Some (FDb _ m) => Some m
  | _ => None
  end.

(** ** Bindings *)

(** A byte sequence whose length fits the 32-bit length fields of the
    engine. *)
Definition short (b : list byte) : Prop :=
  (Z.of_nat (length b) < 4294967296)%Z.

(** The bytes the engine is given for a buffer passed with the length
    [len]: the first [len mod 2^32] of them. *)
Definition cut (len : nat) (buf : list byte) : list byte :=
  take (Z.to_nat (u32 (Z.of_nat len))) buf.

(** The value bound to a key in the database file at a path.  The
    records of a database have 32-bit lengths: a key of [2^32] bytes or
    more is the key of no record. *)
Definition binding (w : World) (path : string) (K : list byte)
    : option (list byte) :=
  match contents w path with
  | Some m => if decide (short K) then m !! K else None
  | None => None
  end.

(** A fetch of [K] on the handle [h] from [w] returns [V]: the result
    is a pointer to a block that was not allocated in [w] and holds
    exactly [V] in the world [w2] the fetch leaves, [*vlen] is the
    length of [V], and the block is the caller's to release with
    [store_bdb_free]. *)
Definition fetch_returns (fault : Call → Z)
    (leftover : Leftover) (h : nat) (K : list byte)
    (vlen : nat) (w : World) (V : list byte) (w2 : World) : Prop :=
  ∃ l,
    store_bdb_fetch fault leftover (Some h) K (length K) vlen w
    = Some ((PHeap l, length V), w2)
    ∧ heap w !! l = None
    ∧ heap w2 !! l = Some (BBytes V)
    ∧ store_bdb_free (Some h) (Some (PHeap l)) w2
      = Some (Some PNull, set_heap (delete l (heap w2)) w2).

(** ** Weakest preconditions *)

(** [wp m w Q]: run from [w], the computation [m] is defined and its
    result and final world satisfy [Q]. *)
Definition wp {A} (m : M A) (w : World) (Q : A → World → Prop) : Prop :=
  match m w with
  | Some (a, w') => Q a w'
  | None => False
  end.

(** ** Worlds after a release *)

(** The world after a context and what it owns have been released:
    the sidecar is unlinked, the descriptor closed, the environment and
    the database object (when given) closed, the context and its buffer
    freed, and [evs] appended to the log. *)
Definition torn_down (w : World) (h b fd : nat) (lf : string)
    (e d : option nat) (evs : list Event) : World :=
  {| files := delete lf (files w);
     fdtab := delete fd (fdtab w);
     envs := from_option (λ e, delete e (envs w)) (envs w) e;
     dbs := from_option (λ d, delete d (dbs w)) (dbs w) d;
     heap := delete h (delete b (heap w));
     trace := trace w ++ evs |}.

(** The world a failed open leaves when everything it took was given
    back: only the sidecar is gone and the log has grown. *)
Definition released (w : World) (lf : string) (evs : list Event) : World :=
  {| files := delete lf (files w); fdtab := fdtab w; envs := envs w;
     dbs := dbs w; heap := heap w; trace := trace w ++ evs |}.

(** The context [h] holds descriptor [fd] on the sidecar [lf] and the
    buffer [b] with the sidecar's path. *)
Definition owns (w : World) (h : nat) (c : StoreDbCtx) (fd b : nat)
    (lf : string) : Prop :=
  heap w !! h = Some (BCtx c)
  ∧ ctx_fd c = Z.of_nat fd
  ∧ buf_data (ctx_lockfile c) = Some b
  ∧ heap w !! b = Some (BStr lf)
  ∧ h ≠ b
  ∧ is_Some (fdtab w !! fd).

(** ** The outcomes of [store_bdb_open] *)

(** The probe of the database file: [stat], and [set_pagesize] when the
    file does not exist yet. *)
Definition probe_events (w : World) (path : string) (d : nat) : list Event :=
  match files w !! path with
  | Some _ => [EStat path 0]
  | None => [EStat path (-1); ESetPagesize d 512]
  end.

Definition probe_flags (w : World) (path : string) : Z :=
  match files w !! path with
  | Some _ => DB_CREATE
  | None => Z.lor DB_CREATE DB_EXCL
  end.

Definition probe_pagesize (w : World) (path : string) : option Z :=
  match files w !! path with
  | Some _ => None
  | None => Some 512%Z
  end.

(** The database file after a successful open, from what was at the
    path before: a database stays as it is, a file of length zero
    becomes an empty database with the engine's page size, and a file
    that was absent is created empty with page size 512. *)
Definition opened_file (f : option File) : File :=
  match f with
  | None => FDb 512 ∅
  | Some FEmpty => FDb default_pagesize ∅
  | Some f => f
  end.

(** Every way [store_bdb_open fault (Some path)] can end from [w], with
    the step that failed, the result, and the world it leaves. *)
Inductive open_outcome (fault : Call → Z) (path : string) (w : World)
    : option nat → World → Prop :=
  | open_fail_lockfile b :
      fault (CallOpen (lockfile_of path)) ≠ 0%Z →
      heap w !! b = None →
      open_outcome fault path w None
        {| files := files w; fdtab := fdtab w; envs := envs w; dbs := dbs w;
           heap := <[b := BStr (lockfile_of path)]> (heap w);
           trace := trace w ++ [EOpen (lockfile_of path) (-1)] |}
  | open_fail_lock fd :
      fault (CallOpen (lockfile_of path)) = 0%Z →
      fdtab w !! fd = None →
      fault (CallLock (Z.of_nat fd)) ≠ 0%Z →
      open_outcome fault path w None
        (released w (lockfile_of path)
           [EOpen (lockfile_of path) (Z.of_nat fd);
            EFileLock (Z.of_nat fd) (-1);
            EClose (Z.of_nat fd); EUnlink (lockfile_of path)])
  | open_fail_env_create fd :
      fault (CallOpen (lockfile_of path)) = 0%Z →
      fdtab w !! fd = None →
      fault (CallLock (Z.of_nat fd)) = 0%Z →
      fault CallEnvCreate ≠ 0%Z →
      open_outcome fault path w None
        (released w (lockfile_of path)
           [EOpen (lockfile_of path) (Z.of_nat fd);
            EFileLock (Z.of_nat fd) 0;
            EEnvCreate (fault CallEnvCreate);
            EFileUnlock (Z.of_nat fd);
            EClose (Z.of_nat fd); EUnlink (lockfile_of path)])
  | open_fail_env_open fd e :
      fault (CallOpen (lockfile_of path)) = 0%Z →
      fdtab w !! fd = None →
      fault (CallLock (Z.of_nat fd)) = 0%Z →
      fault CallEnvCreate = 0%Z →
      envs w !! e = None →
      fault CallEnvOpen ≠ 0%Z →
      open_outcome fault path w None
        (released w (lockfile_of path)
           [EOpen (lockfile_of path) (Z.of_nat fd);
            EFileLock (Z.of_nat fd) 0;
            EEnvCreate 0; EEnvOpen e (fault CallEnvOpen);
            EEnvClose e; EFileUnlock (Z.of_nat fd);
            EClose (Z.of_nat fd); EUnlink (lockfile_of path)])
  | open_fail_db_create fd e :
      fault (CallOpen (lockfile_of path)) = 0%Z →
      fdtab w !! fd = None →
      fault (CallLock (Z.of_nat fd)) = 0%Z →
      fault CallEnvCreate = 0%Z →
      envs w !! e = None →
      fault CallEnvOpen = 0%Z →
      fault CallDbCreate ≠ 0%Z →
      open_outcome fault path w None
        (released w (lockfile_of path)
           [EOpen (lockfile_of path) (Z.of_nat fd);
            EFileLock (Z.of_nat fd) 0;
            EEnvCreate 0; EEnvOpen e 0; EDbCreate (fault CallDbCreate);
            EEnvClose e; EFileUnlock (Z.of_nat fd);
            EClose (Z.of_nat fd); EUnlink (lockfile_of path)])
  | open_fail_db_open fd e d rc :
      fault (CallOpen (lockfile_of path)) = 0%Z →
      fdtab w !! fd = None →
      fault (CallLock (Z.of_nat fd)) = 0%Z →
      fault CallEnvCreate = 0%Z →
      envs w !! e = None →
      fault CallEnvOpen = 0%Z →
      fault CallDbCreate = 0%Z →
      dbs w !! d = None →
      rc ≠ 0%Z →
      (fault (CallDbOpen path) = rc
       ∨ (fault (CallDbOpen path) = 0%Z ∧ files w !! path = Some FPlain
          ∧ rc = EINVAL)) →
      open_outcome fault path w None
        (released w (lockfile_of path)
           ([EOpen (lockfile_of path) (Z.of_nat fd);
             EFileLock (Z.of_nat fd) 0;
             EEnvCreate 0; EEnvOpen e 0; EDbCreate 0]
            ++ probe_events w path d
            ++ [EDbOpen d path (probe_flags w path) rc;
                EDbClose d; EEnvClose e; EFileUnlock (Z.of_nat fd);
                EClose (Z.of_nat fd); EUnlink (lockfile_of path)]))
  | open_ok h b fd e d :
      fault (CallOpen (lockfile_of path)) = 0%Z →
      fdtab w !! fd = None →
      fault (CallLock (Z.of_nat fd)) = 0%Z →
      fault CallEnvCreate = 0%Z →
      envs w !! e = None →
      fault CallEnvOpen = 0%Z →
      fault CallDbCreate = 0%Z →
      dbs w !! d = None →
      fault (CallDbOpen path) = 0%Z →
      files w !! path ≠ Some FPlain →
      heap w !! h = None →
      heap w !! b = None →
      h ≠ b →
      open_outcome fault path w (Some h)
        {| files :=
             <[path := opened_file (files w !! path)]>
               (<[lockfile_of path :=
                    default FEmpty (files w !! lockfile_of path)]> (files w));
           fdtab := <[fd := {| fd_path := lockfile_of path;
                               fd_locked := true |}]> (fdtab w);
           envs := <[e := {| env_opened := true |}]> (envs w);
           dbs := <[d := {| db_env := Some e;
                            db_pagesize := probe_pagesize w path;
                            db_file := Some path |}]> (dbs w);
           heap :=
             <[h := BCtx {| ctx_env := Some e; ctx_db := Some d;
                            ctx_fd := Z.of_nat fd;
                            ctx_lockfile :=
                              {| buf_data := Some b;
                                 buf_dsize :=
                                   Nat.max 128
                                     (S (String.length (lockfile_of path))) |}
                         |}]>
               (<[b := BStr (lockfile_of path)]> (heap w));
           trace :=
             trace w
             ++ [EOpen (lockfile_of path) (Z.of_nat fd);
                 EFileLock (Z.of_nat fd) 0;
                 EEnvCreate 0; EEnvOpen e 0; EDbCreate 0]
             ++ probe_events w path d
             ++ [EDbOpen d path (probe_flags w path) 0] |}.

(** ** Results of fetch, store and delete *)

Section Results.

Variable fault : Call → Z.
Variable leftover : Leftover.

(** The engine handed out [v]: a new block holding [v], the number [n]
    as a 32-bit length, and the call logged with its result code. *)
Definition handed_out (w : World) (d : nat) (K v : list byte) (n rc : Z)
    : Ptr * nat * World :=
  let l := fresh (dom (heap w)) in
  (PHeap l, Z.to_nat (u32 n),
   log (EDbGet d K rc) (set_heap (<[l := BBytes v]> (heap w)) w)).

(** The result of a fetch of [K] from the database object [d] holding
    [m]: the returned pointer, [*vlen], and the world afterwards. *)
Definition fetch_result (w : World) (d : nat)
    (m : gmap (list byte) (list byte)) (K : list byte)
    : Ptr * nat * World :=
  if decide (fault (CallGet K) = 0%Z) then
    match m !! K with
    | Some v => handed_out w d K v (Z.of_nat (length v)) 0
    | None => (PNull, 0, log (EDbGet d K DB_NOTFOUND) w)
    end
  else
    match leftover K with
    | Some (Some v, n) => handed_out w d K v n (fault (CallGet K))
    | Some (None, n) =>
        (PNull, Z.to_nat (u32 n), log (EDbGet d K (fault (CallGet K))) w)
    | None => (PNull, 0, log (EDbGet d K (fault (CallGet K))) w)
    end.

(** The result of a store of [V] under [K]. *)
Definition store_result (w : World) (d : nat) (path : string) (ps : Z)
    (m : gmap (list byte) (list byte)) (K V : list byte) : Z * World :=
  if decide (fault (CallPut K V) = 0%Z) then
    (0%Z, log (EDbPut d K V 0)
            (set_files (<[path := FDb ps (<[K := V]> m)]> (files w)) w))
  else (fault (CallPut K V), log (EDbPut d K V (fault (CallPut K V))) w).

(** The result of a delete of [K]. *)
Definition delete_result (w : World) (d : nat) (path : string) (ps : Z)
    (m : gmap (list byte) (list byte)) (K : list byte) : Z * World :=
  if decide (fault (CallDel K) = 0%Z) then
    match m !! K with
    | Some _ =>
        (0%Z, log (EDbDel d K 0)
                (set_files (<[path := FDb ps (delete K m)]> (files w)) w))
    | None => (DB_NOTFOUND, log (EDbDel d K DB_NOTFOUND) w)
    end
  else (fault (CallDel K), log (EDbDel d K (fault (CallDel K))) w).

End Results.

(** ** Failure of the lock guard *)

(** The calls that give something back. *)
Definition is_release (ev : Event) : bool :=
  match ev with
  | EFileUnlock _ | EClose _ | EUnlink _ | EEnvClose _ | EDbClose _ => true
  | _ => false
  end.

(** The calls a computation added to the log. *)
Definition new_events (w w' : World) : list Event :=
  drop (length (trace w)) (trace w').

(** The lock guard cannot be acquired: the sidecar cannot be created or
    opened, or the lock cannot be obtained on whatever descriptor the
    sidecar was opened on. *)
Definition acquire_fails (fault : Call → Z) (path : string) : Prop :=
  fault (CallOpen (lockfile_of path)) ≠ 0%Z
  ∨ ∀ fd, fault (CallLock fd) ≠ 0%Z.

(** C8 read literally: whenever the lock guard cannot be acquired, open
    returns no handle and makes no call that gives anything back. *)
Definition acquire_failure_without_cleanup (fault : Call → Z) (path : string)
    (w : World) : Prop :=
  acquire_fails fault path →
  ∃ w', store_bdb_open fault (Some path) w = Some (None, w')
        ∧ ∀ ev, ev ∈ new_events w w' → is_release ev = false.

(** ** Concrete worlds *)

(** The scenario of the specification: the store at [/tmp/cache.db],
    the key [inbox:42], the value [01 02 03]. *)
Definition P0 : string := "/tmp/cache.db".
Definition K0 : list byte := [x69; x6e; x62; x6f; x78; x3a; x34; x32].
Definition V0 : list byte := [x01; x02; x03].
Definition V1 : list byte := [x0a; x0b].

(** The world a computation leaves (the starting world when it is
    undefined). *)
Definition after {A} (m : M A) (w : World) : World :=
  match m w with
  | Some (_, w') => w'
  | None => w
  end.

(** The store opened in the empty world (the handle is block [0]), and
    the same after [V0] was stored under [K0]. *)
Definition w_open : World := after (store_bdb_open no_fault (Some P0)) world0.
Definition w_stored : World :=
  after (store_bdb_store no_fault (Some 0) K0 (length K0) V0 (length V0)) w_open.

(** Conditions under which one kind of call fails. *)
Definition fault_open : Call → Z :=
  λ c, match c with CallOpen _ => 13%Z | _ => 0%Z end.
Definition fault_lock : Call → Z :=
  λ c, match c with CallLock _ => 11%Z | _ => 0%Z end.
Definition fault_get : Call → Z :=
  λ c, match c with CallGet _ => (-30973)%Z | _ => 0%Z end.

(** The worlds of the scenario after a delete, a close, a reopen and an
    overwrite. *)

Definition w_deleted : World :=
  after (store_bdb_delete_record no_fault (Some 0) K0 (length K0)) w_stored.

Definition w_closed : World := after (store_bdb_close (Some (Some 0))) w_stored.

(** The scenario of the specification: open, store, close, reopen,
    fetch. *)
Definition w_reopened : World :=
  after (store_bdb_open no_fault (Some P0)) w_closed.

Definition w_overwritten : World :=
  after (store_bdb_store no_fault (Some 0) K0 (length K0) V1 (length V1))
    w_stored.

(** ** Unwinding of a failed open *)

(** The calls by which an open acquires something: a descriptor, the
    lock, an environment, a database object. *)
Definition got_fd (ev : Event) : bool :=
  match ev with EOpen _ ret => (0 <=? ret)%Z | _ => false end.
Definition got_lock (ev : Event) : bool :=
  match ev with EFileLock _ ret => (ret =? 0)%Z | _ => false end.
Definition got_env (ev : Event) : bool :=
  match ev with EEnvCreate ret => (ret =? 0)%Z | _ => false end.
Definition got_db (ev : Event) : bool :=
  match ev with EDbCreate ret => (ret =? 0)%Z | _ => false end.

(** The release calls that undo the acquisitions among [acq], latest
    acquisition first. *)
Definition unwinding (acq : list Event) (lf : string) (fd : Z) (e d : nat)
    : list Event :=
  (if existsb got_db acq then [EDbClose d] else [])
  ++ (if existsb got_env acq then [EEnvClose e] else [])
  ++ (if existsb got_lock acq then [EFileUnlock fd] else [])
  ++ (if existsb got_fd acq then [EClose fd; EUnlink lf] else []).

(** The call is about the descriptor [fd], the environment [e] and the
    database object [d], where it names one. *)
Definition names (fd : Z) (e d : nat) (ev : Event) : Prop :=
  match ev with
  | EOpen _ ret => (0 ≤ ret)%Z → ret = fd
  | EFileLock fd' _ => fd' = fd
  | EEnvOpen e' _ => e' = e
  | ESetPagesize d' _ | EDbOpen d' _ _ _ => d' = d
  | _ => True
  end.

(** ** Sessions *)

(** One operation of a session on the handle [h]: a fetch, a store or a
    delete, under any conditions and with any result. *)
Inductive session_step (h : nat) (w w' : World) : Prop :=
  | step_fetch fault leftover K vlen r :
      store_bdb_fetch fault leftover (Some h) K (length K) vlen w
      = Some (r, w') →
      session_step h w w'
  | step_store fault K V rc :
      store_bdb_store fault (Some h) K (length K) V (length V) w
      = Some (rc, w') →
      session_step h w w'
  | step_delete fault K rc :
      store_bdb_delete_record fault (Some h) K (length K) w = Some (rc, w') →
      session_step h w w'.

(** ** More concrete values *)

(** A key with an embedded zero byte inside a longer buffer, and a value
    inside a longer buffer. *)
Definition key_buf : list byte := [x61; x00; x62; x63; x64].
Definition val_buf : list byte := [x07; x08; x09].

(** A file that holds something other than a database at the path of
    the store, and a file of length zero there. *)
Definition w_plain : World := set_files {[P0 := FPlain]} world0.
Definition w_empty : World := set_files {[P0 := FEmpty]} world0.

(** Conditions under which the database cannot be opened. *)
Definition fault_dbopen : Call → Z :=
  λ c, match c with CallDbOpen _ => 5%Z | _ => 0%Z end.

(** An account, and a database of which only the number of updates is
    kept; [always_ok] accepts every update, [never_ok] refuses them. *)
Definition acct0 : AutocryptAccount :=
  {| email_addr := "alice@example.org"; keyid := "0xA1";
     prefer_encrypt := 0; enabled := 1 |}.
Definition always_ok (a : AutocryptAccount) (n : nat) : Z * nat := (0%Z, S n).
Definition never_ok (a : AutocryptAccount) (n : nat) : Z * nat := ((-1)%Z, n).

(** A second key. *)
Definition K9 : list byte := [x6b; x39].

(** The key is [a 00 b], the first three bytes of a five-byte buffer;
    the value the first two bytes of a three-byte buffer; the fetch goes
    through another buffer that starts with the same three bytes. *)
Definition key_buf' : list byte := [x61; x00; x62; x7a].
Definition w_lengths : World :=
  after (store_bdb_store no_fault (Some 0) key_buf 3 val_buf 2) w_open.

(** The worlds of a session: a store, a fetch of the stored key, and a
    delete that the engine refuses. *)
Definition fault_del : Call → Z :=
  λ c, match c with CallDel _ => 5%Z | _ => 0%Z end.
Definition w_fetched : World :=
  after (store_bdb_fetch no_fault no_leftover (Some 0) K0 (length K0) 0)
    w_stored.
Definition w_session : World :=
  after (store_bdb_delete_record fault_del (Some 0) K0 (length K0)) w_fetched.

(** ** The claims read literally *)

(** The round trip at one handle, key and value: after a successful
    store of [V] under [K], a fetch of [K] returns [V] with its
    length. *)
Definition roundtrip_holds (w : World) (h : nat) (K V : list byte) : Prop :=
  ∀ w1,
    store_bdb_store no_fault (Some h) K (length K) V (length V) w
    = Some (0%Z, w1) →
    ∃ w2, fetch_returns no_fault no_leftover h K 0 w1 V w2.

(** A miss and an engine error look the same, at one handle and key:
    when the key is not bound and when the lookup reports an error, the
    fetch returns the null pointer and length zero. *)
Definition miss_and_error_alike (fault : Call → Z)
    (leftover : Leftover) (w : World) (h : nat)
    (path : string) (K : list byte) : Prop :=
  binding w path K = None ∨ fault (CallGet K) ≠ 0%Z →
  ∃ w', store_bdb_fetch fault leftover (Some h) K (length K) 0 w
        = Some ((PNull, 0), w').

(** The overwrite at one handle, key and value: after a successful
    store of [V2] under [K], the key is bound to [V2]. *)
Definition overwrite_holds (w : World) (h : nat) (path : string)
    (K V2 : list byte) : Prop :=
  ∀ w1,
    store_bdb_store no_fault (Some h) K (length K) V2 (length V2) w
    = Some (0%Z, w1) →
    binding w1 path K = Some V2.

(** The delete of an absent key at one handle and key: when the key is
    not bound, the delete returns a code that is not zero and leaves
    the files as they were. *)
Definition absent_delete_refused (w : World) (h : nat) (path : string)
    (K : list byte) : Prop :=
  binding w path K = None →
  ∃ rc w1,
    store_bdb_delete_record no_fault (Some h) K (length K) w = Some (rc, w1)
    ∧ rc ≠ 0%Z
    ∧ files w1 = files w.

(** A value of [2^32 + 2] bytes, and a key of [2^32 + 3] bytes that
    starts with [abc]; the store in which [abc] is bound to [V0]. *)
Definition V_huge : list byte := replicate (Z.to_nat 4294967298) x07.
Definition K_abc : list byte := [x61; x62; x63].
Definition K_huge : list byte :=
  K_abc ++ replicate (Z.to_nat 4294967296) x00.
Definition w_abc : World :=
  after (store_bdb_store no_fault (Some 0) K_abc (length K_abc) V0 (length V0))
    w_open.

(** A failing lookup that leaves a block of two bytes behind, and their
    number. *)
Definition leftover_block : Leftover :=
  λ _, Some (Some [xde; xad], 2%Z).

(** * Proofs *)

(** ** Basic facts *)

Lemma string_length_app (s t : string) :
  String.length (s +:+ t) = String.length s + String.length t.
Proof. induction s as [|a s IH]; simpl; [done | by rewrite IH]. Qed.

Lemma lockfile_of_ne (path : string) : lockfile_of path ≠ path.
Proof.
  intros Heq. apply (f_equal String.length) in Heq.
  unfold lockfile_of in Heq. rewrite string_length_app in Heq.
  simpl in Heq. lia.
Qed.

Lemma fresh_lookup {A} (m : gmap nat A) : m !! fresh (dom m) = None.
Proof. apply not_elem_of_dom, is_fresh. Qed.

(** ** Rules for weakest preconditions *)

Lemma wp_elim {A} (m : M A) w Q :
  wp m w Q → ∃ a w', m w = Some (a, w') ∧ Q a w'.
Proof. unfold wp. destruct (m w) as [[a w']|]; [eauto | done]. Qed.

Lemma wp_ret {A} (a : A) w (Q : A → World → Prop) : Q a w → wp (mret a) w Q.
Proof. done. Qed.

Lemma wp_bind {A B} (m : M A) (k : A → M B) w (Q : B → World → Prop) :
  wp m w (λ a w', wp (k a) w' Q) → wp (m ≫= k) w Q.
Proof.
  unfold wp, mbind, M_bind. by destruct (m w) as [[a w']|].
Qed.

Section Rules.

Variable fault : Call → Z.

Lemma wp_malloc b w (Q : nat → World → Prop) :
  (∀ l, heap w !! l = None → Q l (set_heap (<[l := b]> (heap w)) w)) →
  wp (malloc b) w Q.
Proof. intros H. apply H, fresh_lookup. Qed.

Lemma wp_free l x w (Q : unit → World → Prop) :
  heap w !! l = Some x →
  Q tt (set_heap (delete l (heap w)) w) →
  wp (free l) w Q.
Proof. unfold wp, free. by intros ->. Qed.

Lemma wp_ctx_load h c w (Q : StoreDbCtx → World → Prop) :
  heap w !! h = Some (BCtx c) → Q c w → wp (ctx_load h) w Q.
Proof. unfold wp, ctx_load. by intros ->. Qed.

Lemma wp_ctx_store h c c' w (Q : unit → World → Prop) :
  heap w !! h = Some (BCtx c) →
  Q tt (set_heap (<[h := BCtx c']> (heap w)) w) →
  wp (ctx_store h c') w Q.
Proof. unfold wp, ctx_store. by intros ->. Qed.

Lemma wp_ctx_update h f c w (Q : unit → World → Prop) :
  heap w !! h = Some (BCtx c) →
  Q tt (set_heap (<[h := BCtx (f c)]> (heap w)) w) →
  wp (ctx_update h f) w Q.
Proof.
  intros Hh HQ. apply wp_bind. eapply wp_ctx_load; [done|].
  by eapply wp_ctx_store.
Qed.

Lemma wp_buf_string buf l s w (Q : string → World → Prop) :
  buf_data buf = Some l → heap w !! l = Some (BStr s) →
  Q s w → wp (buf_string buf) w Q.
Proof. unfold wp, buf_string. by intros -> ->. Qed.

Lemma wp_buf_printf buf l s0 s w (Q : Buffer → World → Prop) :
  buf_data buf = Some l → heap w !! l = Some (BStr s0) →
  Q {| buf_data := Some l;
       buf_dsize := Nat.max (buf_dsize buf) (S (String.length s)) |}
    (set_heap (<[l := BStr s]> (heap w)) w) →
  wp (buf_printf buf s) w Q.
Proof. unfold wp, buf_printf. by intros -> ->. Qed.

Lemma wp_posix_open_fail path w (Q : Z → World → Prop) :
  fault (CallOpen path) ≠ 0%Z →
  Q (-1)%Z (log (EOpen path (-1)) w) →
  wp (posix_open fault path) w Q.
Proof. unfold wp, posix_open. intros. by rewrite decide_False. Qed.

Lemma wp_posix_open_ok path w (Q : Z → World → Prop) :
  fault (CallOpen path) = 0%Z →
  (∀ fd, fdtab w !! fd = None →
     Q (Z.of_nat fd)
       (log (EOpen path (Z.of_nat fd))
          (set_fdtab (<[fd := {| fd_path := path; fd_locked := false |}]>
                        (fdtab w))
             (set_files (<[path := default FEmpty (files w !! path)]>
                           (files w)) w)))) →
  wp (posix_open fault path) w Q.
Proof.
  unfold wp, posix_open. intros Hf HQ. rewrite decide_True by done.
  specialize (HQ _ (fresh_lookup (fdtab w))).
  destruct (files w !! path) as [f|] eqn:E; cbn [default] in HQ; [|done].
  by rewrite (insert_id _ _ _ E) in HQ.
Qed.

Lemma wp_posix_close fd en w (Q : Z → World → Prop) :
  fdtab w !! fd = Some en →
  Q 0%Z (log (EClose (Z.of_nat fd)) (set_fdtab (delete fd (fdtab w)) w)) →
  wp (posix_close (Z.of_nat fd)) w Q.
Proof.
  unfold wp, posix_close. intros Hfd HQ.
  rewrite decide_True by lia. rewrite Nat2Z.id, Hfd. done.
Qed.

Lemma wp_posix_unlink path w (Q : Z → World → Prop) :
  (∀ rc, Q rc (log (EUnlink path) (set_files (delete path (files w)) w))) →
  wp (posix_unlink path) w Q.
Proof.
  unfold wp, posix_unlink. intros HQ.
  destruct (files w !! path) as [f|] eqn:E; [done|].
  specialize (HQ (-1)%Z). by rewrite delete_id in HQ.
Qed.

Lemma wp_posix_stat path w (Q : Z * Z → World → Prop) :
  (∀ f, files w !! path = Some f → Q (0%Z, 0%Z) (log (EStat path 0) w)) →
  (files w !! path = None → Q ((-1)%Z, ENOENT) (log (EStat path (-1)) w)) →
  wp (posix_stat path) w Q.
Proof.
  unfold wp, posix_stat. intros H1 H2.
  destruct (files w !! path); eauto.
Qed.

Lemma wp_mutt_file_lock_fail fd w (Q : Z → World → Prop) :
  fault (CallLock fd) ≠ 0%Z →
  Q (-1)%Z (log (EFileLock fd (-1)) w) →
  wp (mutt_file_lock fault fd) w Q.
Proof. unfold wp, mutt_file_lock. intros. by rewrite decide_False. Qed.

Lemma wp_mutt_file_lock_ok fd en w (Q : Z → World → Prop) :
  fault (CallLock (Z.of_nat fd)) = 0%Z →
  fdtab w !! fd = Some en →
  Q 0%Z (log (EFileLock (Z.of_nat fd) 0)
           (set_fdtab (<[fd := {| fd_path := fd_path en;
                                  fd_locked := true |}]> (fdtab w)) w)) →
  wp (mutt_file_lock fault (Z.of_nat fd)) w Q.
Proof.
  unfold wp, mutt_file_lock. intros Hf Hfd HQ.
  rewrite decide_True by done. rewrite decide_True by lia.
  by rewrite Nat2Z.id, Hfd.
Qed.

Lemma wp_mutt_file_unlock fd en w (Q : Z → World → Prop) :
  fdtab w !! fd = Some en →
  Q 0%Z (log (EFileUnlock (Z.of_nat fd))
           (set_fdtab (<[fd := {| fd_path := fd_path en;
                                  fd_locked := false |}]> (fdtab w)) w)) →
  wp (mutt_file_unlock (Z.of_nat fd)) w Q.
Proof.
  unfold wp, mutt_file_unlock. intros Hfd HQ.
  rewrite decide_True by lia. by rewrite Nat2Z.id, Hfd.
Qed.

End Rules.

Section EngineRules.

Variable fault : Call → Z.

Lemma wp_db_env_create_fail envp w (Q : Z * option nat → World → Prop) :
  fault CallEnvCreate ≠ 0%Z →
  Q (fault CallEnvCreate, envp) (log (EEnvCreate (fault CallEnvCreate)) w) →
  wp (db_env_create fault envp) w Q.
Proof. unfold wp, db_env_create. intros. by rewrite decide_False. Qed.

Lemma wp_db_env_create_ok envp w (Q : Z * option nat → World → Prop) :
  fault CallEnvCreate = 0%Z →
  (∀ e, envs w !! e = None →
     Q (0%Z, Some e)
       (log (EEnvCreate 0)
          (set_envs (<[e := {| env_opened := false |}]> (envs w)) w))) →
  wp (db_env_create fault envp) w Q.
Proof.
  unfold wp, db_env_create. intros Hf HQ. rewrite decide_True by done.
  apply HQ, fresh_lookup.
Qed.

Lemma wp_DB_ENV_open_fail e o w (Q : Z → World → Prop) :
  envs w !! e = Some o →
  fault CallEnvOpen ≠ 0%Z →
  Q (fault CallEnvOpen) (log (EEnvOpen e (fault CallEnvOpen)) w) →
  wp (DB_ENV_open fault (Some e)) w Q.
Proof.
  unfold wp, DB_ENV_open. intros -> ? ?. by rewrite decide_False.
Qed.

Lemma wp_DB_ENV_open_ok e o w (Q : Z → World → Prop) :
  envs w !! e = Some o →
  fault CallEnvOpen = 0%Z →
  Q 0%Z (log (EEnvOpen e 0)
           (set_envs (<[e := {| env_opened := true |}]> (envs w)) w)) →
  wp (DB_ENV_open fault (Some e)) w Q.
Proof.
  unfold wp, DB_ENV_open. intros -> ? ?. by rewrite decide_True.
Qed.

Lemma wp_DB_ENV_close e o w (Q : Z → World → Prop) :
  envs w !! e = Some o →
  Q 0%Z (log (EEnvClose e) (set_envs (delete e (envs w)) w)) →
  wp (DB_ENV_close (Some e)) w Q.
Proof. unfold wp, DB_ENV_close. by intros ->. Qed.

Lemma wp_db_create_fail dbp env w (Q : Z * option nat → World → Prop) :
  fault CallDbCreate ≠ 0%Z →
  Q (fault CallDbCreate, dbp) (log (EDbCreate (fault CallDbCreate)) w) →
  wp (db_create fault dbp env) w Q.
Proof. unfold wp, db_create. intros. by rewrite decide_False. Qed.

Lemma wp_db_create_ok dbp env w (Q : Z * option nat → World → Prop) :
  fault CallDbCreate = 0%Z →
  (∀ d, dbs w !! d = None →
     Q (0%Z, Some d)
       (log (EDbCreate 0)
          (set_dbs (<[d := {| db_env := env; db_pagesize := None;
                              db_file := None |}]> (dbs w)) w))) →
  wp (db_create fault dbp env) w Q.
Proof.
  unfold wp, db_create. intros Hf HQ. rewrite decide_True by done.
  apply HQ, fresh_lookup.
Qed.

Lemma wp_DB_set_pagesize d o ps w (Q : Z → World → Prop) :
  dbs w !! d = Some o →
  Q 0%Z (log (ESetPagesize d ps)
           (set_dbs (<[d := {| db_env := db_env o; db_pagesize := Some ps;
                               db_file := db_file o |}]> (dbs w)) w)) →
  wp (DB_set_pagesize (Some d) ps) w Q.
Proof. unfold wp, DB_set_pagesize. by intros ->. Qed.

Lemma wp_DB_close d o w (Q : Z → World → Prop) :
  dbs w !! d = Some o →
  Q 0%Z (log (EDbClose d) (set_dbs (delete d (dbs w)) w)) →
  wp (DB_close (Some d)) w Q.
Proof. unfold wp, DB_close. by intros ->. Qed.

(** [db->open] is defined on every live object; its result and effect
    are those of [db_open_file] unless the call fails from outside. *)
Lemma wp_DB_open d o path flags w (Q : Z → World → Prop) :
  dbs w !! d = Some o →
  (fault (CallDbOpen path) ≠ 0%Z →
     Q (fault (CallDbOpen path))
       (log (EDbOpen d path flags (fault (CallDbOpen path))) w)) →
  (fault (CallDbOpen path) = 0%Z →
     (db_open_file o path flags (files w)).1 ≠ 0%Z →
     Q (db_open_file o path flags (files w)).1
       (log (EDbOpen d path flags (db_open_file o path flags (files w)).1) w)) →
  (fault (CallDbOpen path) = 0%Z →
     (db_open_file o path flags (files w)).1 = 0%Z →
     Q 0%Z
       (log (EDbOpen d path flags 0)
          (set_dbs (<[d := {| db_env := db_env o;
                              db_pagesize := db_pagesize o;
                              db_file := Some path |}]> (dbs w))
             (set_files (db_open_file o path flags (files w)).2 w)))) →
  wp (DB_open fault (Some d) path flags) w Q.
Proof.
  unfold wp, DB_open. intros -> H1 H2 H3.
  destruct (decide (fault (CallDbOpen path) = 0%Z)) as [Hf|Hf]; [|by auto].
  destruct (db_open_file o path flags (files w)) as [rc fs]; simpl in *.
  destruct (decide (rc = 0%Z)) as [->|Hrc]; auto.
Qed.

End EngineRules.

(** ** Releasing a context *)

(** World projections and updates reduce by computation. *)
Ltac wsimpl :=
  unfold set_files, set_fdtab, set_envs, set_dbs, set_heap, log,
    with_env, with_db, with_fd, with_lockfile in *;
  cbn [files fdtab envs dbs heap trace
       ctx_env ctx_db ctx_fd ctx_lockfile buf_data buf_dsize
       with_env with_db with_fd with_lockfile from_option
       fd_path fd_locked env_opened db_env db_pagesize db_file] in *.

Lemma wp_bdb_sdata_free h c b s w (Q : option (option nat) → World → Prop) :
  heap w !! h = Some (BCtx c) →
  buf_data (ctx_lockfile c) = Some b →
  heap w !! b = Some (BStr s) →
  h ≠ b →
  Q (Some None) (set_heap (delete h (delete b (heap w))) w) →
  wp (bdb_sdata_free (Some (Some h))) w Q.
Proof.
  intros Hh Hb Hs Hne HQ. unfold bdb_sdata_free.
  apply wp_bind. eapply wp_ctx_load; [done|].
  apply wp_bind. unfold buf_dealloc. rewrite Hb. unfold FREE.
  apply wp_bind. apply wp_bind. eapply wp_free; [done|].
  apply wp_ret, wp_ret.
  apply wp_bind. eapply wp_ctx_store.
  { wsimpl. by rewrite lookup_delete_ne. }
  apply wp_bind. apply wp_bind. eapply wp_free.
  { wsimpl. apply lookup_insert_eq. }
  apply wp_ret, wp_ret. wsimpl.
  by rewrite delete_insert_eq.
Qed.

Lemma wp_fail_close h c fd b lf w (Q : option nat → World → Prop) :
  owns w h c fd b lf →
  Q None (torn_down w h b fd lf None None [EClose (Z.of_nat fd); EUnlink lf]) →
  wp (fail_close h) w Q.
Proof.
  intros (Hh & Hfd & Hb & Hs & Hne & [en Hen]) HQ.
  unfold fail_close.
  apply wp_bind. eapply wp_ctx_load; [done|].
  apply wp_bind. rewrite Hfd. eapply wp_posix_close; [done|].
  apply wp_bind. eapply wp_buf_string; [done..|].
  apply wp_bind. eapply wp_posix_unlink. intros _.
  apply wp_bind. eapply wp_bdb_sdata_free; [done..|].
  apply wp_ret. unfold torn_down in HQ. wsimpl.
  by rewrite <- !(assoc_L (++)).
Qed.

Lemma wp_fail_unlock h c fd b lf w (Q : option nat → World → Prop) :
  owns w h c fd b lf →
  Q None (torn_down w h b fd lf None None
            [EFileUnlock (Z.of_nat fd); EClose (Z.of_nat fd); EUnlink lf]) →
  wp (fail_unlock h) w Q.
Proof.
  intros Hown HQ. pose proof Hown as (Hh & Hfd & Hb & Hs & Hne & [en Hen]).
  unfold fail_unlock.
  apply wp_bind. eapply wp_ctx_load; [done|].
  apply wp_bind. rewrite Hfd. eapply wp_mutt_file_unlock; [done|].
  eapply wp_fail_close.
  { repeat split; wsimpl; try done. by rewrite lookup_insert_eq. }
  unfold torn_down in *. wsimpl.
  by rewrite delete_insert_eq, <- !(assoc_L (++)).
Qed.

Lemma wp_fail_env h c fd b lf e w (Q : option nat → World → Prop) :
  owns w h c fd b lf →
  ctx_env c = Some e →
  is_Some (envs w !! e) →
  Q None (torn_down w h b fd lf (Some e) None
            [EEnvClose e; EFileUnlock (Z.of_nat fd); EClose (Z.of_nat fd);
             EUnlink lf]) →
  wp (fail_env h) w Q.
Proof.
  intros Hown He [o Ho] HQ. pose proof Hown as (Hh & _).
  unfold fail_env.
  apply wp_bind. eapply wp_ctx_load; [done|].
  apply wp_bind. rewrite He. eapply wp_DB_ENV_close; [done|].
  eapply wp_fail_unlock; [exact Hown|].
  unfold torn_down in *. wsimpl.
  by rewrite <- !(assoc_L (++)).
Qed.

Lemma wp_fail_db h c fd b lf e d w (Q : option nat → World → Prop) :
  owns w h c fd b lf →
  ctx_env c = Some e →
  is_Some (envs w !! e) →
  ctx_db c = Some d →
  is_Some (dbs w !! d) →
  Q None (torn_down w h b fd lf (Some e) (Some d)
            [EDbClose d; EEnvClose e; EFileUnlock (Z.of_nat fd);
             EClose (Z.of_nat fd); EUnlink lf]) →
  wp (fail_db h) w Q.
Proof.
  intros Hown He Hoe Hd [o Ho] HQ. pose proof Hown as (Hh & _).
  unfold fail_db.
  apply wp_bind. eapply wp_ctx_load; [done|].
  apply wp_bind. rewrite Hd. eapply wp_DB_close; [done|].
  eapply wp_fail_env; [exact Hown|done..|].
  unfold torn_down in *. wsimpl.
  by rewrite <- !(assoc_L (++)).
Qed.

(** Equality of finite maps built from inserts and deletes, decided
    key by key. *)
Ltac map_cases :=
  apply map_eq; intros ?;
  repeat (rewrite lookup_insert || rewrite lookup_delete);
  repeat case_decide; subst; try done; try congruence.

(** Equality of worlds, field by field: logs by associativity, maps by
    cancelling what was inserted and deleted again. *)
Ltac field_eq :=
  lazymatch goal with
  | |- @eq (list Event) _ _ => rewrite <- ?(assoc_L (++)); simpl; reflexivity
  | |- ?x = ?y =>
      first
        [ constr_eq x y; reflexivity
        | lazymatch x with
          | delete ?l (<[?l' := _]> ?m) =>
              lazymatch y with
              | delete ?l2 ?m2 =>
                  constr_eq l l'; constr_eq l l2; constr_eq m m2;
                  apply delete_insert_eq
              end
          end
        | lazymatch type of x with
          | gmap nat _ => map_cases; fail
          end
        | idtac ]
  end.

Ltac world_eq :=
  unfold torn_down, released; wsimpl; f_equal; field_eq.

Lemma wp_bdb_sdata_new w (Q : nat → World → Prop) :
  (∀ h b, heap w !! h = None → heap w !! b = None → h ≠ b →
     Q h (set_heap
            (<[h := BCtx {| ctx_env := None; ctx_db := None; ctx_fd := 0;
                            ctx_lockfile := {| buf_data := Some b;
                                               buf_dsize := 128 |} |}]>
               (<[b := BStr ""]> (heap w))) w)) →
  wp bdb_sdata_new w Q.
Proof.
  intros HQ. unfold bdb_sdata_new, mutt_mem_calloc_ctx, buf_make.
  apply wp_bind, wp_malloc. intros h Hh.
  apply wp_bind, wp_bind, wp_malloc. intros b Hb. apply wp_ret.
  wsimpl. apply lookup_insert_None in Hb as [Hb Hne].
  apply wp_bind. eapply wp_ctx_update.
  { wsimpl. rewrite lookup_insert_ne by done. apply lookup_insert_eq. }
  apply wp_ret. specialize (HQ h b Hh Hb Hne). wsimpl.
  replace (<[h := _]> (<[b := _]> (<[h := _]> (heap w))))
    with (<[h := BCtx {| ctx_env := None; ctx_db := None; ctx_fd := 0;
                         ctx_lockfile := {| buf_data := Some b;
                                            buf_dsize := 128 |} |}]>
            (<[b := BStr ""]> (heap w))); [done|].
  map_cases.
Qed.

(** ** The outcomes of [store_bdb_open], proved *)

Lemma insert_over_both {A} (m : gmap nat A) (h b : nat) (x x' y y' : A) :
  h ≠ b →
  <[h := x]> (<[b := y]> (<[h := x']> (<[b := y']> m)))
  = <[h := x]> (<[b := y]> m).
Proof. intros. map_cases. Qed.

(** The context built by [store_bdb_open] owns its descriptor and
    buffer at every cleanup label. *)
Ltac own :=
  unfold owns; wsimpl; rewrite ?lookup_insert_eq;
  rewrite lookup_insert_ne, ?lookup_insert_eq by done; eauto 10.

Lemma store_bdb_open_outcome fault path w :
  wp (store_bdb_open fault (Some path)) w (open_outcome fault path w).
Proof.
  unfold store_bdb_open. fold (lockfile_of path).
  apply wp_bind, wp_bdb_sdata_new. intros h b Hh Hb Hne.
  apply wp_bind. eapply wp_ctx_load. { wsimpl. apply lookup_insert_eq. }
  apply wp_bind. eapply wp_buf_printf; [done| |].
  { wsimpl. rewrite lookup_insert_ne by done. apply lookup_insert_eq. }
  apply wp_bind. eapply wp_ctx_update.
  { wsimpl. rewrite lookup_insert_ne by done. apply lookup_insert_eq. }
  wsimpl. rewrite insert_over_both by done.
  apply wp_bind. eapply wp_ctx_load. { wsimpl. apply lookup_insert_eq. }
  apply wp_bind. eapply wp_buf_string; [done| |].
  { wsimpl. rewrite lookup_insert_ne by done. apply lookup_insert_eq. }
  apply wp_bind.
  destruct (decide (fault (CallOpen (lockfile_of path)) = 0%Z)) as [F1|F1].
  2:{ (* the sidecar cannot be created *)
    apply wp_posix_open_fail; [done|].
    apply wp_bind. eapply wp_ctx_update. { wsimpl. apply lookup_insert_eq. }
    wsimpl. rewrite insert_insert_eq. rewrite decide_True by lia.
    unfold FREE. apply wp_bind, wp_bind. eapply wp_free.
    { wsimpl. apply lookup_insert_eq. }
    apply wp_ret, wp_ret. wsimpl.
    rewrite delete_insert_eq, delete_insert_ne, delete_id by done.
    by apply open_fail_lockfile. }
  apply wp_posix_open_ok; [done|]. intros fd Hfd.
  apply wp_bind. eapply wp_ctx_update. { wsimpl. apply lookup_insert_eq. }
  wsimpl. rewrite insert_insert_eq. rewrite decide_False by lia.
  apply wp_bind.
  assert (Hlf : ∀ fs : gmap string File,
            <[lockfile_of path := default FEmpty (files w !! lockfile_of path)]>
              fs !! path = fs !! path)
    by (intros; apply lookup_insert_ne, lockfile_of_ne).
  destruct (decide (fault (CallLock (Z.of_nat fd)) = 0%Z)) as [F2|F2].
  2:{ (* the lock cannot be taken *)
    apply wp_mutt_file_lock_fail; [done|]. rewrite decide_True by lia.
    eapply (wp_fail_close h _ fd b (lockfile_of path)); [own|].
    eassert (torn_down _ _ _ _ _ _ _ _ = released w (lockfile_of path) _) as ->;
      [|by apply open_fail_lock].
    world_eq. }
  eapply wp_mutt_file_lock_ok; [done| |].
  { wsimpl. apply lookup_insert_eq. }
  rewrite decide_False by (intros ?; done).
  wsimpl. rewrite insert_insert_eq.
  apply wp_bind. eapply wp_ctx_load. { wsimpl. apply lookup_insert_eq. }
  apply wp_bind. wsimpl.
  destruct (decide (fault CallEnvCreate = 0%Z)) as [F3|F3].
  2:{ (* no environment *)
    apply wp_db_env_create_fail; [done|].
    apply wp_bind. eapply wp_ctx_update. { wsimpl. apply lookup_insert_eq. }
    wsimpl. rewrite insert_insert_eq. rewrite decide_True by done.
    eapply (wp_fail_unlock h _ fd b (lockfile_of path)); [own|].
    eassert (torn_down _ _ _ _ _ _ _ _ = released w (lockfile_of path) _) as ->;
      [|by apply open_fail_env_create].
    world_eq. }
  apply wp_db_env_create_ok; [done|]. intros e He.
  apply wp_bind. eapply wp_ctx_update. { wsimpl. apply lookup_insert_eq. }
  wsimpl. rewrite insert_insert_eq. rewrite decide_False by (intros ?; done).
  apply wp_bind.
  destruct (decide (fault CallEnvOpen = 0%Z)) as [F4|F4].
  2:{ (* the environment cannot be opened *)
    eapply wp_DB_ENV_open_fail; [wsimpl; apply lookup_insert_eq|done|].
    rewrite decide_True by done.
    eapply (wp_fail_env h _ fd b (lockfile_of path) e); [own|done| |].
    { wsimpl. by rewrite lookup_insert_eq. }
    eassert (torn_down _ _ _ _ _ _ _ _ = released w (lockfile_of path) _) as ->;
      [|by apply open_fail_env_open].
    world_eq. }
  eapply wp_DB_ENV_open_ok; [wsimpl; apply lookup_insert_eq|done|].
  rewrite decide_False by (intros ?; done).
  wsimpl. rewrite insert_insert_eq.
  apply wp_bind. eapply wp_ctx_update. { wsimpl. apply lookup_insert_eq. }
  wsimpl. rewrite insert_insert_eq.
  apply wp_bind.
  destruct (decide (fault CallDbCreate = 0%Z)) as [F5|F5].
  2:{ (* no database object *)
    apply wp_db_create_fail; [done|].
    apply wp_bind. eapply wp_ctx_update. { wsimpl. apply lookup_insert_eq. }
    wsimpl. rewrite insert_insert_eq. rewrite decide_True by done.
    eapply (wp_fail_env h _ fd b (lockfile_of path) e); [own|done| |].
    { wsimpl. by rewrite lookup_insert_eq. }
    eassert (torn_down _ _ _ _ _ _ _ _ = released w (lockfile_of path) _) as ->;
      [|by apply open_fail_db_create].
    world_eq. }
  apply wp_db_create_ok; [done|]. intros d Hd.
  apply wp_bind. eapply wp_ctx_update. { wsimpl. apply lookup_insert_eq. }
  wsimpl. rewrite insert_insert_eq. rewrite decide_False by (intros ?; done).
  apply wp_bind.
  destruct (files w !! path) as [f|] eqn:E.
  - (* the database file exists: plain [DB_CREATE] *)
    apply wp_posix_stat; wsimpl; [intros _ _|by rewrite Hlf, E].
    rewrite decide_False by (intros [? _]; done).
    apply wp_bind, wp_ret. apply wp_bind.
    eapply wp_DB_open; [wsimpl; apply lookup_insert_eq|..];
      unfold db_open_file; wsimpl; rewrite ?Hlf, ?E.
    + intros F6. rewrite decide_True by done.
      eapply (wp_fail_db h _ fd b (lockfile_of path) e d);
        [own|done|wsimpl; by rewrite lookup_insert_eq
        |done|wsimpl; by rewrite lookup_insert_eq|].
      eenough (torn_down _ _ _ _ _ _ _ _ = _) as ->;
        [eapply (open_fail_db_open fault path w fd e d); eauto|].
      unfold probe_events, probe_flags. rewrite E. world_eq.
    + intros F6 Hrc. rewrite decide_True by done.
      destruct f as [| |ps m]; simpl in *; [done| |done].
      eapply (wp_fail_db h _ fd b (lockfile_of path) e d);
        [own|done|wsimpl; by rewrite lookup_insert_eq
        |done|wsimpl; by rewrite lookup_insert_eq|].
      eenough (torn_down _ _ _ _ _ _ _ _ = _) as ->;
        [eapply (open_fail_db_open fault path w fd e d EINVAL); eauto|].
      unfold probe_events, probe_flags. rewrite E. world_eq.
    + intros F6 Hrc. rewrite decide_False by (intros ?; done).
      destruct f as [| |ps m]; simpl in *; [|done|]; apply wp_ret.
      * (* a file of length zero becomes an empty database *)
        eenough (Build_World _ _ _ _ _ _ = _) as ->;
          [eapply (open_ok fault path w h b fd e d); eauto; congruence|].
        unfold probe_events, probe_flags, probe_pagesize, opened_file.
        rewrite E. simpl. world_eq.
      * eenough (Build_World _ _ _ _ _ _ = _) as ->;
          [eapply (open_ok fault path w h b fd e d); eauto; congruence|].
        unfold probe_events, probe_flags, probe_pagesize, opened_file.
        rewrite E. simpl. world_eq.
        rewrite (insert_id _ path (FDb ps m)); [reflexivity|]. by rewrite Hlf.
  - (* no database file yet: exclusive create with the small page size *)
    apply wp_posix_stat; wsimpl; [intros ?; by rewrite Hlf, E|intros _].
    rewrite decide_True by done.
    apply wp_bind, wp_bind.
    eapply wp_DB_set_pagesize; [wsimpl; apply lookup_insert_eq|].
    apply wp_ret. wsimpl. rewrite insert_insert_eq. apply wp_bind.
    eapply wp_DB_open; [wsimpl; apply lookup_insert_eq|..];
      unfold db_open_file; wsimpl; rewrite ?Hlf, ?E.
    + intros F6. rewrite decide_True by done.
      eapply (wp_fail_db h _ fd b (lockfile_of path) e d);
        [own|done|wsimpl; by rewrite lookup_insert_eq
        |done|wsimpl; by rewrite lookup_insert_eq|].
      eenough (torn_down _ _ _ _ _ _ _ _ = _) as ->;
        [eapply (open_fail_db_open fault path w fd e d); eauto|].
      unfold probe_events, probe_flags. rewrite E. world_eq.
    + intros F6 Hrc. by simpl in Hrc.
    + intros F6 _. rewrite decide_False by (intros ?; done). simpl.
      apply wp_ret.
      eenough (Build_World _ _ _ _ _ _ = _) as ->;
        [eapply (open_ok fault path w h b fd e d); eauto; congruence|].
      unfold probe_events, probe_flags, probe_pagesize, opened_file.
      rewrite E. simpl. world_eq.
Qed.

(** [store_bdb_open] is defined on every world, and ends in one of the
    outcomes above. *)
Lemma store_bdb_open_defined fault path w :
  ∃ r w', store_bdb_open fault (Some path) w = Some (r, w')
          ∧ open_outcome fault path w r w'.
Proof. apply wp_elim, store_bdb_open_outcome. Qed.

Lemma store_bdb_open_inv fault path w r w' :
  store_bdb_open fault (Some path) w = Some (r, w') →
  open_outcome fault path w r w'.
Proof.
  intros Heq. pose proof (store_bdb_open_outcome fault path w) as Hwp.
  unfold wp in Hwp. by rewrite Heq in Hwp.
Qed.

(** ** The handle invariant *)

(** A successful open returns an open handle on the path, and the
    database holds what the file held before (nothing, for a new file). *)
Lemma open_outcome_handle_ok fault path w h w' :
  open_outcome fault path w (Some h) w' →
  handle_ok w' h path
  ∧ heap w !! h = None
  ∧ contents w' path = Some (default ∅ (contents w path)).
Proof.
  inversion 1; subst. split; [|split; [done|]].
  - destruct (files w !! path) as [[| |ps m]|] eqn:E; [|done|..].
    + exists e, d, fd, b, (Nat.max 128 (S (String.length (lockfile_of path)))),
        (probe_pagesize w path), default_pagesize, ∅.
      wsimpl. rewrite !lookup_insert_eq.
      rewrite lookup_insert_ne, lookup_insert_eq by done. done.
    + exists e, d, fd, b, (Nat.max 128 (S (String.length (lockfile_of path)))),
        (probe_pagesize w path), ps, m.
      wsimpl. rewrite !lookup_insert_eq.
      rewrite lookup_insert_ne, lookup_insert_eq by done. done.
    + exists e, d, fd, b, (Nat.max 128 (S (String.length (lockfile_of path)))),
        (probe_pagesize w path), 512%Z, ∅.
      wsimpl. rewrite !lookup_insert_eq.
      rewrite lookup_insert_ne, lookup_insert_eq by done. done.
  - unfold contents. wsimpl. rewrite lookup_insert_eq.
    by destruct (files w !! path) as [[| |ps m]|].
Qed.

(** What an open handle gives access to. *)
Lemma handle_ok_db w h path :
  handle_ok w h path →
  ∃ c d ps m,
    heap w !! h = Some (BCtx c) ∧ ctx_db c = Some d
    ∧ db_contents w d = Some (path, ps, m)
    ∧ contents w path = Some m.
Proof.
  intros (e & d & fd & b & dsz & dps & ps & m & Hh & Hb & He & Hd & Hf & Hfd).
  eexists _, d, ps, m. split; [exact Hh|]. split; [done|].
  unfold db_contents, contents. rewrite Hd. cbn [db_file]. by rewrite Hf.
Qed.

Lemma handle_ok_contents w h path :
  handle_ok w h path → is_Some (contents w path).
Proof. intros (c & d & ps & m & _ & _ & _ & ->)%handle_ok_db. eauto. Qed.

(** The invariant only depends on the blocks, objects and files it
    names: it survives logging, allocation of a block elsewhere, and an
    update of the database contents. *)
Lemma handle_ok_log w h path ev :
  handle_ok w h path → handle_ok (log ev w) h path.
Proof. done. Qed.

Lemma handle_ok_alloc w h path l blk :
  heap w !! l = None →
  handle_ok w h path → handle_ok (set_heap (<[l := blk]> (heap w)) w) h path.
Proof.
  intros Hl (e & d & fd & b & dsz & dps & ps & m & Hh & Hb & H).
  exists e, d, fd, b, dsz, dps, ps, m. wsimpl.
  rewrite !lookup_insert_ne by congruence. done.
Qed.

Lemma handle_ok_update w h path ps m :
  handle_ok w h path →
  handle_ok (set_files (<[path := FDb ps m]> (files w)) w) h path.
Proof.
  intros (e & d & fd & b & dsz & dps & ps' & m' & Hh & Hb & He & Hd & Hf & Hfd).
  exists e, d, fd, b, dsz, dps, ps, m. wsimpl.
  by rewrite lookup_insert_eq.
Qed.

(** ** Lengths of 32 bits *)

Lemma u32_small (z : Z) : (0 ≤ z < 4294967296)%Z → u32 z = z.
Proof. apply Z.mod_small. Qed.

Lemma u32_range (z : Z) : (0 ≤ u32 z < 4294967296)%Z.
Proof. unfold u32. apply Z.mod_pos_bound. lia. Qed.

Lemma u32_length_le (n : nat) : Z.to_nat (u32 (Z.of_nat n)) ≤ n.
Proof.
  unfold u32.
  pose proof (Z.mod_le (Z.of_nat n) 4294967296 ltac:(lia) ltac:(lia)).
  pose proof (Z.mod_pos_bound (Z.of_nat n) 4294967296 ltac:(lia)). lia.
Qed.

Lemma u32_length_short (b : list byte) :
  short b → Z.to_nat (u32 (Z.of_nat (length b))) = length b.
Proof. unfold short. intros Hs. rewrite u32_small by lia. lia. Qed.

(** A buffer that fits is given to the engine whole. *)
Lemma cut_short (b : list byte) : short b → cut (length b) b = b.
Proof.
  intros Hs. unfold cut. rewrite u32_length_short by done. apply firstn_all.
Qed.

(** What the engine is given always fits. *)
Lemma short_cut (len : nat) (buf : list byte) : short (cut len buf).
Proof.
  unfold short, cut. rewrite length_take.
  pose proof (u32_range (Z.of_nat len)). lia.
Qed.

(** ** Fetch, store and delete on an open handle *)

Section Operations.

Variable fault : Call → Z.
Variable leftover : Leftover.

Lemma read_bytes_cut (K : list byte) w :
  read_bytes (PUser K) (Z.to_nat (u32 (Z.of_nat (length K)))) w
  = Some (cut (length K) K, w).
Proof.
  unfold read_bytes. by rewrite decide_True by apply u32_length_le.
Qed.

Lemma store_bdb_fetch_eq w h c d path ps m K vlen :
  heap w !! h = Some (BCtx c) → ctx_db c = Some d →
  db_contents w d = Some (path, ps, m) →
  store_bdb_fetch fault leftover (Some h) K (length K) vlen w
  = Some (fetch_result fault leftover w d m (cut (length K) K)).
Proof.
  intros Hh Hd Hc.
  unfold store_bdb_fetch, fetch_result, handed_out, mbind, M_bind, ctx_load.
  rewrite Hh, Hd.
  unfold DB_get, dbt_fill, dbt_init, dbt_empty_init, mbind, M_bind.
  cbn [dbt_data dbt_size dbt_flags]. rewrite read_bytes_cut, Hc.
  rewrite decide_True by done.
  destruct (decide (fault (CallGet (cut (length K) K)) = 0%Z)).
  - by destruct (m !! cut (length K) K) as [v|].
  - by destruct (leftover (cut (length K) K)) as [[[v|] sz]|].
Qed.

Lemma store_bdb_store_eq w h c d path ps m K V :
  heap w !! h = Some (BCtx c) → ctx_db c = Some d →
  db_contents w d = Some (path, ps, m) →
  store_bdb_store fault (Some h) K (length K) V (length V) w
  = Some (store_result fault w d path ps m
            (cut (length K) K) (cut (length V) V)).
Proof.
  intros Hh Hd Hc.
  unfold store_bdb_store, store_result, mbind, M_bind, ctx_load.
  rewrite Hh, Hd. unfold DB_put, dbt_init, dbt_empty_init, mbind, M_bind.
  cbn [dbt_data dbt_size dbt_flags]. rewrite !read_bytes_cut, Hc.
  by destruct (decide (fault (CallPut (cut (length K) K)
                                (cut (length V) V)) = 0%Z)).
Qed.

Lemma store_bdb_delete_record_eq w h c d path ps m K :
  heap w !! h = Some (BCtx c) → ctx_db c = Some d →
  db_contents w d = Some (path, ps, m) →
  store_bdb_delete_record fault (Some h) K (length K) w
  = Some (delete_result fault w d path ps m (cut (length K) K)).
Proof.
  intros Hh Hd Hc.
  unfold store_bdb_delete_record, delete_result, mbind, M_bind, ctx_load.
  rewrite Hh, Hd. unfold DB_del, dbt_init, mbind, M_bind.
  cbn [dbt_data dbt_size dbt_flags]. rewrite read_bytes_cut, Hc.
  destruct (decide (fault (CallDel (cut (length K) K)) = 0%Z)); [|done].
  by destruct (m !! cut (length K) K).
Qed.

End Operations.

(** ** Close *)

(** Closing an open handle is defined, leaves a null pointer behind, and
    tears down what the handle owns, in this order: the database object,
    the environment, the lock, the descriptor, the sidecar, the memory. *)
Lemma store_bdb_close_eq w h path :
  handle_ok w h path →
  ∃ (e d fd b : nat) (c : StoreDbCtx),
    heap w !! h = Some (BCtx c)
    ∧ ctx_env c = Some e ∧ ctx_db c = Some d ∧ ctx_fd c = Z.of_nat fd
    ∧ buf_data (ctx_lockfile c) = Some b
    ∧ heap w !! b = Some (BStr (lockfile_of path))
    ∧ is_Some (envs w !! e) ∧ is_Some (dbs w !! d)
    ∧ fdtab w !! fd = Some {| fd_path := lockfile_of path; fd_locked := true |}
    ∧ store_bdb_close (Some (Some h)) w
      = Some (Some None,
              torn_down w h b fd (lockfile_of path) (Some e) (Some d)
                [EDbClose d; EEnvClose e; EFileUnlock (Z.of_nat fd);
                 EClose (Z.of_nat fd); EUnlink (lockfile_of path)]).
Proof.
  intros (e & d & fd & b & dsz & dps & ps & m & Hh & Hb & He & Hd & Hf & Hfd).
  eexists e, d, fd, b, _. split; [exact Hh|]. do 4 (split; [done|]).
  split; [done|]. split; [eauto|]. split; [eauto|]. split; [done|].
  assert (h ≠ b) as Hne by congruence.
  enough (wp (store_bdb_close (Some (Some h))) w
            (λ r w', r = Some None
               ∧ w' = torn_down w h b fd (lockfile_of path) (Some e) (Some d)
                        [EDbClose d; EEnvClose e; EFileUnlock (Z.of_nat fd);
                         EClose (Z.of_nat fd); EUnlink (lockfile_of path)]))
    as (r & w' & -> & -> & ->)%wp_elim; [done|].
  unfold store_bdb_close.
  apply wp_bind. eapply wp_ctx_load; [done|]. wsimpl.
  apply wp_bind. eapply wp_DB_close; [done|]. wsimpl.
  apply wp_bind. eapply wp_DB_ENV_close; [done|]. wsimpl.
  apply wp_bind. eapply wp_mutt_file_unlock; [done|]. wsimpl.
  apply wp_bind. eapply wp_posix_close; [wsimpl; apply lookup_insert_eq|].
  wsimpl.
  apply wp_bind. eapply wp_buf_string; [done..|].
  apply wp_bind. eapply wp_posix_unlink. intros _. wsimpl.
  eapply wp_bdb_sdata_free; [done..|].
  split; [done|]. world_eq.
Qed.

(** ** Operations in terms of bindings *)

(** Fetch, store and delete on an open handle, in terms of the database
    they act on and of the bytes the engine is given. *)
Lemma handle_files w h path :
  handle_ok w h path →
  ∃ c d ps m,
    heap w !! h = Some (BCtx c) ∧ ctx_db c = Some d
    ∧ db_contents w d = Some (path, ps, m)
    ∧ contents w path = Some m
    ∧ files w !! path = Some (FDb ps m).
Proof.
  intros (c & d & ps & m & Hh & Hd & Hc & Hm)%handle_ok_db.
  exists c, d, ps, m. do 4 (split; [done|]).
  unfold db_contents in Hc.
  destruct (dbs w !! d) as [o|]; [|done].
  destruct (db_file o) as [p|]; [|done].
  destruct (files w !! p) as [[| |ps' m']|] eqn:E; simplify_eq. done.
Qed.

Lemma handle_fetch fault leftover w h path K vlen :
  handle_ok w h path →
  ∃ d m, contents w path = Some m
         ∧ store_bdb_fetch fault leftover (Some h) K (length K) vlen w
           = Some (fetch_result fault leftover w d m (cut (length K) K)).
Proof.
  intros (c & d & ps & m & Hh & Hd & Hc & Hm & _)%handle_files.
  exists d, m. split; [done|]. by eapply store_bdb_fetch_eq.
Qed.

Lemma handle_store fault w h path K V :
  handle_ok w h path →
  ∃ d ps m, contents w path = Some m
            ∧ files w !! path = Some (FDb ps m)
            ∧ store_bdb_store fault (Some h) K (length K) V (length V) w
              = Some (store_result fault w d path ps m
                        (cut (length K) K) (cut (length V) V)).
Proof.
  intros (c & d & ps & m & Hh & Hd & Hc & Hm & Hf)%handle_files.
  exists d, ps, m. do 2 (split; [done|]). by eapply store_bdb_store_eq.
Qed.

Lemma handle_delete fault w h path K :
  handle_ok w h path →
  ∃ d ps m, contents w path = Some m
            ∧ files w !! path = Some (FDb ps m)
            ∧ store_bdb_delete_record fault (Some h) K (length K) w
              = Some (delete_result fault w d path ps m (cut (length K) K)).
Proof.
  intros (c & d & ps & m & Hh & Hd & Hc & Hm & Hf)%handle_files.
  exists d, ps, m. do 2 (split; [done|]).
  by eapply store_bdb_delete_record_eq.
Qed.

(** A fetch leaves the handle open and the database as it was. *)
Lemma fetch_result_frame fault leftover w h path d m K :
  handle_ok w h path →
  handle_ok (fetch_result fault leftover w d m K).2 h path
  ∧ files (fetch_result fault leftover w d m K).2 = files w.
Proof.
  intros Hok.
  assert (∀ v n rc, handle_ok (handed_out w d K v n rc).2 h path) as Hout.
  { intros v n rc. unfold handed_out.
    apply handle_ok_log, handle_ok_alloc; [apply fresh_lookup|done]. }
  unfold fetch_result.
  destruct (decide (fault (CallGet K) = 0%Z)).
  - destruct (m !! K) as [v|]; [|done]. by split.
  - destruct (leftover K) as [[[v|] sz]|]; [|done..]. by split.
Qed.

(** The handle returned by a successful open is open, and it stays
    open through every fetch, store and delete, whatever they return. *)
Lemma store_bdb_open_handle_ok fault path w h w' :
  store_bdb_open fault (Some path) w = Some (Some h, w') →
  handle_ok w' h path.
Proof.
  intros Hopen%store_bdb_open_inv.
  by apply open_outcome_handle_ok in Hopen as [? _].
Qed.

Lemma handle_ok_preserved fault leftover w h path K V vlen :
  handle_ok w h path →
  (∀ r w', store_bdb_fetch fault leftover (Some h) K (length K) vlen w
           = Some (r, w') →
           handle_ok w' h path)
  ∧ (∀ rc w', store_bdb_store fault (Some h) K (length K) V (length V) w
              = Some (rc, w') → handle_ok w' h path)
  ∧ (∀ rc w', store_bdb_delete_record fault (Some h) K (length K) w
              = Some (rc, w') → handle_ok w' h path).
Proof.
  intros Hok. repeat split.
  - intros r w' Heq.
    destruct (handle_fetch fault leftover w h path K vlen Hok)
      as (d & m & _ & Hf).
    rewrite Hf in Heq. injection Heq as Heq.
    pose proof (fetch_result_frame fault leftover w h path d m
                  (cut (length K) K) Hok) as [Hok' _].
    by rewrite Heq in Hok'.
  - intros rc w' Heq.
    destruct (handle_store fault w h path K V Hok) as (d & ps & m & _ & _ & Hs).
    rewrite Hs in Heq. unfold store_result in Heq.
    destruct (decide (fault (CallPut _ _) = 0%Z)); simplify_eq;
      [by apply handle_ok_log, handle_ok_update | by apply handle_ok_log].
  - intros rc w' Heq.
    destruct (handle_delete fault w h path K Hok) as (d & ps & m & _ & _ & Hd).
    rewrite Hd in Heq. unfold delete_result in Heq.
    destruct (decide (fault (CallDel _) = 0%Z)); [|by simplify_eq].
    destruct (m !! _); simplify_eq;
      [by apply handle_ok_log, handle_ok_update | by apply handle_ok_log].
Qed.

(** ** Bindings and records *)

(** Only a key that fits is bound. *)
Lemma binding_short w path K V : binding w path K = Some V → short K.
Proof.
  unfold binding. destruct (contents w path); [|done].
  by destruct (decide (short K)).
Qed.

(** The binding of a key that fits is the record of the file. *)
Lemma binding_lookup w path m K :
  contents w path = Some m → short K → binding w path K = m !! K.
Proof. intros Hm Hs. unfold binding. by rewrite Hm, decide_True. Qed.

(** ** The scenario *)

Lemma handle_ok_w_open : handle_ok w_open 0 P0.
Proof.
  exists 0, 0, 0, 1, 128, (Some 512%Z), 512%Z, ∅.
  repeat split; vm_compute; reflexivity.
Defined.

Lemma handle_ok_w_stored : handle_ok w_stored 0 P0.
Proof.
  exists 0, 0, 0, 1, 128, (Some 512%Z), 512%Z, (<[K0 := V0]> ∅).
  repeat split; vm_compute; reflexivity.
Defined.

(** A fetch that finds no binding for the key the engine is given, or
    during which the engine fails, returns the null pointer and length
    zero, provided a failing lookup leaves nothing behind. *)
Lemma fetch_not_found fault leftover w h path K vlen :
  handle_ok w h path →
  (fault (CallGet (cut (length K) K)) ≠ 0%Z →
   leftover (cut (length K) K) = None) →
  binding w path (cut (length K) K) = None
  ∨ fault (CallGet (cut (length K) K)) ≠ 0%Z →
  ∃ w', store_bdb_fetch fault leftover (Some h) K (length K) vlen w
        = Some ((PNull, 0), w').
Proof.
  intros Hok Hleft Hcase.
  destruct (handle_fetch fault leftover w h path K vlen Hok)
    as (d & m & Hm & ->).
  rewrite (binding_lookup _ _ _ _ Hm (short_cut _ _)) in Hcase.
  unfold fetch_result.
  destruct (decide (fault (CallGet (cut (length K) K)) = 0%Z)) as [Hf|Hf].
  - destruct Hcase as [->|]; [eauto|done].
  - rewrite (Hleft Hf). eauto.
Qed.

(** A fetch that finds a binding for the key the engine is given, the
    engine being healthy, returns a block that was not allocated before
    and holds the value, and its length. *)
Lemma fetch_found fault leftover w h path K V vlen :
  handle_ok w h path →
  binding w path (cut (length K) K) = Some V →
  short V →
  fault (CallGet (cut (length K) K)) = 0%Z →
  ∃ w', fetch_returns fault leftover h K vlen w V w'
        ∧ handle_ok w' h path
        ∧ files w' = files w.
Proof.
  intros Hok Hb HV Hf.
  destruct (handle_fetch fault leftover w h path K vlen Hok)
    as (d & m & Hm & Heq).
  pose proof (fetch_result_frame fault leftover w h path d m
                (cut (length K) K) Hok) as [Hok' Hfiles].
  rewrite (binding_lookup _ _ _ _ Hm (short_cut _ _)) in Hb.
  unfold fetch_result, handed_out in *.
  rewrite decide_True in * by done. rewrite Hb in *.
  rewrite u32_length_short in Heq by done.
  eexists. split; [|done]. eexists. split; [exact Heq|].
  split; [apply fresh_lookup|]. wsimpl.
  split; [apply lookup_insert_eq|].
  unfold store_bdb_free, free, mbind, M_bind. cbn [fst snd]. wsimpl.
  by rewrite lookup_insert_eq.
Qed.

(** A successful store leaves the handle open and the key the engine
    was given bound to the value it was given, and no other binding
    changed. *)
Lemma store_success fault w w1 h path K V :
  handle_ok w h path →
  store_bdb_store fault (Some h) K (length K) V (length V) w = Some (0%Z, w1) →
  handle_ok w1 h path
  ∧ binding w1 path (cut (length K) K) = Some (cut (length V) V)
  ∧ (∀ K', K' ≠ cut (length K) K → binding w1 path K' = binding w path K').
Proof.
  intros Hok Hst.
  destruct (handle_store fault w h path K V Hok) as (d & ps & m & Hm & Hf & Heq).
  rewrite Heq in Hst. unfold store_result in Hst.
  destruct (decide (fault (CallPut _ _) = 0%Z)); simplify_eq.
  split; [by apply handle_ok_log, handle_ok_update|].
  unfold binding, contents. wsimpl. rewrite lookup_insert_eq, Hf.
  split.
  - rewrite decide_True by apply short_cut. apply lookup_insert_eq.
  - intros K' Hne. destruct (decide (short K')); [|done].
    by apply lookup_insert_ne.
Qed.

(** The store succeeds whenever the engine accepts the write, whatever
    was bound before. *)
Lemma store_defined fault w h path K V :
  handle_ok w h path →
  fault (CallPut (cut (length K) K) (cut (length V) V)) = 0%Z →
  ∃ w1, store_bdb_store fault (Some h) K (length K) V (length V) w
        = Some (0%Z, w1).
Proof.
  intros Hok Hz.
  destruct (handle_store fault w h path K V Hok) as (d & ps & m & _ & _ & ->).
  unfold store_result. rewrite decide_True by done. eauto.
Qed.

(** A successful delete leaves the handle open and the key the engine
    was given, which was bound, unbound; no other binding changed. *)
Lemma delete_success fault w w1 h path K :
  handle_ok w h path →
  store_bdb_delete_record fault (Some h) K (length K) w = Some (0%Z, w1) →
  handle_ok w1 h path
  ∧ is_Some (binding w path (cut (length K) K))
  ∧ binding w1 path (cut (length K) K) = None
  ∧ (∀ K', K' ≠ cut (length K) K → binding w1 path K' = binding w path K').
Proof.
  intros Hok Hdel.
  destruct (handle_delete fault w h path K Hok) as (d & ps & m & Hm & Hf & Heq).
  rewrite Heq in Hdel. unfold delete_result in Hdel.
  rewrite (binding_lookup _ _ _ _ Hm (short_cut _ _)).
  destruct (decide (fault (CallDel _) = 0%Z)); [|by simplify_eq].
  destruct (m !! cut (length K) K) as [v|] eqn:E; [|by simplify_eq].
  simplify_eq.
  split; [by apply handle_ok_log, handle_ok_update|]. split; [eauto|].
  unfold binding, contents. wsimpl. rewrite lookup_insert_eq, Hf.
  split.
  - rewrite decide_True by apply short_cut. apply lookup_delete_eq.
  - intros K' Hne. destruct (decide (short K')); [|done].
    by apply lookup_delete_ne.
Qed.

(** A delete of a key that the engine does not hold, or that the engine
    refuses, returns a code that is not zero and changes no file. *)
Lemma delete_refused fault w h path K :
  handle_ok w h path →
  binding w path (cut (length K) K) = None
  ∨ fault (CallDel (cut (length K) K)) ≠ 0%Z →
  ∃ rc w1,
    store_bdb_delete_record fault (Some h) K (length K) w = Some (rc, w1)
    ∧ rc ≠ 0%Z
    ∧ rc = (if decide (fault (CallDel (cut (length K) K)) = 0%Z)
            then DB_NOTFOUND else fault (CallDel (cut (length K) K)))
    ∧ files w1 = files w
    ∧ handle_ok w1 h path.
Proof.
  intros Hok Hcase.
  destruct (handle_delete fault w h path K Hok) as (d & ps & m & Hm & Hf & ->).
  rewrite (binding_lookup _ _ _ _ Hm (short_cut _ _)) in Hcase.
  unfold delete_result.
  destruct (decide (fault (CallDel _) = 0%Z)) as [Hz|Hz].
  - destruct Hcase as [->|]; [|done].
    eexists _, _. split; [reflexivity|]. by repeat split.
  - eexists _, _. split; [reflexivity|]. by repeat split.
Qed.

(** * Properties of the store operations *)

(** ** C1: cleanup after a failed open *)

(** What every failed open gives back: the descriptor table, the
    environments and the database objects are as before the attempt,
    and no binding of the store changed.  When the sidecar was opened,
    it is unlinked and the heap is as before as well. *)
Lemma open_failure_releases fault path w w' :
  store_bdb_open fault (Some path) w = Some (None, w') →
  fdtab w' = fdtab w ∧ envs w' = envs w ∧ dbs w' = dbs w
  ∧ files w' !! path = files w !! path
  ∧ (fault (CallOpen (lockfile_of path)) = 0%Z →
     files w' = delete (lockfile_of path) (files w)
     ∧ files w' !! lockfile_of path = None
     ∧ heap w' = heap w).
Proof.
  intros Hout%store_bdb_open_inv.
  assert (∀ fs : gmap string File,
            delete (lockfile_of path) fs !! path = fs !! path) as Hne
    by (intros; apply lookup_delete_ne, lockfile_of_ne).
  inversion Hout; subst; unfold released; wsimpl; rewrite ?Hne.
  all: do 4 (split; [reflexivity|]); intros ?.
  1: done.
  all: split; [reflexivity|]; split; [apply lookup_delete_eq|reflexivity].
Qed.

(** A failed open does not stand in the way of the next one: once no
    call fails any more and the file at the path is absent or a
    database, open on the world the failed attempt left returns an open
    handle, and the store holds what it held before the failed
    attempt. *)
Lemma open_after_failure fault path w w' :
  store_bdb_open fault (Some path) w = Some (None, w') →
  files w !! path ≠ Some FPlain →
  ∃ h w'',
    store_bdb_open no_fault (Some path) w' = Some (Some h, w'')
    ∧ handle_ok w'' h path
    ∧ ∀ K, binding w'' path K = binding w path K.
Proof.
  intros Hfail Hfile.
  destruct (open_failure_releases _ _ _ _ Hfail) as (_ & _ & _ & Hc & _).
  destruct (store_bdb_open_defined no_fault path w') as (r & w'' & Heq & Hout).
  assert (files w' !! path ≠ Some FPlain) as Hfile' by by rewrite Hc.
  inversion Hout; subst; try done.
  - match goal with H : _ ∨ _ |- _ => destruct H as [H|(_ & H & _)] end;
      [by unfold no_fault in *; subst|done].
  - eexists _, _. split; [exact Heq|].
    destruct (open_outcome_handle_ok _ _ _ _ _ Hout) as (Hok & _ & Hc').
    split; [exact Hok|]. intros K. unfold binding. rewrite Hc'.
    unfold contents. rewrite Hc.
    destruct (files w !! path) as [[| |ps m]|]; simpl; try done;
      by destruct (decide (short K)).
Qed.

(** C1. When the sidecar cannot be created or opened, open returns no
    handle and touches no file, descriptor, environment or database
    object, but it frees the context only ([FREE(&ctx)], not
    [bdb_sdata_free]): the lock-file buffer allocated for this attempt
    by [bdb_sdata_new], a block that was not allocated before the call,
    is still allocated after it, so the failed attempt keeps a
    resource.  The other failure paths give everything back
    ([open_failure_releases]). *)
Theorem C1_failed_sidecar_open_keeps_buffer (fault : Call → Z) (path : string)
    (w : World) :
  fault (CallOpen (lockfile_of path)) ≠ 0%Z →
  ∃ b w',
    store_bdb_open fault (Some path) w = Some (None, w')
    ∧ heap w !! b = None
    ∧ heap w' !! b = Some (BStr (lockfile_of path))
    ∧ heap w' = <[b := BStr (lockfile_of path)]> (heap w)
    ∧ files w' = files w ∧ fdtab w' = fdtab w
    ∧ envs w' = envs w ∧ dbs w' = dbs w.
Proof.
  intros Hfail.
  destruct (store_bdb_open_defined fault path w) as (r & w' & Heq & Hout).
  inversion Hout; subst; try done.
  exists b. eexists. split; [exact Heq|]. wsimpl.
  split; [done|]. split; [apply lookup_insert_eq|]. done.
Qed.

Lemma C1_witness :
  fault_open (CallOpen (lockfile_of P0)) ≠ 0%Z
  ∧ store_bdb_open fault_open (Some P0) world0
    = Some (None,
            {| files := ∅; fdtab := ∅; envs := ∅; dbs := ∅;
               heap := {[1 := BStr (lockfile_of P0)]};
               trace := [EOpen (lockfile_of P0) (-1)] |})
  ∧ ∃ b w',
      store_bdb_open fault_open (Some P0) world0 = Some (None, w')
      ∧ heap world0 !! b = None
      ∧ heap w' !! b = Some (BStr (lockfile_of P0))
      ∧ heap w' = <[b := BStr (lockfile_of P0)]> (heap world0)
      ∧ files w' = files world0 ∧ fdtab w' = fdtab world0
      ∧ envs w' = envs world0 ∧ dbs w' = dbs world0.
Proof.
  assert (fault_open (CallOpen (lockfile_of P0)) ≠ 0%Z) as Hfail
    by discriminate.
  split; [exact Hfail|]. split; [vm_compute; reflexivity|].
  exact (C1_failed_sidecar_open_keeps_buffer fault_open P0 world0 Hfail).
Defined.

(** ** C2: round trip *)

(** Closing and reopening keeps the bindings. *)
Lemma close_reopen_binding fault w h path :
  handle_ok w h path →
  ∃ p w2,
    store_bdb_close (Some (Some h)) w = Some (p, w2)
    ∧ ∀ h' w3,
        store_bdb_open fault (Some path) w2 = Some (Some h', w3) →
        handle_ok w3 h' path ∧ ∀ K, binding w3 path K = binding w path K.
Proof.
  intros Hok.
  destruct (store_bdb_close_eq w h path Hok)
    as (e & d & fd & b & c & _ & _ & _ & _ & _ & _ & _ & _ & _ & Heq).
  eexists _, _. split; [exact Heq|]. intros h' w3 Hopen.
  apply store_bdb_open_inv, open_outcome_handle_ok in Hopen
    as (Hok' & _ & Hc).
  split; [done|]. intros K. unfold binding. rewrite Hc.
  destruct (handle_ok_contents _ _ _ Hok) as [m Hm].
  assert (contents
            (torn_down w h b fd (lockfile_of path) (Some e) (Some d)
               [EDbClose d; EEnvClose e; EFileUnlock (Z.of_nat fd);
                EClose (Z.of_nat fd); EUnlink (lockfile_of path)]) path
          = contents w path) as ->.
  { unfold contents, torn_down. wsimpl.
    by rewrite lookup_delete_ne by apply lockfile_of_ne. }
  by rewrite Hm.
Qed.

Lemma V_huge_length : Z.of_nat (length V_huge) = 4294967298%Z.
Proof. unfold V_huge. rewrite length_replicate. apply Z2Nat.id. lia. Qed.

(** A value that does not fit is stored with success and comes back
    cut: the length a fetch reports fits 32 bits. *)
Lemma roundtrip_fails_when_long w h path K V :
  handle_ok w h path → ¬ short V → ¬ roundtrip_holds w h K V.
Proof.
  intros Hok HV Hclaim.
  destruct (store_defined no_fault w h path K V Hok eq_refl) as [w1 Hst].
  destruct (Hclaim w1 Hst) as (w2 & l & Hfetch & _).
  destruct (store_success _ _ _ _ _ _ _ Hok Hst) as (Hok1 & Hb1 & _).
  destruct (fetch_found no_fault no_leftover w1 h path K _ 0 Hok1 Hb1
              (short_cut _ _) eq_refl) as (w2' & (l' & Hfetch' & _) & _).
  rewrite Hfetch in Hfetch'. injection Hfetch' as _ Hlen _.
  apply HV. unfold short. rewrite Hlen. apply short_cut.
Qed.

(** A value of [2^32 + 2] bytes does not come back. *)
Lemma C2_counterexample : ¬ roundtrip_holds w_open 0 K0 V_huge.
Proof.
  apply (roundtrip_fails_when_long w_open 0 P0 K0 V_huge handle_ok_w_open).
  unfold short. rewrite V_huge_length. lia.
Qed.

(** C2 (amended). After a successful store of [V] under [K] on an open
    handle on [path], [V] being shorter than [2^32] bytes, a fetch of
    [K] during which the engine's lookup does not fail returns [V] in
    the sense of [fetch_returns]: a block that was not allocated before
    the fetch and is the caller's to free, holding exactly [V], with
    the length of [V] reported.  This holds on the same handle, and,
    the close of that handle being defined, on the handle of any
    successful reopen of [path] after it.  The key is any buffer with
    its length: the engine is given the same bytes of it by the store
    and by the fetch. *)
Theorem C2_store_fetch_roundtrip (fault_s fault_f fault_o : Call → Z)
    (leftover_f : Leftover)
    (w w1 : World) (h : nat) (path : string) (K V : list byte) (vlen : nat) :
  handle_ok w h path →
  short V →
  store_bdb_store fault_s (Some h) K (length K) V (length V) w
  = Some (0%Z, w1) →
  fault_f (CallGet (cut (length K) K)) = 0%Z →
  (∃ w2, fetch_returns fault_f leftover_f h K vlen w1 V w2)
  ∧ (∃ p w2,
       store_bdb_close (Some (Some h)) w1 = Some (p, w2)
       ∧ ∀ h' w3,
           store_bdb_open fault_o (Some path) w2 = Some (Some h', w3) →
           ∃ w4, fetch_returns fault_f leftover_f h' K vlen w3 V w4).
Proof.
  intros Hok HV Hst Hf.
  destruct (store_success _ _ _ _ _ _ _ Hok Hst) as (Hok1 & Hb1 & _).
  rewrite (cut_short V) in Hb1 by done.
  split.
  - destruct (fetch_found fault_f leftover_f w1 h path K V vlen Hok1 Hb1 HV Hf)
      as (w2 & Hret & _). eauto.
  - destruct (close_reopen_binding fault_o w1 h path Hok1)
      as (p & w2 & Hcl & Hre).
    exists p, w2. split; [done|]. intros h' w3 Hopen.
    destruct (Hre h' w3 Hopen) as [Hok3 Hb3].
    specialize (Hb3 (cut (length K) K)). rewrite Hb1 in Hb3.
    destruct (fetch_found fault_f leftover_f w3 h' path K V vlen Hok3 Hb3 HV Hf)
      as (w4 & Hret & _). eauto.
Qed.

Lemma C2_witness :
  handle_ok w_open 0 P0
  ∧ short V0
  ∧ store_bdb_store no_fault (Some 0) K0 (length K0) V0 (length V0) w_open
    = Some (0%Z, w_stored)
  ∧ store_bdb_close (Some (Some 0)) w_stored = Some (Some None, w_closed)
  ∧ store_bdb_open no_fault (Some P0) w_closed = Some (Some 0, w_reopened)
  ∧ fst <$> store_bdb_fetch no_fault no_leftover (Some 0) K0 (length K0) 0
              w_reopened
    = Some (PHeap 2, 3)
  ∧ heap (after (store_bdb_fetch no_fault no_leftover (Some 0) K0 (length K0) 0)
            w_reopened) !! 2 = Some (BBytes V0)
  ∧ (∃ w2, fetch_returns no_fault no_leftover 0 K0 0 w_stored V0 w2)
  ∧ (∃ p w2,
       store_bdb_close (Some (Some 0)) w_stored = Some (p, w2)
       ∧ ∀ h' w3,
           store_bdb_open no_fault (Some P0) w2 = Some (Some h', w3) →
           ∃ w4, fetch_returns no_fault no_leftover h' K0 0 w3 V0 w4).
Proof.
  split; [exact handle_ok_w_open|].
  do 6 (split; [vm_compute; reflexivity|]).
  apply (C2_store_fetch_roundtrip no_fault no_fault no_fault no_leftover
           w_open w_stored 0 P0 K0 V0 0 handle_ok_w_open);
    vm_compute; reflexivity.
Defined.

(** ** C3: a miss and an engine error look the same *)

Lemma K_huge_length : Z.of_nat (length K_huge) = 4294967299%Z.
Proof.
  unfold K_huge. rewrite length_app, length_replicate. simpl length.
  rewrite Nat2Z.inj_add, Z2Nat.id by lia. reflexivity.
Qed.

(** The engine is given the first three bytes of the key of [2^32 + 3]
    bytes. *)
Lemma K_huge_cut : cut (length K_huge) K_huge = K_abc.
Proof.
  unfold cut. rewrite K_huge_length.
  change (u32 4294967299) with 3%Z. unfold K_huge.
  change (Z.to_nat 3) with (length K_abc). by rewrite take_app_length.
Qed.

Lemma K_huge_not_bound w path : binding w path K_huge = None.
Proof.
  unfold binding. destruct (contents w path); [|done].
  rewrite decide_False; [done|]. unfold short. rewrite K_huge_length. lia.
Qed.

Lemma handle_ok_w_abc : handle_ok w_abc 0 P0.
Proof.
  exists 0, 0, 0, 1, 128, (Some 512%Z), 512%Z, (<[K_abc := V0]> ∅).
  repeat split; vm_compute; reflexivity.
Defined.

(** An engine error after which the lookup left a block behind is
    returned as a value of two bytes; and a key of [2^32 + 3] bytes,
    which is not bound, is fetched as its first three bytes, which
    are. *)
Lemma C3_counterexample :
  ¬ miss_and_error_alike fault_get leftover_block w_stored 0 P0 K0
  ∧ ¬ miss_and_error_alike no_fault no_leftover w_abc 0 P0 K_huge.
Proof.
  split.
  - intros Hclaim. destruct Hclaim as [w' Heq]; [right; discriminate|].
    vm_compute in Heq. discriminate Heq.
  - intros Hclaim.
    destruct Hclaim as [w' Heq]; [left; apply K_huge_not_bound|].
    assert (binding w_abc P0 (cut (length K_huge) K_huge) = Some V0) as Hb
      by (rewrite K_huge_cut; vm_compute; reflexivity).
    destruct (fetch_found no_fault no_leftover w_abc 0 P0 K_huge V0 0
                handle_ok_w_abc Hb) as (w2 & (l & Hfetch & _) & _);
      [vm_compute; reflexivity|reflexivity|].
    rewrite Heq in Hfetch. discriminate Hfetch.
Qed.

(** C3 (amended). On an open handle, for a key shorter than [2^32]
    bytes: a fetch of the key when it is not bound, and a fetch during
    which the engine's lookup reports an error and leaves nothing
    behind, are both defined and both return the null pointer with a
    length of zero.  The result code of the lookup plays no part: the
    fetch returns what the engine left in the [DBT]. *)
Theorem C3_fetch_miss_and_error_alike (fault : Call → Z)
    (leftover : Leftover) (w : World) (h : nat)
    (path : string) (K : list byte) (vlen : nat) :
  handle_ok w h path →
  short K →
  (fault (CallGet K) ≠ 0%Z → leftover K = None) →
  binding w path K = None ∨ fault (CallGet K) ≠ 0%Z →
  ∃ w', store_bdb_fetch fault leftover (Some h) K (length K) vlen w
        = Some ((PNull, 0), w').
Proof.
  intros Hok HK Hleft Hcase.
  apply fetch_not_found with path; rewrite ?cut_short by done; done.
Qed.

(** The key is absent and the engine is healthy; the key is present and
    the engine reports an error: the same answer. *)
Lemma C3_witness :
  (handle_ok w_open 0 P0
   ∧ short K0
   ∧ binding w_open P0 K0 = None
   ∧ ∃ w', store_bdb_fetch no_fault no_leftover (Some 0) K0 (length K0) 7
             w_open
           = Some ((PNull, 0), w'))
  ∧ (handle_ok w_stored 0 P0
     ∧ binding w_stored P0 K0 = Some V0
     ∧ fault_get (CallGet K0) ≠ 0%Z
     ∧ no_leftover K0 = None
     ∧ ∃ w', store_bdb_fetch fault_get no_leftover (Some 0) K0 (length K0) 7
               w_stored
             = Some ((PNull, 0), w')).
Proof.
  split.
  - split; [exact handle_ok_w_open|]. split; [vm_compute; reflexivity|].
    split; [vm_compute; reflexivity|].
    apply (C3_fetch_miss_and_error_alike no_fault no_leftover w_open 0 P0 K0 7
             handle_ok_w_open); [vm_compute; reflexivity|reflexivity|].
    left. vm_compute; reflexivity.
  - split; [exact handle_ok_w_stored|]. split; [vm_compute; reflexivity|].
    split; [discriminate|]. split; [reflexivity|].
    apply (C3_fetch_miss_and_error_alike fault_get no_leftover w_stored 0 P0
             K0 7 handle_ok_w_stored); [vm_compute; reflexivity|reflexivity|].
    right. discriminate.
Defined.

(** ** C4: close *)

(** C4. Closing an open handle is defined and sets the caller's pointer
    to null.  It calls, in this order and nothing else: close of the
    database object, close of the environment, unlock of the
    descriptor, close of the descriptor, unlink of the sidecar; the
    objects were acquired in the opposite order.  Afterwards the
    sidecar does not exist, the descriptor, the environment and the
    database object are gone, the context and its lock-file buffer are
    freed, and the database file keeps its contents. *)
Theorem C4_close_releases_in_reverse_order (w : World) (h : nat)
    (path : string) :
  handle_ok w h path →
  ∃ (e d fd b : nat) (c : StoreDbCtx) (w' : World),
    heap w !! h = Some (BCtx c)
    ∧ ctx_env c = Some e ∧ ctx_db c = Some d ∧ ctx_fd c = Z.of_nat fd
    ∧ buf_data (ctx_lockfile c) = Some b
    ∧ store_bdb_close (Some (Some h)) w = Some (Some None, w')
    ∧ trace w' = trace w ++ [EDbClose d; EEnvClose e;
                             EFileUnlock (Z.of_nat fd);
                             EClose (Z.of_nat fd);
                             EUnlink (lockfile_of path)]
    ∧ dbs w' = delete d (dbs w)
    ∧ envs w' = delete e (envs w)
    ∧ fdtab w' = delete fd (fdtab w)
    ∧ files w' = delete (lockfile_of path) (files w)
    ∧ heap w' = delete h (delete b (heap w))
    ∧ files w' !! lockfile_of path = None
    ∧ contents w' path = contents w path.
Proof.
  intros Hok.
  destruct (store_bdb_close_eq w h path Hok)
    as (e & d & fd & b & c & Hh & He & Hd & Hfd & Hb & _ & _ & _ & _ & Heq).
  exists e, d, fd, b, c. eexists. do 5 (split; [done|]).
  split; [exact Heq|]. unfold torn_down, contents. wsimpl.
  repeat split; try reflexivity.
  - apply lookup_delete_eq.
  - by rewrite lookup_delete_ne by apply lockfile_of_ne.
Qed.

Lemma C4_witness :
  handle_ok w_stored 0 P0
  ∧ store_bdb_close (Some (Some 0)) w_stored = Some (Some None, w_closed)
  ∧ files w_closed !! lockfile_of P0 = None
  ∧ heap w_closed = ∅
  ∧ ∃ (e d fd b : nat) (c : StoreDbCtx) (w' : World),
      heap w_stored !! 0 = Some (BCtx c)
      ∧ ctx_env c = Some e ∧ ctx_db c = Some d ∧ ctx_fd c = Z.of_nat fd
      ∧ buf_data (ctx_lockfile c) = Some b
      ∧ store_bdb_close (Some (Some 0)) w_stored = Some (Some None, w')
      ∧ trace w' = trace w_stored ++ [EDbClose d; EEnvClose e;
                                      EFileUnlock (Z.of_nat fd);
                                      EClose (Z.of_nat fd);
                                      EUnlink (lockfile_of P0)]
      ∧ dbs w' = delete d (dbs w_stored)
      ∧ envs w' = delete e (envs w_stored)
      ∧ fdtab w' = delete fd (fdtab w_stored)
      ∧ files w' = delete (lockfile_of P0) (files w_stored)
      ∧ heap w' = delete 0 (delete b (heap w_stored))
      ∧ files w' !! lockfile_of P0 = None
      ∧ contents w' P0 = contents w_stored P0.
Proof.
  split; [exact handle_ok_w_stored|].
  split; [vm_compute; reflexivity|].
  split; [vm_compute; reflexivity|]. split; [vm_compute; reflexivity|].
  apply (C4_close_releases_in_reverse_order w_stored 0 P0 handle_ok_w_stored).
Defined.

(** ** C5: overwrite *)

(** A value that does not fit replaces the old one by its cut, not by
    itself. *)
Lemma overwrite_fails_when_long w h path K V2 :
  handle_ok w h path → short K → ¬ short V2 → ¬ overwrite_holds w h path K V2.
Proof.
  intros Hok HK HV Hclaim.
  destruct (store_defined no_fault w h path K V2 Hok eq_refl) as [w1 Hst].
  specialize (Hclaim w1 Hst).
  destruct (store_success _ _ _ _ _ _ _ Hok Hst) as (_ & Hb1 & _).
  rewrite (cut_short K) in Hb1 by done. rewrite Hclaim in Hb1.
  injection Hb1 as Hcut. apply HV. rewrite Hcut. apply short_cut.
Qed.

(** With [K0] bound to [V0], a store of a value of [2^32 + 2] bytes
    under [K0] succeeds and binds [K0] to two bytes. *)
Lemma C5_counterexample : ¬ overwrite_holds w_stored 0 P0 K0 V_huge.
Proof.
  apply (overwrite_fails_when_long w_stored 0 P0 K0 V_huge handle_ok_w_stored).
  - vm_compute; reflexivity.
  - unfold short. rewrite V_huge_length. lia.
Qed.

(** C5 (amended). On an open handle with [K] bound to [V1], a store
    under [K] of a value [V2] shorter than [2^32] bytes succeeds
    whenever the engine accepts the write, whatever [V1] is; after a
    successful store [K] is bound to [V2] and to nothing else, the
    other keys are bound as before, and every fetch of [K] during which
    the engine's lookup does not fail returns [V2] (in the sense of
    [fetch_returns]) and leaves the handle open and that binding in
    place, so that the same holds of the fetch after it. *)
Theorem C5_store_overwrites (fault_s : Call → Z) (w : World) (h : nat)
    (path : string) (K V1 V2 : list byte) :
  handle_ok w h path →
  binding w path K = Some V1 →
  short V2 →
  (fault_s (CallPut K V2) = 0%Z →
   ∃ w1, store_bdb_store fault_s (Some h) K (length K) V2 (length V2) w
         = Some (0%Z, w1))
  ∧ ∀ w1,
      store_bdb_store fault_s (Some h) K (length K) V2 (length V2) w
      = Some (0%Z, w1) →
      handle_ok w1 h path
      ∧ binding w1 path K = Some V2
      ∧ (∀ K', K' ≠ K → binding w1 path K' = binding w path K')
      ∧ ∀ (fault_f : Call → Z) (leftover_f : Leftover)
          (vlen : nat),
          fault_f (CallGet K) = 0%Z →
          ∃ w2,
            fetch_returns fault_f leftover_f h K vlen w1 V2 w2
            ∧ handle_ok w2 h path
            ∧ binding w2 path K = Some V2.
Proof.
  intros Hok Hb HV. pose proof (binding_short _ _ _ _ Hb) as HK.
  split.
  { intros Hz. apply store_defined with path; [done|].
    by rewrite !cut_short. }
  intros w1 Hst.
  destruct (store_success _ _ _ _ _ _ _ Hok Hst) as (Hok1 & Hb1 & Hframe).
  rewrite (cut_short K), (cut_short V2) in Hb1 by done.
  rewrite (cut_short K) in Hframe by done.
  do 3 (split; [done|]). intros fault_f leftover_f vlen Hf.
  destruct (fetch_found fault_f leftover_f w1 h path K V2 vlen Hok1)
    as (w2 & Hret & Hok2 & Hfiles); rewrite ?cut_short by done; try done.
  exists w2. do 2 (split; [done|]).
  unfold binding, contents in *. by rewrite Hfiles.
Qed.

Lemma C5_witness :
  handle_ok w_stored 0 P0
  ∧ binding w_stored P0 K0 = Some V0
  ∧ short V1
  ∧ store_bdb_store no_fault (Some 0) K0 (length K0) V1 (length V1) w_stored
    = Some (0%Z, w_overwritten)
  ∧ binding w_overwritten P0 K0 = Some V1
  ∧ fst <$> store_bdb_fetch no_fault no_leftover (Some 0) K0 (length K0) 0
              w_overwritten
    = Some (PHeap 2, 2)
  ∧ ((no_fault (CallPut K0 V1) = 0%Z →
      ∃ w1, store_bdb_store no_fault (Some 0) K0 (length K0) V1 (length V1)
              w_stored = Some (0%Z, w1))
     ∧ ∀ w1,
         store_bdb_store no_fault (Some 0) K0 (length K0) V1 (length V1)
           w_stored = Some (0%Z, w1) →
         handle_ok w1 0 P0
         ∧ binding w1 P0 K0 = Some V1
         ∧ (∀ K', K' ≠ K0 → binding w1 P0 K' = binding w_stored P0 K')
         ∧ ∀ (fault_f : Call → Z)
             (leftover_f : Leftover) (vlen : nat),
             fault_f (CallGet K0) = 0%Z →
             ∃ w2,
               fetch_returns fault_f leftover_f 0 K0 vlen w1 V1 w2
               ∧ handle_ok w2 0 P0
               ∧ binding w2 P0 K0 = Some V1).
Proof.
  split; [exact handle_ok_w_stored|].
  do 5 (split; [vm_compute; reflexivity|]).
  apply (C5_store_overwrites no_fault w_stored 0 P0 K0 V0 V1
           handle_ok_w_stored); vm_compute; reflexivity.
Defined.

(** ** C6: delete, then fetch *)

(** C6. On an open handle, once a delete of a bound key has succeeded,
    the key is not bound, and a fetch of that key is defined whatever
    its conditions and reports not-found (null pointer, length zero):
    always when the engine's lookup does not fail, and also when it
    fails, unless the failing lookup left something in the [DBT]. *)
Theorem C6_delete_then_fetch (fault_d fault_f : Call → Z)
    (leftover_f : Leftover) (w w1 : World)
    (h : nat) (path : string) (K V : list byte) (vlen : nat) :
  handle_ok w h path →
  binding w path K = Some V →
  store_bdb_delete_record fault_d (Some h) K (length K) w = Some (0%Z, w1) →
  binding w1 path K = None
  ∧ handle_ok w1 h path
  ∧ ∃ r w2,
      store_bdb_fetch fault_f leftover_f (Some h) K (length K) vlen w1
      = Some (r, w2)
      ∧ (fault_f (CallGet K) = 0%Z ∨ leftover_f K = None → r = (PNull, 0)).
Proof.
  intros Hok Hb Hdel. pose proof (binding_short _ _ _ _ Hb) as HK.
  destruct (delete_success _ _ _ _ _ _ Hok Hdel) as (Hok1 & _ & Hb1 & _).
  rewrite (cut_short K) in Hb1 by done.
  split; [done|]. split; [done|].
  destruct (handle_fetch fault_f leftover_f w1 h path K vlen Hok1)
    as (d & m & Hm & Heq).
  destruct (fetch_result fault_f leftover_f w1 d m (cut (length K) K))
    as [r w2].
  exists r, w2. split; [exact Heq|]. intros Hcase.
  destruct (fetch_not_found fault_f leftover_f w1 h path K vlen Hok1)
    as (w2' & Heq'); rewrite ?cut_short by done.
  - intros Hf. by destruct Hcase.
  - by left.
  - rewrite Heq in Heq'. by injection Heq' as ->.
Qed.

Lemma C6_witness :
  handle_ok w_stored 0 P0
  ∧ binding w_stored P0 K0 = Some V0
  ∧ store_bdb_delete_record no_fault (Some 0) K0 (length K0) w_stored
    = Some (0%Z, w_deleted)
  ∧ store_bdb_fetch fault_get no_leftover (Some 0) K0 (length K0) 3 w_deleted
    = Some ((PNull, 0),
            after (store_bdb_fetch fault_get no_leftover (Some 0) K0
                     (length K0) 3) w_deleted)
  ∧ binding w_deleted P0 K0 = None
  ∧ handle_ok w_deleted 0 P0
  ∧ ∃ r w2,
      store_bdb_fetch no_fault no_leftover (Some 0) K0 (length K0) 3 w_deleted
      = Some (r, w2)
      ∧ (no_fault (CallGet K0) = 0%Z ∨ no_leftover K0 = None
         → r = (PNull, 0)).
Proof.
  split; [exact handle_ok_w_stored|]. split; [vm_compute; reflexivity|].
  split; [vm_compute; reflexivity|]. split; [vm_compute; reflexivity|].
  apply (C6_delete_then_fetch no_fault no_fault no_leftover w_stored w_deleted
           0 P0 K0 V0 3 handle_ok_w_stored); vm_compute; reflexivity.
Defined.

(** ** C7: deleting a key that is not bound *)

(** A key that does not fit is not bound; the delete through it
    removes the record of the bytes the engine is given and returns
    [0]. *)
Lemma absent_delete_through_long_key w h path K V :
  handle_ok w h path →
  ¬ short K →
  binding w path (cut (length K) K) = Some V →
  ¬ absent_delete_refused w h path K.
Proof.
  intros Hok HK Hb Hclaim.
  destruct Hclaim as (rc & w1 & Hdel & Hrc & _).
  { unfold binding. destruct (contents w path); [|done].
    by rewrite decide_False. }
  apply Hrc. clear Hrc.
  destruct (handle_delete no_fault w h path K Hok)
    as (d & ps & m & Hm & _ & Heq).
  rewrite (binding_lookup _ _ _ _ Hm (short_cut _ _)) in Hb.
  rewrite Heq in Hdel. unfold delete_result in Hdel.
  rewrite Hb, decide_True in Hdel by reflexivity.
  by injection Hdel as <- _.
Qed.

(** A key of [2^32 + 3] bytes is not bound; the delete through it
    removes the record of its first three bytes and returns [0]. *)
Lemma C7_counterexample : ¬ absent_delete_refused w_abc 0 P0 K_huge.
Proof.
  apply (absent_delete_through_long_key w_abc 0 P0 K_huge V0 handle_ok_w_abc).
  - unfold short. rewrite K_huge_length. lia.
  - rewrite K_huge_cut. vm_compute; reflexivity.
Qed.

(** C7 (amended). On an open handle, a delete of a key shorter than
    [2^32] bytes that is not bound is defined and returns the engine's
    code, which is not zero ([DB_NOTFOUND], or the code of the failure
    the call met); the file system, and with it every binding of the
    store, is what it was, and the handle stays open. *)
Theorem C7_delete_absent_key (fault : Call → Z) (w : World) (h : nat)
    (path : string) (K : list byte) :
  handle_ok w h path →
  short K →
  binding w path K = None →
  ∃ rc w1,
    store_bdb_delete_record fault (Some h) K (length K) w = Some (rc, w1)
    ∧ rc ≠ 0%Z
    ∧ rc = (if decide (fault (CallDel K) = 0%Z) then DB_NOTFOUND
            else fault (CallDel K))
    ∧ files w1 = files w
    ∧ contents w1 path = contents w path
    ∧ (∀ K', binding w1 path K' = binding w path K')
    ∧ handle_ok w1 h path.
Proof.
  intros Hok HK Hb.
  destruct (delete_refused fault w h path K Hok)
    as (rc & w1 & Heq & Hrc & Hcode & Hfiles & Hok1);
    rewrite ?cut_short by done; [by left|].
  rewrite cut_short in Hcode by done.
  exists rc, w1. do 4 (split; [done|]).
  unfold binding, contents. rewrite Hfiles. done.
Qed.

Lemma C7_witness :
  handle_ok w_open 0 P0
  ∧ short K0
  ∧ binding w_open P0 K0 = None
  ∧ ∃ rc w1,
      store_bdb_delete_record no_fault (Some 0) K0 (length K0) w_open
      = Some (rc, w1)
      ∧ rc ≠ 0%Z
      ∧ rc = (if decide (no_fault (CallDel K0) = 0%Z) then DB_NOTFOUND
              else no_fault (CallDel K0))
      ∧ files w1 = files w_open
      ∧ contents w1 P0 = contents w_open P0
      ∧ (∀ K', binding w1 P0 K' = binding w_open P0 K')
      ∧ handle_ok w1 0 P0.
Proof.
  split; [exact handle_ok_w_open|]. split; [vm_compute; reflexivity|].
  split; [vm_compute; reflexivity|].
  apply (C7_delete_absent_key no_fault w_open 0 P0 K0 handle_ok_w_open);
    vm_compute; reflexivity.
Defined.

(** ** C8: failure of the lock guard *)

(** When the sidecar can be opened but the lock cannot be obtained,
    open closes the descriptor and unlinks the sidecar. *)
Lemma C8_counterexample :
  ¬ acquire_failure_without_cleanup fault_lock P0 world0.
Proof.
  intros Hclaim. destruct Hclaim as (w' & Heq & Hnone).
  { right. intros fd. discriminate. }
  vm_compute in Heq. injection Heq as <-.
  specialize (Hnone (EClose 0)).
  assert (is_release (EClose 0) = false) as Hrel; [|discriminate Hrel].
  apply Hnone. unfold new_events. cbn [trace length drop].
  apply list_elem_of_In. simpl. auto.
Qed.

(** C8 (amended). When the lock guard cannot be acquired, open is
    defined and returns no handle.  If the sidecar could not be created
    or opened, the only call made is that [open]: nothing was acquired,
    no call gives anything back, files and descriptors are untouched.
    If the sidecar was opened and the lock could not be obtained, the
    descriptor is closed and the sidecar is unlinked (without an
    unlock), and the world is otherwise as before the open. *)
Theorem C8_lock_guard_failure (fault : Call → Z) (path : string) (w : World) :
  acquire_fails fault path →
  ∃ w',
    store_bdb_open fault (Some path) w = Some (None, w')
    ∧ ((fault (CallOpen (lockfile_of path)) ≠ 0%Z
        ∧ new_events w w' = [EOpen (lockfile_of path) (-1)]
        ∧ files w' = files w ∧ fdtab w' = fdtab w)
       ∨ (fault (CallOpen (lockfile_of path)) = 0%Z
          ∧ ∃ fd,
              fdtab w !! fd = None
              ∧ new_events w w'
                = [EOpen (lockfile_of path) (Z.of_nat fd);
                   EFileLock (Z.of_nat fd) (-1);
                   EClose (Z.of_nat fd); EUnlink (lockfile_of path)]
              ∧ w' = released w (lockfile_of path) (new_events w w'))).
Proof.
  intros Hfail.
  destruct (store_bdb_open_defined fault path w) as (r & w' & Heq & Hout).
  assert (∀ evs, drop (length (trace w)) (trace w ++ evs) = evs) as Hdrop
    by (intros; by rewrite drop_app_length).
  inversion Hout; subst;
    try (exfalso; destruct Hfail as [Hfail|Hfail];
         [done|by eapply Hfail]).
  - eexists. split; [exact Heq|]. left.
    unfold new_events. wsimpl. by rewrite Hdrop.
  - eexists. split; [exact Heq|]. right. split; [done|].
    exists fd. unfold new_events, released. wsimpl. by rewrite !Hdrop.
Qed.

Lemma C8_witness :
  acquire_fails fault_lock P0
  ∧ ∃ w',
      store_bdb_open fault_lock (Some P0) world0 = Some (None, w')
      ∧ ((fault_lock (CallOpen (lockfile_of P0)) ≠ 0%Z
          ∧ new_events world0 w' = [EOpen (lockfile_of P0) (-1)]
          ∧ files w' = files world0 ∧ fdtab w' = fdtab world0)
         ∨ (fault_lock (CallOpen (lockfile_of P0)) = 0%Z
            ∧ ∃ fd,
                fdtab world0 !! fd = None
                ∧ new_events world0 w'
                  = [EOpen (lockfile_of P0) (Z.of_nat fd);
                     EFileLock (Z.of_nat fd) (-1);
                     EClose (Z.of_nat fd); EUnlink (lockfile_of P0)]
                ∧ w' = released world0 (lockfile_of P0)
                         (new_events world0 w'))).
Proof.
  assert (acquire_fails fault_lock P0) as Hfail
    by (right; intros fd; discriminate).
  split; [exact Hfail|].
  exact (C8_lock_guard_failure fault_lock P0 world0 Hfail).
Defined.

(** ** C10: operations on a null handle *)

(** C10. Every operation given a null handle fails without touching the
    world: close on a null pointer to a handle and on a pointer to a
    null handle does nothing, fetch returns the null pointer (and leaves
    [*vlen] alone), store and delete return [-1], and open on a null
    path returns no handle; no file is created, no call is logged. *)
Theorem C10_null_handle (fault : Call → Z)
    (leftover : Leftover) (w : World)
    (key value : list byte) (klen vlen : nat) :
  store_bdb_close None w = Some (None, w)
  ∧ store_bdb_close (Some None) w = Some (Some None, w)
  ∧ store_bdb_fetch fault leftover None key klen vlen w
    = Some ((PNull, vlen), w)
  ∧ store_bdb_store fault None key klen value vlen w = Some ((-1)%Z, w)
  ∧ store_bdb_delete_record fault None key klen w = Some ((-1)%Z, w)
  ∧ store_bdb_open fault None w = Some (None, w).
Proof. repeat split. Qed.

(** * Further properties of the backend *)

(** ** Opening *)

(** X1. When no external call fails and the file at the path is absent
    or a database, open returns an open handle and the sidecar exists.
    A database file that was absent is created empty with page size
    512, the open being asked to create it exclusively; a file that was
    there is opened as it is, without exclusive creation and without a
    page size being set.  The same holds of a file of length zero at
    the path, which the open makes an empty database. *)
Theorem open_succeeds_when_nothing_fails (fault : Call → Z) (path : string)
    (w : World) :
  (∀ c, fault c = 0%Z) →
  files w !! path ≠ Some FPlain →
  ∃ h d w',
    store_bdb_open fault (Some path) w = Some (Some h, w')
    ∧ handle_ok w' h path
    ∧ is_Some (files w' !! lockfile_of path)
    ∧ match files w !! path with
      | None =>
          files w' !! path = Some (FDb 512 ∅)
          ∧ [EStat path (-1); ESetPagesize d 512;
             EDbOpen d path (Z.lor DB_CREATE DB_EXCL) 0]
            `suffix_of` new_events w w'
      | Some FEmpty =>
          (∃ ps, files w' !! path = Some (FDb ps ∅))
          ∧ [EDbCreate 0; EStat path 0; EDbOpen d path DB_CREATE 0]
            `suffix_of` new_events w w'
      | Some f =>
          files w' !! path = Some f
          ∧ [EDbCreate 0; EStat path 0; EDbOpen d path DB_CREATE 0]
            `suffix_of` new_events w w'
      end.
Proof.
  intros Hnone Hfile.
  destruct (store_bdb_open_defined fault path w) as (r & w' & Heq & Hout).
  pose proof Hout as Hout'.
  inversion Hout; subst;
    try (match goal with H : _ ≠ 0%Z |- _ => by rewrite Hnone in H end).
  - match goal with H : _ ∨ _ |- _ => destruct H as [H|(_ & H & _)] end;
      [by rewrite Hnone in *; subst|done].
  - exists h, d. eexists. split; [exact Heq|].
    destruct (open_outcome_handle_ok _ _ _ _ _ Hout') as (Hok & _ & _).
    split; [exact Hok|]. unfold new_events, probe_events, probe_flags. wsimpl.
    rewrite drop_app_length.
    split.
    { rewrite lookup_insert_ne by (symmetry; apply lockfile_of_ne).
      rewrite lookup_insert_eq. eauto. }
    rewrite lookup_insert_eq.
    destruct (files w !! path) as [[| |ps m]|]; simpl; try done;
      (split; [eauto|]).
    + by eexists [_; _; _; _].
    + by eexists [_; _; _; _].
    + by eexists [_; _; _; _; _].
Qed.

Lemma open_succeeds_when_nothing_fails_witness :
  (∀ c, no_fault c = 0%Z)
  ∧ files world0 !! P0 ≠ Some FPlain
  ∧ store_bdb_open no_fault (Some P0) world0 = Some (Some 0, w_open)
  ∧ ∃ h d w',
      store_bdb_open no_fault (Some P0) world0 = Some (Some h, w')
      ∧ handle_ok w' h P0
      ∧ is_Some (files w' !! lockfile_of P0)
      ∧ match files world0 !! P0 with
        | None =>
            files w' !! P0 = Some (FDb 512 ∅)
            ∧ [EStat P0 (-1); ESetPagesize d 512;
               EDbOpen d P0 (Z.lor DB_CREATE DB_EXCL) 0]
              `suffix_of` new_events world0 w'
        | Some FEmpty =>
            (∃ ps, files w' !! P0 = Some (FDb ps ∅))
            ∧ [EDbCreate 0; EStat P0 0; EDbOpen d P0 DB_CREATE 0]
              `suffix_of` new_events world0 w'
        | Some f =>
            files w' !! P0 = Some f
            ∧ [EDbCreate 0; EStat P0 0; EDbOpen d P0 DB_CREATE 0]
              `suffix_of` new_events world0 w'
        end.
Proof.
  assert (∀ c, no_fault c = 0%Z) as Hnone by reflexivity.
  assert (files world0 !! P0 ≠ Some FPlain) as Hfile by discriminate.
  split; [exact Hnone|]. split; [exact Hfile|].
  split; [vm_compute; reflexivity|].
  exact (open_succeeds_when_nothing_fails no_fault P0 world0 Hnone Hfile).
Defined.

(** X2. Open never returns a half-built handle.  A handle it returns is
    open, its context was not allocated before, and every one of the
    six steps of the open succeeded; whatever existed before is
    untouched: descriptors, environments, database objects and heap
    blocks keep their state, a sidecar that was already there is kept
    as it was, and no file other than the sidecar and the database file
    changes.  A database at the path is kept as it is; a file of length
    zero at the path is made an empty database; a file that holds
    something else is never opened. *)
Theorem open_returns_only_open_handles (fault : Call → Z) (path : string)
    (w w' : World) (h : nat) :
  store_bdb_open fault (Some path) w = Some (Some h, w') →
  handle_ok w' h path
  ∧ heap w !! h = None
  ∧ (fault (CallOpen (lockfile_of path)) = 0%Z
     ∧ (∃ fd, fdtab w !! fd = None ∧ fault (CallLock (Z.of_nat fd)) = 0%Z)
     ∧ fault CallEnvCreate = 0%Z ∧ fault CallEnvOpen = 0%Z
     ∧ fault CallDbCreate = 0%Z ∧ fault (CallDbOpen path) = 0%Z
     ∧ files w !! path ≠ Some FPlain)
  ∧ (∀ fd x, fdtab w !! fd = Some x → fdtab w' !! fd = Some x)
  ∧ (∀ e x, envs w !! e = Some x → envs w' !! e = Some x)
  ∧ (∀ d x, dbs w !! d = Some x → dbs w' !! d = Some x)
  ∧ (∀ l x, heap w !! l = Some x → heap w' !! l = Some x)
  ∧ (∀ p x, files w !! p = Some x → (p = path → x ≠ FEmpty) →
            files w' !! p = Some x)
  ∧ (files w !! path = Some FEmpty →
     ∃ ps, files w' !! path = Some (FDb ps ∅))
  ∧ (∀ p, p ≠ path → p ≠ lockfile_of path → files w' !! p = files w !! p).
Proof.
  intros Hopen. pose proof (store_bdb_open_inv _ _ _ _ _ Hopen) as Hout.
  destruct (open_outcome_handle_ok _ _ _ _ _ Hout) as (Hok & Hh & _).
  do 2 (split; [done|]).
  inversion Hout; subst. split; [eauto 10|]. wsimpl.
  assert (∀ {A} (m : gmap nat A) i j x y,
            m !! i = None → m !! j = Some x → <[i := y]> m !! j = Some x)
    as Hkeep.
  { intros A m i j x y Hi Hj. rewrite lookup_insert_ne; [done|congruence]. }
  split; [intros; by apply Hkeep|]. split; [intros; by apply Hkeep|].
  split; [intros; by apply Hkeep|].
  split; [intros; rewrite lookup_insert_ne by congruence; by apply Hkeep|].
  split; [|split].
  - intros p x Hp Hx.
    destruct (decide (path = p)) as [->|Hne1].
    { rewrite lookup_insert_eq, Hp. specialize (Hx eq_refl).
      by destruct x. }
    rewrite lookup_insert_ne by done.
    destruct (decide (lockfile_of path = p)) as [<-|Hne2].
    { by rewrite lookup_insert_eq, Hp. }
    by rewrite lookup_insert_ne.
  - intros Hp. rewrite lookup_insert_eq, Hp. simpl. eauto.
  - intros p Hne1 Hne2. by rewrite !lookup_insert_ne.
Qed.

Lemma open_returns_only_open_handles_witness :
  store_bdb_open no_fault (Some P0) w_closed = Some (Some 0, w_reopened)
  ∧ binding w_reopened P0 K0 = Some V0
  ∧ files w_empty !! P0 = Some FEmpty
  ∧ contents (after (store_bdb_open no_fault (Some P0)) w_empty) P0 = Some ∅
  ∧ handle_ok w_reopened 0 P0
  ∧ heap w_closed !! 0 = None
  ∧ (no_fault (CallOpen (lockfile_of P0)) = 0%Z
     ∧ (∃ fd, fdtab w_closed !! fd = None
              ∧ no_fault (CallLock (Z.of_nat fd)) = 0%Z)
     ∧ no_fault CallEnvCreate = 0%Z ∧ no_fault CallEnvOpen = 0%Z
     ∧ no_fault CallDbCreate = 0%Z ∧ no_fault (CallDbOpen P0) = 0%Z
     ∧ files w_closed !! P0 ≠ Some FPlain)
  ∧ (∀ fd x, fdtab w_closed !! fd = Some x → fdtab w_reopened !! fd = Some x)
  ∧ (∀ e x, envs w_closed !! e = Some x → envs w_reopened !! e = Some x)
  ∧ (∀ d x, dbs w_closed !! d = Some x → dbs w_reopened !! d = Some x)
  ∧ (∀ l x, heap w_closed !! l = Some x → heap w_reopened !! l = Some x)
  ∧ (∀ p x, files w_closed !! p = Some x → (p = P0 → x ≠ FEmpty) →
            files w_reopened !! p = Some x)
  ∧ (files w_closed !! P0 = Some FEmpty →
     ∃ ps, files w_reopened !! P0 = Some (FDb ps ∅))
  ∧ (∀ p, p ≠ P0 → p ≠ lockfile_of P0 →
          files w_reopened !! p = files w_closed !! p).
Proof.
  do 4 (split; [vm_compute; reflexivity|]).
  apply (open_returns_only_open_handles no_fault P0 w_closed w_reopened 0).
  vm_compute; reflexivity.
Defined.

(** X3. A file at the path that holds something other than a database
    (a file that is not of length zero and is not a database) is never
    opened, replaced or removed: open returns no handle whatever else
    happens, the file is still there as it was, and descriptors,
    environments and database objects are as before; if the sidecar
    could be opened it is unlinked again and the heap is as before. *)
Theorem open_refuses_non_database_file (fault : Call → Z) (path : string)
    (w : World) :
  files w !! path = Some FPlain →
  ∃ w',
    store_bdb_open fault (Some path) w = Some (None, w')
    ∧ files w' !! path = Some FPlain
    ∧ fdtab w' = fdtab w ∧ envs w' = envs w ∧ dbs w' = dbs w
    ∧ (fault (CallOpen (lockfile_of path)) = 0%Z →
       files w' !! lockfile_of path = None ∧ heap w' = heap w).
Proof.
  intros Hplain.
  destruct (store_bdb_open_defined fault path w) as (r & w' & Heq & Hout).
  destruct r as [h|].
  { inversion Hout; subst. done. }
  exists w'. split; [exact Heq|].
  destruct (open_failure_releases _ _ _ _ Heq) as (Hfd & He & Hd & Hp & Hrest).
  rewrite Hp. do 4 (split; [done|]).
  intros Hz. by destruct (Hrest Hz) as (_ & ? & ?).
Qed.

Lemma open_refuses_non_database_file_witness :
  files w_plain !! P0 = Some FPlain
  ∧ store_bdb_open no_fault (Some P0) w_plain
    = Some (None, after (store_bdb_open no_fault (Some P0)) w_plain)
  ∧ ∃ w',
      store_bdb_open no_fault (Some P0) w_plain = Some (None, w')
      ∧ files w' !! P0 = Some FPlain
      ∧ fdtab w' = fdtab w_plain ∧ envs w' = envs w_plain
      ∧ dbs w' = dbs w_plain
      ∧ (no_fault (CallOpen (lockfile_of P0)) = 0%Z →
         files w' !! lockfile_of P0 = None ∧ heap w' = heap w_plain).
Proof.
  assert (files w_plain !! P0 = Some FPlain) as Hplain
    by (vm_compute; reflexivity).
  split; [exact Hplain|]. split; [vm_compute; reflexivity|].
  exact (open_refuses_non_database_file no_fault P0 w_plain Hplain).
Defined.

(** ** Unwinding of a failed open *)

(** X4. A failed open unwinds exactly what it acquired, in the order of
    the cleanup ladder.  The calls of a failed open are acquisitions
    followed by releases: no release call is made before the failure,
    and after it the database object is closed if one was created, then
    the environment is closed if one was created, then the descriptor
    is unlocked if the lock was obtained, then the descriptor is closed
    and the sidecar unlinked if the sidecar was opened; nothing else is
    released and nothing that was acquired is left out. *)
Theorem failed_open_unwinds_what_it_acquired (fault : Call → Z)
    (path : string) (w w' : World) :
  store_bdb_open fault (Some path) w = Some (None, w') →
  ∃ acq fd e d,
    new_events w w' = acq ++ unwinding acq (lockfile_of path) fd e d
    ∧ (∀ ev, ev ∈ acq → is_release ev = false)
    ∧ (∀ ev, ev ∈ acq → names fd e d ev).
Proof.
  intros Hout%store_bdb_open_inv.
  assert (∀ evs, drop (length (trace w)) (trace w ++ evs) = evs) as Hdrop
    by (intros; by rewrite drop_app_length).
  assert (∀ fd : nat, (0 <=? Z.of_nat fd)%Z = true) as Hpos
    by (intros; apply Z.leb_le; lia).
  assert (∀ z : Z, z ≠ 0%Z → (z =? 0)%Z = false) as Hnz
    by (intros; by apply Z.eqb_neq).
  inversion Hout; subst; unfold new_events, released; wsimpl; rewrite Hdrop.
  - exists [EOpen (lockfile_of path) (-1)], 0%Z, 0, 0.
    split; [reflexivity|].
    split; intros ev ->%list_elem_of_singleton; simpl; [done|lia].
  - exists [EOpen (lockfile_of path) (Z.of_nat fd);
            EFileLock (Z.of_nat fd) (-1)], (Z.of_nat fd), 0, 0.
    unfold unwinding. cbn [existsb got_db got_env got_lock got_fd orb].
    rewrite Hpos. split; [reflexivity|].
    split; intros ev Hev; repeat (apply elem_of_cons in Hev as [->|Hev]);
      simpl; try done; by apply elem_of_nil in Hev.
  - exists [EOpen (lockfile_of path) (Z.of_nat fd);
            EFileLock (Z.of_nat fd) 0; EEnvCreate (fault CallEnvCreate)],
      (Z.of_nat fd), 0, 0.
    unfold unwinding. cbn [existsb got_db got_env got_lock got_fd orb].
    rewrite Hpos, Hnz by done. split; [reflexivity|].
    split; intros ev Hev; repeat (apply elem_of_cons in Hev as [->|Hev]);
      simpl; try done; by apply elem_of_nil in Hev.
  - exists [EOpen (lockfile_of path) (Z.of_nat fd);
            EFileLock (Z.of_nat fd) 0; EEnvCreate 0;
            EEnvOpen e (fault CallEnvOpen)], (Z.of_nat fd), e, 0.
    unfold unwinding. cbn [existsb got_db got_env got_lock got_fd orb].
    rewrite Hpos. split; [reflexivity|].
    split; intros ev Hev; repeat (apply elem_of_cons in Hev as [->|Hev]);
      simpl; try done; by apply elem_of_nil in Hev.
  - exists [EOpen (lockfile_of path) (Z.of_nat fd);
            EFileLock (Z.of_nat fd) 0; EEnvCreate 0; EEnvOpen e 0;
            EDbCreate (fault CallDbCreate)], (Z.of_nat fd), e, 0.
    unfold unwinding. cbn [existsb got_db got_env got_lock got_fd orb].
    rewrite Hpos, Hnz by done. split; [reflexivity|].
    split; intros ev Hev; repeat (apply elem_of_cons in Hev as [->|Hev]);
      simpl; try done; by apply elem_of_nil in Hev.
  - exists ([EOpen (lockfile_of path) (Z.of_nat fd);
             EFileLock (Z.of_nat fd) 0; EEnvCreate 0; EEnvOpen e 0;
             EDbCreate 0]
            ++ probe_events w path d
            ++ [EDbOpen d path (probe_flags w path) rc]), (Z.of_nat fd), e, d.
    unfold unwinding, probe_events.
    destruct (files w !! path) as [f|];
      cbn [existsb got_db got_env got_lock got_fd orb app];
      rewrite Hpos; (split; [reflexivity|]);
      (split; intros ev Hev;
       repeat (apply elem_of_cons in Hev as [->|Hev]);
       simpl; try done; by apply elem_of_nil in Hev).
Qed.

Lemma failed_open_unwinds_what_it_acquired_witness :
  store_bdb_open fault_dbopen (Some P0) world0
  = Some (None, after (store_bdb_open fault_dbopen (Some P0)) world0)
  ∧ new_events world0 (after (store_bdb_open fault_dbopen (Some P0)) world0)
    = [EOpen (lockfile_of P0) 0; EFileLock 0 0; EEnvCreate 0; EEnvOpen 0 0;
       EDbCreate 0; EStat P0 (-1); ESetPagesize 0 512;
       EDbOpen 0 P0 (Z.lor DB_CREATE DB_EXCL) 5;
       EDbClose 0; EEnvClose 0; EFileUnlock 0; EClose 0;
       EUnlink (lockfile_of P0)]
  ∧ ∃ acq fd e d,
      new_events world0 (after (store_bdb_open fault_dbopen (Some P0)) world0)
      = acq ++ unwinding acq (lockfile_of P0) fd e d
      ∧ (∀ ev, ev ∈ acq → is_release ev = false)
      ∧ (∀ ev, ev ∈ acq → names fd e d ev).
Proof.
  split; [vm_compute; reflexivity|]. split; [vm_compute; reflexivity|].
  apply (failed_open_unwinds_what_it_acquired fault_dbopen P0 world0).
  vm_compute; reflexivity.
Defined.

(** ** Open and close, allocation and release *)

(** X5. Opening a store and closing it again leaks nothing.  After a
    successful open, the close of the returned handle is defined and
    leaves null in the caller's variable; the descriptor table, the
    environments, the database objects and the heap are exactly what
    they were before the open; the sidecar does not exist; the database
    file exists, with the contents it had before or empty when the open
    created it; no other file is touched. *)
Theorem open_close_restores_resources (fault : Call → Z) (path : string)
    (w w1 : World) (h : nat) :
  store_bdb_open fault (Some path) w = Some (Some h, w1) →
  ∃ w2,
    store_bdb_close (Some (Some h)) w1 = Some (Some None, w2)
    ∧ fdtab w2 = fdtab w ∧ envs w2 = envs w ∧ dbs w2 = dbs w
    ∧ heap w2 = heap w
    ∧ files w2 !! lockfile_of path = None
    ∧ contents w2 path = Some (default ∅ (contents w path))
    ∧ ∀ p, p ≠ path → p ≠ lockfile_of path → files w2 !! p = files w !! p.
Proof.
  intros Hout%store_bdb_open_inv.
  pose proof (open_outcome_handle_ok _ _ _ _ _ Hout) as (Hok & _ & Hc).
  destruct (store_bdb_close_eq w1 h path Hok)
    as (e' & d' & fd' & b' & c & Hh & He & Hd & Hfd & Hb & _ & _ & _ & _ & Heq).
  eexists. split; [exact Heq|]. clear Heq.
  unfold contents in *. unfold torn_down.
  inversion Hout; subst. wsimpl.
  rewrite lookup_insert_eq in Hh. injection Hh as <-. wsimpl.
  injection He as <-. injection Hd as <-. injection Hb as <-.
  apply Nat2Z.inj in Hfd as <-.
  split; [by apply delete_insert_id|]. split; [by apply delete_insert_id|].
  split; [by apply delete_insert_id|].
  split.
  { rewrite delete_insert_ne by congruence.
    rewrite (delete_insert_id (heap w) b) by done.
    by apply delete_insert_id. }
  split; [apply lookup_delete_eq|].
  split.
  { rewrite lookup_delete_ne by apply lockfile_of_ne. exact Hc. }
  intros p Hp Hlf.
  rewrite lookup_delete_ne by done.
  by rewrite !lookup_insert_ne by done.
Qed.

Lemma open_close_restores_resources_witness :
  store_bdb_open no_fault (Some P0) w_closed = Some (Some 0, w_reopened)
  ∧ ∃ w2,
      store_bdb_close (Some (Some 0)) w_reopened = Some (Some None, w2)
      ∧ fdtab w2 = fdtab w_closed ∧ envs w2 = envs w_closed
      ∧ dbs w2 = dbs w_closed ∧ heap w2 = heap w_closed
      ∧ files w2 !! lockfile_of P0 = None
      ∧ contents w2 P0 = Some (default ∅ (contents w_closed P0))
      ∧ ∀ p, p ≠ P0 → p ≠ lockfile_of P0 →
             files w2 !! p = files w_closed !! p.
Proof.
  split; [vm_compute; reflexivity|].
  apply (open_close_restores_resources no_fault P0 w_closed w_reopened 0).
  vm_compute; reflexivity.
Defined.

(** X6. [bdb_sdata_new] followed by [bdb_sdata_free] is the identity on
    the world: the context is allocated at an address that was free,
    together with its lock-file buffer, and freeing it releases both
    and nulls the caller's pointer, so that no block is left behind. *)
Theorem sdata_new_free_roundtrip (w : World) :
  ∃ h w1,
    bdb_sdata_new w = Some (h, w1)
    ∧ heap w !! h = None
    ∧ (∃ c b, heap w1 !! h = Some (BCtx c)
              ∧ buf_data (ctx_lockfile c) = Some b
              ∧ heap w !! b = None ∧ is_Some (heap w1 !! b))
    ∧ bdb_sdata_free (Some (Some h)) w1 = Some (Some None, w).
Proof.
  pose proof (wp_bdb_sdata_new w
    (λ h w1, heap w !! h = None
       ∧ (∃ c b, heap w1 !! h = Some (BCtx c)
                 ∧ buf_data (ctx_lockfile c) = Some b
                 ∧ heap w !! b = None ∧ is_Some (heap w1 !! b))
       ∧ bdb_sdata_free (Some (Some h)) w1 = Some (Some None, w))) as Hwp.
  apply wp_elim in Hwp as (h & w1 & Hrun & HQ); [by exists h, w1|].
  intros h b Hh Hb Hne. split; [done|]. split.
  { eexists _, b. wsimpl. rewrite lookup_insert_eq.
    split; [done|]. split; [done|]. split; [done|].
    rewrite lookup_insert_ne, lookup_insert_eq by done. eauto. }
  enough (wp (bdb_sdata_free (Some (Some h)))
            (set_heap
               (<[h := BCtx {| ctx_env := None; ctx_db := None; ctx_fd := 0;
                               ctx_lockfile := {| buf_data := Some b;
                                                  buf_dsize := 128 |} |}]>
                  (<[b := BStr ""]> (heap w))) w)
            (λ r w', r = Some None ∧ w' = w))
    as (r & w' & -> & -> & ->)%wp_elim; [done|].
  eapply wp_bdb_sdata_free.
  - wsimpl. apply lookup_insert_eq.
  - done.
  - wsimpl. rewrite lookup_insert_ne by done. apply lookup_insert_eq.
  - done.
  - split; [done|]. destruct w as [fs ft es ds hp tr]. wsimpl. f_equal.
    rewrite delete_insert_ne by congruence.
    rewrite (delete_insert_id hp b) by done.
    by apply delete_insert_id.
Qed.

(** ** Footprint of fetch, store and delete *)

(** What a fetch on an open handle does, case by case: it returns what
    the engine left in the [DBT], for the key the engine is given. *)
Lemma fetch_footprint (fault : Call → Z) (leftover : Leftover) (w : World)
    (h : nat) (path : string) (K : list byte) (vlen : nat) :
  handle_ok w h path →
  ∃ r w',
    store_bdb_fetch fault leftover (Some h) K (length K) vlen w = Some (r, w')
    ∧ files w' = files w ∧ fdtab w' = fdtab w
    ∧ envs w' = envs w ∧ dbs w' = dbs w
    ∧ ((∃ n, r = (PNull, n) ∧ heap w' = heap w)
       ∨ (∃ l V n, r = (PHeap l, n) ∧ heap w !! l = None
                   ∧ heap w' = <[l := BBytes V]> (heap w)))
    ∧ (fault (CallGet (cut (length K) K)) = 0%Z →
       match binding w path (cut (length K) K) with
       | None => r = (PNull, 0)
       | Some V =>
           ∃ l, r = (PHeap l, Z.to_nat (u32 (Z.of_nat (length V))))
                ∧ heap w' !! l = Some (BBytes V)
       end)
    ∧ (fault (CallGet (cut (length K) K)) ≠ 0%Z →
       match leftover (cut (length K) K) with
       | None => r = (PNull, 0)
       | Some (None, n) => r = (PNull, Z.to_nat (u32 n))
       | Some (Some V, n) =>
           ∃ l, r = (PHeap l, Z.to_nat (u32 n))
                ∧ heap w' !! l = Some (BBytes V)
       end).
Proof.
  intros Hok.
  destruct (handle_fetch fault leftover w h path K vlen Hok)
    as (d & m & Hm & ->).
  rewrite (binding_lookup _ _ _ _ Hm (short_cut _ _)).
  unfold fetch_result, handed_out.
  destruct (decide (fault (CallGet (cut (length K) K)) = 0%Z)) as [Hz|Hz].
  - destruct (m !! cut (length K) K) as [v|] eqn:E.
    + eexists _, _. split; [reflexivity|]. wsimpl.
      do 4 (split; [reflexivity|]).
      split; [right; eexists _, _, _; split; [done|];
              split; [apply fresh_lookup|done]|].
      split; [|done]. intros _. eexists. split; [done|].
      apply lookup_insert_eq.
    + eexists _, _. split; [reflexivity|]. wsimpl.
      do 4 (split; [reflexivity|]). split; [left; eauto|]. by split.
  - destruct (leftover (cut (length K) K)) as [[[v|] sz]|] eqn:E.
    + eexists _, _. split; [reflexivity|]. wsimpl.
      do 4 (split; [reflexivity|]).
      split; [right; eexists _, _, _; split; [done|];
              split; [apply fresh_lookup|done]|].
      split; [done|]. intros _. eexists. split; [done|].
      apply lookup_insert_eq.
    + eexists _, _. split; [reflexivity|]. wsimpl.
      do 4 (split; [reflexivity|]). split; [left; eauto|]. by split.
    + eexists _, _. split; [reflexivity|]. wsimpl.
      do 4 (split; [reflexivity|]). split; [left; eauto|]. by split.
Qed.

(** X7. A fetch on an open handle of a key shorter than [2^32] bytes is
    defined and only reads the store: files, descriptors, environments
    and database objects are as before, and the heap is as before or
    has one more block, the one returned.  The fetch returns what the
    engine left in the [DBT] and does not look at the result code of
    the lookup.  When the lookup does not fail: the null pointer and
    length zero if the key is not bound, and otherwise a block that was
    not allocated before, holding the value bound to the key, with its
    length as a 32-bit number (its length, for a value shorter than
    [2^32] bytes).  When the lookup fails: the null pointer and length
    zero if the engine left nothing behind, and otherwise the pointer
    and the length it left. *)
Theorem fetch_reads_only (fault : Call → Z) (leftover : Leftover)
    (w : World) (h : nat) (path : string) (K : list byte) (vlen : nat) :
  handle_ok w h path →
  short K →
  ∃ r w',
    store_bdb_fetch fault leftover (Some h) K (length K) vlen w = Some (r, w')
    ∧ files w' = files w ∧ fdtab w' = fdtab w
    ∧ envs w' = envs w ∧ dbs w' = dbs w
    ∧ ((∃ n, r = (PNull, n) ∧ heap w' = heap w)
       ∨ (∃ l V n, r = (PHeap l, n) ∧ heap w !! l = None
                   ∧ heap w' = <[l := BBytes V]> (heap w)))
    ∧ (fault (CallGet K) = 0%Z →
       match binding w path K with
       | None => r = (PNull, 0)
       | Some V =>
           ∃ l, r = (PHeap l, Z.to_nat (u32 (Z.of_nat (length V))))
                ∧ (short V → r = (PHeap l, length V))
                ∧ heap w' !! l = Some (BBytes V)
       end)
    ∧ (fault (CallGet K) ≠ 0%Z →
       match leftover K with
       | None => r = (PNull, 0)
       | Some (None, n) => r = (PNull, Z.to_nat (u32 n))
       | Some (Some V, n) =>
           ∃ l, r = (PHeap l, Z.to_nat (u32 n))
                ∧ heap w' !! l = Some (BBytes V)
       end).
Proof.
  intros Hok HK.
  destruct (fetch_footprint fault leftover w h path K vlen Hok)
    as (r & w' & Heq & Hf & Hfd & He & Hd & Hheap & Hhit & Hfail).
  rewrite (cut_short K) in Hhit, Hfail by done.
  exists r, w'. do 6 (split; [done|]). split; [|done].
  intros Hz. specialize (Hhit Hz).
  destruct (binding w path K) as [V|]; [|done].
  destruct Hhit as (l & -> & Hl). exists l. split; [done|]. split; [|done].
  intros HV. by rewrite u32_length_short.
Qed.

Lemma fetch_reads_only_witness :
  handle_ok w_stored 0 P0
  ∧ short K0
  ∧ store_bdb_fetch fault_get leftover_block (Some 0) K0 (length K0) 0 w_stored
    = Some ((PHeap 2, 2),
            after (store_bdb_fetch fault_get leftover_block (Some 0) K0
                     (length K0) 0) w_stored)
  ∧ store_bdb_fetch no_fault no_leftover (Some 0) K0 (length K0) 0 w_stored
    = Some ((PHeap 2, 3), w_fetched)
  ∧ ∃ r w',
      store_bdb_fetch no_fault no_leftover (Some 0) K0 (length K0) 0 w_stored
      = Some (r, w')
      ∧ files w' = files w_stored ∧ fdtab w' = fdtab w_stored
      ∧ envs w' = envs w_stored ∧ dbs w' = dbs w_stored
      ∧ ((∃ n, r = (PNull, n) ∧ heap w' = heap w_stored)
         ∨ (∃ l V n, r = (PHeap l, n) ∧ heap w_stored !! l = None
                     ∧ heap w' = <[l := BBytes V]> (heap w_stored)))
      ∧ (no_fault (CallGet K0) = 0%Z →
         match binding w_stored P0 K0 with
         | None => r = (PNull, 0)
         | Some V =>
             ∃ l, r = (PHeap l, Z.to_nat (u32 (Z.of_nat (length V))))
                  ∧ (short V → r = (PHeap l, length V))
                  ∧ heap w' !! l = Some (BBytes V)
         end)
      ∧ (no_fault (CallGet K0) ≠ 0%Z →
         match no_leftover K0 with
         | None => r = (PNull, 0)
         | Some (None, n) => r = (PNull, Z.to_nat (u32 n))
         | Some (Some V, n) =>
             ∃ l, r = (PHeap l, Z.to_nat (u32 n))
                  ∧ heap w' !! l = Some (BBytes V)
         end).
Proof.
  assert (short K0) as HK by (vm_compute; reflexivity).
  split; [exact handle_ok_w_stored|]. split; [exact HK|].
  split; [vm_compute; reflexivity|]. split; [vm_compute; reflexivity|].
  exact (fetch_reads_only no_fault no_leftover w_stored 0 P0 K0 0
           handle_ok_w_stored HK).
Defined.

(** X8. The block a fetch returned is released by [store_bdb_free],
    which sets the caller's pointer to null and leaves the heap as it
    was before the fetch; a second [store_bdb_free] through the same
    pointer, now null, does nothing.  Two fetches return two different
    blocks as long as the first is not released. *)
Theorem fetch_free_restores_heap (fault fault' : Call → Z)
    (leftover leftover' : Leftover) (w w1 : World)
    (h : nat) (path : string) (K K' : list byte) (vlen vlen' n : nat)
    (l : nat) :
  handle_ok w h path →
  store_bdb_fetch fault leftover (Some h) K (length K) vlen w
  = Some ((PHeap l, n), w1) →
  (∃ w2,
     store_bdb_free (Some h) (Some (PHeap l)) w1 = Some (Some PNull, w2)
     ∧ heap w2 = heap w ∧ files w2 = files w
     ∧ store_bdb_free (Some h) (Some PNull) w2 = Some (Some PNull, w2))
  ∧ (∀ l' n' w2,
       store_bdb_fetch fault' leftover' (Some h) K' (length K') vlen' w1
       = Some ((PHeap l', n'), w2) →
       l' ≠ l).
Proof.
  intros Hok Hfetch.
  destruct (fetch_footprint fault leftover w h path K vlen Hok)
    as (r & w' & Heq & Hfiles & _ & _ & _ & Hcase & _).
  rewrite Hfetch in Heq. injection Heq as <- <-.
  destruct Hcase as [(n0 & Hr & _)|(l0 & V & n0 & Hr & Hl & Hheap)]; [done|].
  injection Hr as -> ->.
  assert (handle_ok w1 h path) as Hok1.
  { destruct (handle_ok_preserved fault leftover w h path K [] vlen Hok)
      as (Hf & _).
    by eapply Hf. }
  split.
  - unfold store_bdb_free, free, mbind, M_bind, mret, M_ret.
    rewrite Hheap, lookup_insert_eq. eexists. split; [reflexivity|].
    wsimpl. rewrite delete_insert_eq, delete_id by done. done.
  - intros l' n' w2 Hfetch'.
    destruct (fetch_footprint fault' leftover' w1 h path K' vlen' Hok1)
      as (r & w' & Heq & _ & _ & _ & _ & Hcase & _).
    rewrite Hfetch' in Heq. injection Heq as <- <-.
    destruct Hcase as [(n1 & Hr & _)|(l1 & V1 & n1 & Hr & Hl1 & _)]; [done|].
    injection Hr as -> ->. intros ->.
    by rewrite Hheap, lookup_insert_eq in Hl1.
Qed.

Lemma fetch_free_restores_heap_witness :
  handle_ok w_stored 0 P0
  ∧ store_bdb_fetch no_fault no_leftover (Some 0) K0 (length K0) 0 w_stored
    = Some ((PHeap 2, 3), w_fetched)
  ∧ (∃ w2,
       store_bdb_free (Some 0) (Some (PHeap 2)) w_fetched
       = Some (Some PNull, w2)
       ∧ heap w2 = heap w_stored ∧ files w2 = files w_stored
       ∧ store_bdb_free (Some 0) (Some PNull) w2 = Some (Some PNull, w2))
  ∧ (∀ l' n' w2,
       store_bdb_fetch no_fault no_leftover (Some 0) K0 (length K0) 0 w_fetched
       = Some ((PHeap l', n'), w2) →
       l' ≠ 2).
Proof.
  split; [exact handle_ok_w_stored|].
  split; [vm_compute; reflexivity|].
  apply (fetch_free_restores_heap no_fault no_fault no_leftover no_leftover
           w_stored _ 0 P0 K0 K0 0 0 3 2 handle_ok_w_stored).
  vm_compute; reflexivity.
Defined.

(** What a store on an open handle does, case by case; the engine is
    given the key [cut (length K) K] and the value
    [cut (length V) V]. *)
Lemma store_footprint (fault : Call → Z) (w : World) (h : nat)
    (path : string) (K V : list byte) :
  handle_ok w h path →
  ∃ rc w',
    store_bdb_store fault (Some h) K (length K) V (length V) w = Some (rc, w')
    ∧ fdtab w' = fdtab w ∧ envs w' = envs w ∧ dbs w' = dbs w
    ∧ heap w' = heap w
    ∧ handle_ok w' h path
    ∧ ((rc = 0%Z
        ∧ fault (CallPut (cut (length K) K) (cut (length V) V)) = 0%Z
        ∧ ∃ ps m, files w !! path = Some (FDb ps m)
                  ∧ files w'
                    = <[path := FDb ps (<[cut (length K) K
                                          := cut (length V) V]> m)]>
                        (files w))
       ∨ (rc ≠ 0%Z
          ∧ rc = fault (CallPut (cut (length K) K) (cut (length V) V))
          ∧ files w' = files w)).
Proof.
  intros Hok.
  destruct (handle_store fault w h path K V Hok) as (d & ps & m & Hm & Hf & ->).
  unfold store_result.
  destruct (decide (fault (CallPut (cut (length K) K) (cut (length V) V))
                    = 0%Z)) as [Hz|Hz];
    eexists _, _; (split; [reflexivity|]); wsimpl;
    do 4 (split; [reflexivity|]).
  - split; [|left; eauto 10].
    exact (handle_ok_log _ h path (EDbPut d _ _ 0)
             (handle_ok_update w h path ps _ Hok)).
  - split; [|right; auto].
    exact (handle_ok_log w h path (EDbPut d _ _ _) Hok).
Qed.

(** What a delete on an open handle does, case by case. *)
Lemma delete_footprint (fault : Call → Z) (w : World) (h : nat)
    (path : string) (K : list byte) :
  handle_ok w h path →
  ∃ rc w',
    store_bdb_delete_record fault (Some h) K (length K) w = Some (rc, w')
    ∧ fdtab w' = fdtab w ∧ envs w' = envs w ∧ dbs w' = dbs w
    ∧ heap w' = heap w
    ∧ handle_ok w' h path
    ∧ ((rc = 0%Z ∧ fault (CallDel (cut (length K) K)) = 0%Z
        ∧ ∃ ps m, files w !! path = Some (FDb ps m)
                  ∧ is_Some (m !! cut (length K) K)
                  ∧ files w'
                    = <[path := FDb ps (delete (cut (length K) K) m)]>
                        (files w))
       ∨ (rc ≠ 0%Z ∧ files w' = files w
          ∧ (rc = fault (CallDel (cut (length K) K))
             ∨ (rc = DB_NOTFOUND
                ∧ binding w path (cut (length K) K) = None)))).
Proof.
  intros Hok.
  destruct (handle_delete fault w h path K Hok) as (d & ps & m & Hm & Hf & ->).
  rewrite (binding_lookup _ _ _ _ Hm (short_cut _ _)).
  unfold delete_result.
  destruct (decide (fault (CallDel (cut (length K) K)) = 0%Z)) as [Hz|Hz].
  - destruct (m !! cut (length K) K) as [v|] eqn:E;
      eexists _, _; (split; [reflexivity|]); wsimpl;
      do 4 (split; [reflexivity|]).
    + split.
      { exact (handle_ok_log _ h path (EDbDel d _ 0)
                 (handle_ok_update w h path ps _ Hok)). }
      left. do 2 (split; [done|]). exists ps, m. rewrite E. eauto.
    + split; [exact (handle_ok_log w h path (EDbDel d _ DB_NOTFOUND) Hok)|].
      right. split; [done|]. auto.
  - eexists _, _. split; [reflexivity|]. wsimpl.
    do 4 (split; [reflexivity|]).
    split; [exact (handle_ok_log w h path (EDbDel d _ _) Hok)|].
    right. auto.
Qed.

(** X9. A store on an open handle, of a key and a value shorter than
    [2^32] bytes, is defined and is all or nothing.  It returns [0]
    exactly when the engine accepted the write; the key is then bound
    to the value, every other key and every other file is as before.
    Otherwise it returns the engine's code and the file system is
    unchanged.  In both cases descriptors, environments, database
    objects and the heap are untouched. *)
Theorem store_all_or_nothing (fault : Call → Z) (w : World) (h : nat)
    (path : string) (K V : list byte) :
  handle_ok w h path →
  short K → short V →
  ∃ rc w',
    store_bdb_store fault (Some h) K (length K) V (length V) w = Some (rc, w')
    ∧ fdtab w' = fdtab w ∧ envs w' = envs w ∧ dbs w' = dbs w
    ∧ heap w' = heap w
    ∧ (rc = 0%Z ↔ fault (CallPut K V) = 0%Z)
    ∧ (rc = 0%Z →
       binding w' path K = Some V
       ∧ (∀ K', K' ≠ K → binding w' path K' = binding w path K')
       ∧ (∀ p, p ≠ path → files w' !! p = files w !! p))
    ∧ (rc ≠ 0%Z → rc = fault (CallPut K V) ∧ files w' = files w).
Proof.
  intros Hok HK HV.
  destruct (store_footprint fault w h path K V Hok)
    as (rc & w' & Heq & Hfd & He & Hd & Hh & _ & Hcase).
  rewrite (cut_short K), (cut_short V) in Hcase by done.
  exists rc, w'. do 5 (split; [done|]).
  destruct Hcase as [(-> & Hz & ps & m & Hf & Hfiles)|(Hrc & -> & Hfiles)].
  - split; [done|]. split; [|done]. intros _.
    destruct (store_success _ _ _ _ _ _ _ Hok Heq) as (_ & Hb & Hframe).
    rewrite (cut_short K), (cut_short V) in Hb by done.
    rewrite (cut_short K) in Hframe by done.
    do 2 (split; [done|]).
    intros p Hne. rewrite Hfiles. by apply lookup_insert_ne.
  - split; [done|]. split; [done|]. done.
Qed.

Lemma store_all_or_nothing_witness :
  handle_ok w_open 0 P0
  ∧ short K0 ∧ short V0
  ∧ ∃ rc w',
      store_bdb_store no_fault (Some 0) K0 (length K0) V0 (length V0) w_open
      = Some (rc, w')
      ∧ fdtab w' = fdtab w_open ∧ envs w' = envs w_open
      ∧ dbs w' = dbs w_open ∧ heap w' = heap w_open
      ∧ (rc = 0%Z ↔ no_fault (CallPut K0 V0) = 0%Z)
      ∧ (rc = 0%Z →
         binding w' P0 K0 = Some V0
         ∧ (∀ K', K' ≠ K0 → binding w' P0 K' = binding w_open P0 K')
         ∧ (∀ p, p ≠ P0 → files w' !! p = files w_open !! p))
      ∧ (rc ≠ 0%Z → rc = no_fault (CallPut K0 V0) ∧ files w' = files w_open).
Proof.
  assert (short K0) as HK by (vm_compute; reflexivity).
  assert (short V0) as HV by (vm_compute; reflexivity).
  split; [exact handle_ok_w_open|]. split; [exact HK|]. split; [exact HV|].
  exact (store_all_or_nothing no_fault w_open 0 P0 K0 V0 handle_ok_w_open
           HK HV).
Defined.

(** X10. A delete on an open handle, of a key shorter than [2^32]
    bytes, is defined and removes at most its own key.  It returns [0]
    only if the key was bound and the engine accepted the removal; the
    key is then unbound and every other key and every other file is as
    before.  When it returns anything else the file system is
    unchanged, so a key that was bound stays bound.  Descriptors,
    environments, database objects and the heap are untouched. *)
Theorem delete_removes_only_its_key (fault : Call → Z) (w : World) (h : nat)
    (path : string) (K : list byte) :
  handle_ok w h path →
  short K →
  ∃ rc w',
    store_bdb_delete_record fault (Some h) K (length K) w = Some (rc, w')
    ∧ fdtab w' = fdtab w ∧ envs w' = envs w ∧ dbs w' = dbs w
    ∧ heap w' = heap w
    ∧ (rc = 0%Z ↔ fault (CallDel K) = 0%Z ∧ is_Some (binding w path K))
    ∧ (rc = 0%Z → binding w' path K = None)
    ∧ (rc ≠ 0%Z → files w' = files w)
    ∧ (∀ K', K' ≠ K → binding w' path K' = binding w path K')
    ∧ (∀ p, p ≠ path → files w' !! p = files w !! p).
Proof.
  intros Hok HK.
  destruct (delete_footprint fault w h path K Hok)
    as (rc & w' & Heq & Hfd & He & Hd & Hh & _ & Hcase).
  rewrite (cut_short K) in Hcase by done.
  exists rc, w'. do 5 (split; [done|]).
  destruct Hcase as [(-> & Hz & ps & m & Hf & Hk & Hfiles)
                    |(Hrc & Hfiles & Hwhy)].
  - destruct (delete_success _ _ _ _ _ _ Hok Heq) as (_ & Hwas & Hb & Hframe).
    rewrite (cut_short K) in Hwas, Hb, Hframe by done.
    split; [split; auto|]. split; [done|]. split; [done|].
    split; [done|].
    intros p Hne. rewrite Hfiles. by apply lookup_insert_ne.
  - split.
    { split; [done|]. intros [Hz Hb].
      destruct Hwhy as [->|[_ Hnone]]; [done|].
      rewrite Hnone in Hb. by destruct Hb. }
    unfold binding, contents. rewrite Hfiles.
    split; [done|]. split; [done|]. split; done.
Qed.

Lemma delete_removes_only_its_key_witness :
  handle_ok w_stored 0 P0
  ∧ short K0
  ∧ ∃ rc w',
      store_bdb_delete_record no_fault (Some 0) K0 (length K0) w_stored
      = Some (rc, w')
      ∧ fdtab w' = fdtab w_stored ∧ envs w' = envs w_stored
      ∧ dbs w' = dbs w_stored ∧ heap w' = heap w_stored
      ∧ (rc = 0%Z
         ↔ no_fault (CallDel K0) = 0%Z ∧ is_Some (binding w_stored P0 K0))
      ∧ (rc = 0%Z → binding w' P0 K0 = None)
      ∧ (rc ≠ 0%Z → files w' = files w_stored)
      ∧ (∀ K', K' ≠ K0 → binding w' P0 K' = binding w_stored P0 K')
      ∧ (∀ p, p ≠ P0 → files w' !! p = files w_stored !! p).
Proof.
  assert (short K0) as HK by (vm_compute; reflexivity).
  split; [exact handle_ok_w_stored|]. split; [exact HK|].
  exact (delete_removes_only_its_key no_fault w_stored 0 P0 K0
           handle_ok_w_stored HK).
Defined.

(** ** How stores and deletes compose *)

(** X11. Storing a value under a key shorter than [2^32] bytes that is
    not bound and then deleting that key, both with success, leaves the
    file system exactly as it was before the store. *)
Theorem store_delete_roundtrip (fault_s fault_d : Call → Z) (w w1 w2 : World)
    (h : nat) (path : string) (K V : list byte) :
  handle_ok w h path →
  short K →
  binding w path K = None →
  store_bdb_store fault_s (Some h) K (length K) V (length V) w
  = Some (0%Z, w1) →
  store_bdb_delete_record fault_d (Some h) K (length K) w1 = Some (0%Z, w2) →
  files w2 = files w ∧ heap w2 = heap w ∧ fdtab w2 = fdtab w
  ∧ envs w2 = envs w ∧ dbs w2 = dbs w.
Proof.
  intros Hok HK Hb Hst Hdel.
  destruct (store_footprint fault_s w h path K V Hok)
    as (rc & w' & Heq & Hfd & He & Hd & Hh & Hok1 & Hcase).
  rewrite Hst in Heq. injection Heq as <- <-.
  destruct Hcase as [(_ & _ & ps & m & Hf & Hfiles)|(? & _)]; [|done].
  destruct (delete_footprint fault_d w1 h path K Hok1)
    as (rc & w' & Heq & Hfd' & He' & Hd' & Hh' & _ & Hcase).
  rewrite Hdel in Heq. injection Heq as <- <-.
  destruct Hcase as [(_ & _ & ps' & m' & Hf' & _ & Hfiles')|(? & _)]; [|done].
  rewrite Hfiles, lookup_insert_eq in Hf'. injection Hf' as <- <-.
  rewrite (cut_short K) in * by done.
  unfold binding, contents in Hb. rewrite Hf, decide_True in Hb by done.
  split; [|by rewrite Hh', Hfd', He', Hd'].
  rewrite Hfiles', Hfiles, insert_insert_eq, delete_insert_eq, delete_id by done.
  by apply insert_id.
Qed.

Lemma store_delete_roundtrip_witness :
  handle_ok w_open 0 P0
  ∧ short K0
  ∧ binding w_open P0 K0 = None
  ∧ store_bdb_store no_fault (Some 0) K0 (length K0) V0 (length V0) w_open
    = Some (0%Z, w_stored)
  ∧ store_bdb_delete_record no_fault (Some 0) K0 (length K0) w_stored
    = Some (0%Z, w_deleted)
  ∧ files w_deleted = files w_open ∧ heap w_deleted = heap w_open
  ∧ fdtab w_deleted = fdtab w_open
  ∧ envs w_deleted = envs w_open ∧ dbs w_deleted = dbs w_open.
Proof.
  split; [exact handle_ok_w_open|].
  do 4 (split; [vm_compute; reflexivity|]).
  apply (store_delete_roundtrip no_fault no_fault w_open w_stored w_deleted
           0 P0 K0 V0 handle_ok_w_open); vm_compute; reflexivity.
Defined.

(** X12. Successful stores compose as updates of a map: two stores
    under the same key leave the file system that the second store
    alone would leave, and two stores under different keys, both
    shorter than [2^32] bytes, leave the same file system in either
    order. *)
Theorem stores_compose (w : World) (h : nat) (path : string)
    (K1 K2 V1 V2 : list byte) :
  handle_ok w h path →
  (∀ f1 f2 f3 w1 w2 w3,
     store_bdb_store f1 (Some h) K1 (length K1) V1 (length V1) w
     = Some (0%Z, w1) →
     store_bdb_store f2 (Some h) K1 (length K1) V2 (length V2) w1
     = Some (0%Z, w2) →
     store_bdb_store f3 (Some h) K1 (length K1) V2 (length V2) w
     = Some (0%Z, w3) →
     files w2 = files w3)
  ∧ (K1 ≠ K2 → short K1 → short K2 →
     ∀ f1 f2 f3 f4 wa wab wb wba,
       store_bdb_store f1 (Some h) K1 (length K1) V1 (length V1) w
       = Some (0%Z, wa) →
       store_bdb_store f2 (Some h) K2 (length K2) V2 (length V2) wa
       = Some (0%Z, wab) →
       store_bdb_store f3 (Some h) K2 (length K2) V2 (length V2) w
       = Some (0%Z, wb) →
       store_bdb_store f4 (Some h) K1 (length K1) V1 (length V1) wb
       = Some (0%Z, wba) →
       files wab = files wba).
Proof.
  intros Hok.
  assert (∀ f K V w0 w1,
            handle_ok w0 h path →
            store_bdb_store f (Some h) K (length K) V (length V) w0
            = Some (0%Z, w1) →
            handle_ok w1 h path
            ∧ ∃ ps m, files w0 !! path = Some (FDb ps m)
                      ∧ files w1
                        = <[path := FDb ps (<[cut (length K) K
                                              := cut (length V) V]> m)]>
                            (files w0))
    as Hstep.
  { intros f K V w0 w1 Hok0 Hst.
    destruct (store_footprint f w0 h path K V Hok0)
      as (rc & w' & Heq & _ & _ & _ & _ & Hok1 & Hcase).
    rewrite Hst in Heq. injection Heq as <- <-.
    destruct Hcase as [(_ & _ & ps & m & Hf & Hfiles)|(? & _)]; [|done].
    eauto 10. }
  split.
  - intros f1 f2 f3 w1 w2 w3 H1 H2 H3.
    destruct (Hstep _ _ _ _ _ Hok H1) as (Hok1 & ps & m & Hf & E1).
    destruct (Hstep _ _ _ _ _ Hok1 H2) as (_ & ps2 & m2 & Hf2 & E2).
    destruct (Hstep _ _ _ _ _ Hok H3) as (_ & ps3 & m3 & Hf3 & E3).
    rewrite E1, lookup_insert_eq in Hf2. injection Hf2 as <- <-.
    rewrite Hf in Hf3. injection Hf3 as <- <-.
    by rewrite E2, E3, E1, !insert_insert_eq.
  - intros Hne HK1 HK2 f1 f2 f3 f4 wa wab wb wba H1 H2 H3 H4.
    destruct (Hstep _ _ _ _ _ Hok H1) as (Hoka & ps & m & Hf & E1).
    destruct (Hstep _ _ _ _ _ Hoka H2) as (_ & ps2 & m2 & Hf2 & E2).
    destruct (Hstep _ _ _ _ _ Hok H3) as (Hokb & ps3 & m3 & Hf3 & E3).
    destruct (Hstep _ _ _ _ _ Hokb H4) as (_ & ps4 & m4 & Hf4 & E4).
    rewrite E1, lookup_insert_eq in Hf2. injection Hf2 as <- <-.
    rewrite Hf in Hf3. injection Hf3 as <- <-.
    rewrite E3, lookup_insert_eq in Hf4. injection Hf4 as <- <-.
    rewrite E2, E4, E1, E3, !insert_insert_eq.
    rewrite (cut_short K1), (cut_short K2) by done.
    by rewrite (insert_insert_ne m K2 K1) by done.
Qed.

Lemma stores_compose_witness :
  handle_ok w_open 0 P0
  ∧ K0 ≠ K9 ∧ short K0 ∧ short K9
  ∧ files (after (store_bdb_store no_fault (Some 0) K9 2 V1 2) w_stored)
    = files (after (store_bdb_store no_fault (Some 0) K0 8 V0 3)
               (after (store_bdb_store no_fault (Some 0) K9 2 V1 2) w_open))
  ∧ ((∀ f1 f2 f3 w1 w2 w3,
        store_bdb_store f1 (Some 0) K0 (length K0) V0 (length V0) w_open
        = Some (0%Z, w1) →
        store_bdb_store f2 (Some 0) K0 (length K0) V1 (length V1) w1
        = Some (0%Z, w2) →
        store_bdb_store f3 (Some 0) K0 (length K0) V1 (length V1) w_open
        = Some (0%Z, w3) →
        files w2 = files w3)
     ∧ (K0 ≠ K9 → short K0 → short K9 →
        ∀ f1 f2 f3 f4 wa wab wb wba,
          store_bdb_store f1 (Some 0) K0 (length K0) V0 (length V0) w_open
          = Some (0%Z, wa) →
          store_bdb_store f2 (Some 0) K9 (length K9) V1 (length V1) wa
          = Some (0%Z, wab) →
          store_bdb_store f3 (Some 0) K9 (length K9) V1 (length V1) w_open
          = Some (0%Z, wb) →
          store_bdb_store f4 (Some 0) K0 (length K0) V0 (length V0) wb
          = Some (0%Z, wba) →
          files wab = files wba)).
Proof.
  split; [exact handle_ok_w_open|]. split; [discriminate|].
  split; [vm_compute; reflexivity|]. split; [vm_compute; reflexivity|].
  split; [vm_compute; reflexivity|].
  exact (stores_compose w_open 0 P0 K0 K9 V0 V1 handle_ok_w_open).
Defined.

(** ** Keys and values are taken by their length *)

Lemma take_prefix_length (buf : list byte) (n : nat) :
  n ≤ length buf → length (take n buf) = n.
Proof. intros Hn. rewrite length_take. lia. Qed.

(** The first [len mod 2^32] bytes of a buffer of at least [len] bytes
    are read from it, and there are that many. *)
Lemma read_bytes_narrowed (buf : list byte) (len : nat) w :
  len ≤ length buf →
  read_bytes (PUser buf) (Z.to_nat (u32 (Z.of_nat len))) w
  = Some (cut len buf, w).
Proof.
  intros Hn. unfold read_bytes, cut.
  pose proof (u32_length_le len). by rewrite decide_True by lia.
Qed.

Lemma cut_length (buf : list byte) (len : nat) :
  len ≤ length buf → length (cut len buf) = Z.to_nat (u32 (Z.of_nat len)).
Proof.
  intros Hn. unfold cut. apply take_prefix_length.
  pose proof (u32_length_le len). lia.
Qed.

Lemma cut_cut (buf : list byte) (len : nat) :
  cut (length (cut len buf)) (cut len buf) = cut len buf.
Proof. apply cut_short, short_cut. Qed.

(** The operations see the first [klen mod 2^32] bytes of the key
    buffer and the first [vlen mod 2^32] bytes of the value buffer, and
    nothing else. *)
Lemma store_by_length fault h key klen value vlen w :
  klen ≤ length key → vlen ≤ length value →
  store_bdb_store fault (Some h) key klen value vlen w
  = store_bdb_store fault (Some h) (cut klen key) (length (cut klen key))
      (cut vlen value) (length (cut vlen value)) w.
Proof.
  intros Hk Hv.
  unfold store_bdb_store, mbind, M_bind, ctx_load.
  destruct (heap w !! h) as [[c| |]|]; try done.
  unfold DB_put, dbt_init, dbt_empty_init, mbind, M_bind.
  cbn [dbt_data dbt_size dbt_flags].
  destruct (ctx_db c) as [d|]; [|done].
  rewrite !read_bytes_narrowed by done. rewrite ?read_bytes_cut.
  by rewrite !cut_cut.
Qed.

Lemma fetch_by_length fault leftover h key klen vlen w :
  klen ≤ length key →
  store_bdb_fetch fault leftover (Some h) key klen vlen w
  = store_bdb_fetch fault leftover (Some h) (cut klen key)
      (length (cut klen key)) vlen w.
Proof.
  intros Hk.
  unfold store_bdb_fetch, mbind, M_bind, ctx_load.
  destruct (heap w !! h) as [[c| |]|]; try done.
  unfold DB_get, dbt_init, dbt_empty_init, mbind, M_bind.
  cbn [dbt_data dbt_size dbt_flags].
  destruct (ctx_db c) as [d|]; [|done].
  rewrite !read_bytes_narrowed by done. rewrite ?read_bytes_cut.
  by rewrite !cut_cut.
Qed.

Lemma delete_by_length fault h key klen w :
  klen ≤ length key →
  store_bdb_delete_record fault (Some h) key klen w
  = store_bdb_delete_record fault (Some h) (cut klen key)
      (length (cut klen key)) w.
Proof.
  intros Hk.
  unfold store_bdb_delete_record, mbind, M_bind, ctx_load.
  destruct (heap w !! h) as [[c| |]|]; try done.
  unfold DB_del, dbt_init, mbind, M_bind.
  cbn [dbt_data dbt_size dbt_flags].
  destruct (ctx_db c) as [d|]; [|done].
  rewrite !read_bytes_narrowed by done. rewrite ?read_bytes_cut.
  by rewrite !cut_cut.
Qed.

(** X13. Keys and values are byte strings with an explicit length, not
    C strings, and the lengths are narrowed to 32 bits.  A store is
    given the first [klen mod 2^32] bytes of the key buffer and the
    first [vlen mod 2^32] bytes of the value buffer, which are the
    first [klen] and [vlen] bytes for lengths below [2^32].  After a
    successful store, those bytes of the key are bound to those bytes
    of the value; a fetch through any key buffer with the same bytes
    (the engine's lookup not failing) returns exactly those bytes of
    the value and reports their number; bytes past the lengths, and
    zero bytes inside them, play no part.  A delete through such a
    buffer removes the binding. *)
Theorem roundtrip_with_explicit_lengths (fault_s fault_f fault_d : Call → Z)
    (leftover_f : Leftover)
    (w w1 : World) (h : nat) (path : string) (key key' value : list byte)
    (klen vlen vlen0 : nat) :
  handle_ok w h path →
  klen ≤ length key → klen ≤ length key' → vlen ≤ length value →
  cut klen key' = cut klen key →
  store_bdb_store fault_s (Some h) key klen value vlen w = Some (0%Z, w1) →
  binding w1 path (cut klen key) = Some (cut vlen value)
  ∧ ((Z.of_nat klen < 4294967296)%Z → cut klen key = take klen key)
  ∧ ((Z.of_nat vlen < 4294967296)%Z → cut vlen value = take vlen value)
  ∧ (fault_f (CallGet (cut klen key)) = 0%Z →
     ∃ l w2,
       store_bdb_fetch fault_f leftover_f (Some h) key' klen vlen0 w1
       = Some ((PHeap l, length (cut vlen value)), w2)
       ∧ heap w1 !! l = None
       ∧ heap w2 !! l = Some (BBytes (cut vlen value)))
  ∧ (∀ w2,
       store_bdb_delete_record fault_d (Some h) key' klen w1
       = Some (0%Z, w2) →
       binding w2 path (cut klen key) = None).
Proof.
  intros Hok Hk Hk' Hv Hpre Hst.
  rewrite store_by_length in Hst by done.
  destruct (store_success _ _ _ _ _ _ _ Hok Hst) as (Hok1 & Hb1 & _).
  rewrite !cut_cut in Hb1.
  split; [done|].
  assert (∀ (buf : list byte) n,
            (Z.of_nat n < 4294967296)%Z → cut n buf = take n buf) as Hsmall.
  { intros buf n Hn. unfold cut. rewrite u32_small by lia.
    by rewrite Nat2Z.id. }
  split; [auto|]. split; [auto|]. split.
  - intros Hf. rewrite fetch_by_length, Hpre by done.
    destruct (fetch_found fault_f leftover_f w1 h path (cut klen key)
                (cut vlen value) vlen0 Hok1)
      as (w2 & (l & Heq & Hl & Hl' & _) & _);
      rewrite ?cut_cut; try done; [apply short_cut|]. eauto.
  - intros w2 Hdel. rewrite delete_by_length, Hpre in Hdel by done.
    destruct (delete_success _ _ _ _ _ _ Hok1 Hdel) as (_ & _ & Hb2 & _).
    by rewrite cut_cut in Hb2.
Qed.

Lemma roundtrip_with_explicit_lengths_witness :
  handle_ok w_open 0 P0
  ∧ 3 ≤ length key_buf ∧ 3 ≤ length key_buf' ∧ 2 ≤ length val_buf
  ∧ cut 3 key_buf' = cut 3 key_buf
  ∧ cut 3 key_buf = [x61; x00; x62] ∧ cut 2 val_buf = [x07; x08]
  ∧ store_bdb_store no_fault (Some 0) key_buf 3 val_buf 2 w_open
    = Some (0%Z, w_lengths)
  ∧ fst <$> store_bdb_fetch no_fault no_leftover (Some 0) key_buf' 3 0
              w_lengths
    = Some (PHeap 2, 2)
  ∧ binding w_lengths P0 (cut 3 key_buf) = Some (cut 2 val_buf)
  ∧ ((3 < 4294967296)%Z → cut 3 key_buf = take 3 key_buf)
  ∧ ((2 < 4294967296)%Z → cut 2 val_buf = take 2 val_buf)
  ∧ (no_fault (CallGet (cut 3 key_buf)) = 0%Z →
     ∃ l w2,
       store_bdb_fetch no_fault no_leftover (Some 0) key_buf' 3 0 w_lengths
       = Some ((PHeap l, length (cut 2 val_buf)), w2)
       ∧ heap w_lengths !! l = None
       ∧ heap w2 !! l = Some (BBytes (cut 2 val_buf)))
  ∧ (∀ w2,
       store_bdb_delete_record no_fault (Some 0) key_buf' 3 w_lengths
       = Some (0%Z, w2) →
       binding w2 P0 (cut 3 key_buf) = None).
Proof.
  split; [exact handle_ok_w_open|].
  split; [vm_compute; lia|]. split; [vm_compute; lia|].
  split; [vm_compute; lia|].
  do 5 (split; [vm_compute; reflexivity|]).
  apply (roundtrip_with_explicit_lengths no_fault no_fault no_fault no_leftover
           w_open w_lengths 0 P0 key_buf key_buf' val_buf 3 2 0
           handle_ok_w_open);
    try (vm_compute; lia); vm_compute; reflexivity.
Defined.

(** ** Sessions *)

(** What one fetch, store or delete of a session leaves alone. *)
Lemma session_step_keeps (h : nat) (path : string) (w w' : World) :
  handle_ok w h path → session_step h w w' →
  handle_ok w' h path
  ∧ fdtab w' = fdtab w ∧ envs w' = envs w ∧ dbs w' = dbs w
  ∧ heap w ⊆ heap w'
  ∧ (∀ l x, heap w' !! l = Some x →
            heap w !! l = Some x ∨ ∃ V, x = BBytes V)
  ∧ (∀ p, p ≠ path → files w' !! p = files w !! p)
  ∧ ∃ ev, trace w' = trace w ++ [ev] ∧ is_release ev = false.
Proof.
  intros Hok [fault leftover K vlen r Heq|fault K V rc Heq|fault K rc Heq].
  - destruct (fetch_footprint fault leftover w h path K vlen Hok)
      as (r' & w'' & Heq' & Hfiles & Hfd & He & Hd & Hcase).
    pose proof (handle_ok_preserved fault leftover w h path K [] vlen Hok)
      as (Hkeep & _).
    destruct (handle_fetch fault leftover w h path K vlen Hok)
      as (d & m & _ & Hres).
    rewrite Heq in Heq'. injection Heq' as <- <-.
    split; [by eapply Hkeep|]. do 3 (split; [done|]).
    assert (∃ ev, trace w' = trace w ++ [ev] ∧ is_release ev = false) as Hev.
    { rewrite Heq in Hres. injection Hres as Hres.
      apply (f_equal snd) in Hres. simpl in Hres. subst w'.
      unfold fetch_result, handed_out.
      destruct (decide _);
        [destruct (m !! _)|destruct (leftover _) as [[[v|] sz]|]];
        by eexists. }
    destruct Hcase as [[(n0 & _ & Hh)|(l & V & n0 & _ & Hl & Hh)] _];
      rewrite Hh.
    + split; [done|]. split; [auto|]. split; [by rewrite Hfiles|done].
    + split; [by apply insert_subseteq|].
      split; [|split; [by rewrite Hfiles|done]].
      intros l' x [[_ <-]|[_ Hl']]%lookup_insert_Some; eauto.
  - destruct (store_footprint fault w h path K V Hok)
      as (rc' & w'' & Heq' & Hfd & He & Hd & Hh & Hok' & Hcase).
    destruct (handle_store fault w h path K V Hok)
      as (d & ps & m & _ & _ & Hres).
    rewrite Heq in Heq'. injection Heq' as <- <-.
    split; [done|]. do 3 (split; [done|]). rewrite Hh.
    split; [done|]. split; [auto|].
    split.
    { destruct Hcase as [(_ & _ & ps' & m' & _ & ->)|(_ & _ & ->)]; [|done].
      intros p Hp. by rewrite lookup_insert_ne. }
    rewrite Heq in Hres. injection Hres as Hres.
    apply (f_equal snd) in Hres. simpl in Hres. subst w'.
    unfold store_result. destruct (decide _); by eexists.
  - destruct (delete_footprint fault w h path K Hok)
      as (rc' & w'' & Heq' & Hfd & He & Hd & Hh & Hok' & Hcase).
    destruct (handle_delete fault w h path K Hok)
      as (d & ps & m & _ & _ & Hres).
    rewrite Heq in Heq'. injection Heq' as <- <-.
    split; [done|]. do 3 (split; [done|]). rewrite Hh.
    split; [done|]. split; [auto|].
    split.
    { destruct Hcase as [(_ & _ & ps' & m' & _ & _ & ->)|(_ & -> & _)];
        [|done].
      intros p Hp. by rewrite lookup_insert_ne. }
    rewrite Heq in Hres. injection Hres as Hres.
    apply (f_equal snd) in Hres. simpl in Hres. subst w'.
    unfold delete_result.
    destruct (decide _); [destruct (m !! _)|]; by eexists.
Qed.

(** The same over any number of operations. *)
Lemma session_keeps (h : nat) (path : string) (w w' : World) :
  handle_ok w h path → rtc (session_step h) w w' →
  handle_ok w' h path
  ∧ fdtab w' = fdtab w ∧ envs w' = envs w ∧ dbs w' = dbs w
  ∧ heap w ⊆ heap w'
  ∧ (∀ l x, heap w' !! l = Some x →
            heap w !! l = Some x ∨ ∃ V, x = BBytes V)
  ∧ (∀ p, p ≠ path → files w' !! p = files w !! p)
  ∧ ∃ evs, trace w' = trace w ++ evs
           ∧ ∀ ev, ev ∈ evs → is_release ev = false.
Proof.
  intros Hok Hrtc. induction Hrtc as [w|w w1 w2 Hstep _ IH].
  - split; [done|]. do 4 (split; [done|]). split; [auto|]. split; [done|].
    exists []. split; [by rewrite app_nil_r|]. by intros ev ?%elem_of_nil.
  - destruct (session_step_keeps h path w w1 Hok Hstep)
      as (Hok1 & Hfd1 & He1 & Hd1 & Hh1 & Hb1 & Hf1 & ev & Ht1 & Hev).
    destruct (IH Hok1)
      as (Hok2 & Hfd2 & He2 & Hd2 & Hh2 & Hb2 & Hf2 & evs & Ht2 & Hevs).
    split; [done|]. split; [congruence|]. split; [congruence|].
    split; [congruence|]. split; [by etrans|].
    split.
    { intros l x [Hl|?]%Hb2; [by apply Hb1|by right]. }
    split.
    { intros p Hp. by rewrite Hf2, Hf1. }
    exists (ev :: evs). split.
    { rewrite Ht2, Ht1, <- (assoc_L (++)). done. }
    intros ev' [->|?]%elem_of_cons; auto.
Qed.

(** X14. However many fetches, stores and deletes are made on an open
    handle, whatever the engine answers and whatever they return, the
    handle stays open: the descriptor table, the environments and the
    database objects are unchanged; every block that was allocated is
    still allocated and the new blocks are fetched values; only the
    database file can differ among the files; and none of the calls
    made gives anything back (no unlock, close or unlink). *)
Theorem session_keeps_handle_open (h : nat) (path : string) (w w' : World) :
  handle_ok w h path → rtc (session_step h) w w' →
  handle_ok w' h path
  ∧ fdtab w' = fdtab w ∧ envs w' = envs w ∧ dbs w' = dbs w
  ∧ heap w ⊆ heap w'
  ∧ (∀ l x, heap w' !! l = Some x →
            heap w !! l = Some x ∨ ∃ V, x = BBytes V)
  ∧ (∀ p, p ≠ path → files w' !! p = files w !! p)
  ∧ ∃ evs, trace w' = trace w ++ evs
           ∧ ∀ ev, ev ∈ evs → is_release ev = false.
Proof. apply session_keeps. Qed.

Lemma session_keeps_handle_open_witness :
  handle_ok w_open 0 P0
  ∧ rtc (session_step 0) w_open w_session
  ∧ (handle_ok w_session 0 P0
     ∧ fdtab w_session = fdtab w_open ∧ envs w_session = envs w_open
     ∧ dbs w_session = dbs w_open
     ∧ heap w_open ⊆ heap w_session
     ∧ (∀ l x, heap w_session !! l = Some x →
               heap w_open !! l = Some x ∨ ∃ V, x = BBytes V)
     ∧ (∀ p, p ≠ P0 → files w_session !! p = files w_open !! p)
     ∧ ∃ evs, trace w_session = trace w_open ++ evs
              ∧ ∀ ev, ev ∈ evs → is_release ev = false).
Proof.
  assert (rtc (session_step 0) w_open w_session) as Hs.
  { eapply rtc_l.
    { apply (step_store 0 w_open w_stored no_fault K0 V0 0).
      vm_compute; reflexivity. }
    eapply rtc_l.
    { apply (step_fetch 0 w_stored w_fetched no_fault no_leftover K0 0
               (PHeap 2, 3)).
      vm_compute; reflexivity. }
    eapply rtc_l; [|apply rtc_refl].
    apply (step_delete 0 w_fetched w_session fault_del K0 5).
    vm_compute; reflexivity. }
  split; [exact handle_ok_w_open|]. split; [exact Hs|].
  exact (session_keeps_handle_open 0 P0 w_open w_session handle_ok_w_open Hs).
Defined.

(** Open, a session, and close, taken together. *)
Lemma session_close_frame (fault : Call → Z) (path : string)
    (w0 w1 w2 : World) (h : nat) :
  store_bdb_open fault (Some path) w0 = Some (Some h, w1) →
  rtc (session_step h) w1 w2 →
  ∃ w3,
    store_bdb_close (Some (Some h)) w2 = Some (Some None, w3)
    ∧ fdtab w3 = fdtab w0 ∧ envs w3 = envs w0 ∧ dbs w3 = dbs w0
    ∧ heap w3 !! h = None
    ∧ heap w0 ⊆ heap w3
    ∧ (∀ l x, heap w3 !! l = Some x →
              heap w0 !! l = Some x ∨ ∃ V, x = BBytes V)
    ∧ files w3 !! lockfile_of path = None
    ∧ is_Some (contents w3 path)
    ∧ ∀ p, p ≠ path → p ≠ lockfile_of path → files w3 !! p = files w0 !! p.
Proof.
  intros Hout%store_bdb_open_inv Hrtc.
  pose proof (open_outcome_handle_ok _ _ _ _ _ Hout) as (Hok1 & _ & _).
  destruct (session_keeps h path w1 w2 Hok1 Hrtc)
    as (Hok2 & Hfd2 & He2 & Hd2 & Hh2 & Hb2 & Hf2 & _).
  destruct (store_bdb_close_eq w2 h path Hok2)
    as (e' & d' & fd' & b' & c & Hh & He & Hd & Hfd & Hb & _ & _ & _ & _ & Heq).
  eexists. split; [exact Heq|]. clear Heq.
  pose proof (handle_ok_contents _ _ _ Hok2) as Hc2.
  unfold contents in *. unfold torn_down. wsimpl.
  rewrite Hfd2, He2, Hd2. clear Hfd2 He2 Hd2 Hok1 Hok2 Hrtc.
  inversion Hout; subst. wsimpl.
  assert (heap w2 !! h
          = Some (BCtx {| ctx_env := Some e; ctx_db := Some d;
                          ctx_fd := Z.of_nat fd;
                          ctx_lockfile :=
                            {| buf_data := Some b;
                               buf_dsize :=
                                 Nat.max 128
                                   (S (String.length (lockfile_of path))) |}
                       |})) as Hh'.
  { eapply lookup_weaken; [|exact Hh2]. apply lookup_insert_eq. }
  rewrite Hh' in Hh. injection Hh as <-. wsimpl.
  injection He as <-. injection Hd as <-. injection Hb as <-.
  apply Nat2Z.inj in Hfd as <-.
  split; [by apply delete_insert_id|]. split; [by apply delete_insert_id|].
  split; [by apply delete_insert_id|].
  split; [apply lookup_delete_eq|].
  split.
  { apply map_subseteq_spec. intros l x Hl.
    rewrite !lookup_delete_ne by congruence.
    eapply lookup_weaken; [|exact Hh2].
    by rewrite !lookup_insert_ne by congruence. }
  split.
  { intros l x Hl.
    apply lookup_delete_Some in Hl as [Hlh Hl].
    apply lookup_delete_Some in Hl as [Hlb Hl].
    apply Hb2 in Hl as [Hl|?]; [left|by right].
    by rewrite !lookup_insert_ne in Hl by done. }
  split; [apply lookup_delete_eq|].
  split.
  { by rewrite lookup_delete_ne by apply lockfile_of_ne. }
  intros p Hp Hlf.
  rewrite lookup_delete_ne by done. rewrite Hf2 by done.
  by rewrite !lookup_insert_ne by done.
Qed.

(** X15. A whole session gives back what it took.  After a successful
    open, any number of fetches, stores and deletes on the handle, and
    the close of the handle: the close is defined and nulls the
    caller's pointer; the descriptor table, the environments and the
    database objects are what they were before the open; the context
    is freed, every block allocated before the open is still allocated
    and the blocks left over are fetched values, which are the caller's
    to free; the sidecar does not exist; the database file exists; and
    no other file was touched. *)
Theorem session_close_releases (fault : Call → Z) (path : string)
    (w0 w1 w2 : World) (h : nat) :
  store_bdb_open fault (Some path) w0 = Some (Some h, w1) →
  rtc (session_step h) w1 w2 →
  ∃ w3,
    store_bdb_close (Some (Some h)) w2 = Some (Some None, w3)
    ∧ fdtab w3 = fdtab w0 ∧ envs w3 = envs w0 ∧ dbs w3 = dbs w0
    ∧ heap w3 !! h = None
    ∧ heap w0 ⊆ heap w3
    ∧ (∀ l x, heap w3 !! l = Some x →
              heap w0 !! l = Some x ∨ ∃ V, x = BBytes V)
    ∧ files w3 !! lockfile_of path = None
    ∧ is_Some (contents w3 path)
    ∧ ∀ p, p ≠ path → p ≠ lockfile_of path → files w3 !! p = files w0 !! p.
Proof. apply session_close_frame. Qed.

Lemma session_close_releases_witness :
  store_bdb_open no_fault (Some P0) world0 = Some (Some 0, w_open)
  ∧ rtc (session_step 0) w_open w_session
  ∧ ∃ w3,
      store_bdb_close (Some (Some 0)) w_session = Some (Some None, w3)
      ∧ fdtab w3 = fdtab world0 ∧ envs w3 = envs world0 ∧ dbs w3 = dbs world0
      ∧ heap w3 !! 0 = None
      ∧ heap world0 ⊆ heap w3
      ∧ (∀ l x, heap w3 !! l = Some x →
                heap world0 !! l = Some x ∨ ∃ V, x = BBytes V)
      ∧ files w3 !! lockfile_of P0 = None
      ∧ is_Some (contents w3 P0)
      ∧ ∀ p, p ≠ P0 → p ≠ lockfile_of P0 → files w3 !! p = files world0 !! p.
Proof.
  assert (store_bdb_open no_fault (Some P0) world0 = Some (Some 0, w_open))
    as Ho by (vm_compute; reflexivity).
  assert (rtc (session_step 0) w_open w_session) as Hs.
  { eapply rtc_l.
    { apply (step_store 0 w_open w_stored no_fault K0 V0 0).
      vm_compute; reflexivity. }
    eapply rtc_l.
    { apply (step_fetch 0 w_stored w_fetched no_fault no_leftover K0 0
               (PHeap 2, 3)).
      vm_compute; reflexivity. }
    eapply rtc_l; [|apply rtc_refl].
    apply (step_delete 0 w_fetched w_session fault_del K0 5).
    vm_compute; reflexivity. }
  split; [exact Ho|]. split; [exact Hs|].
  exact (session_close_releases no_fault P0 world0 w_open w_session 0 Ho Hs).
Defined.

(** * Properties of the account menu *)

Lemma c_not_c_not (x : Z) :
  (c_not (c_not x) = 0%Z ↔ x = 0%Z)
  ∧ (x = 0%Z ∨ x = 1%Z → c_not (c_not x) = x).
Proof.
  unfold c_not. destruct (decide (x = 0%Z)) as [->|Hx]; simpl.
  - split; [done|]. by intros _.
  - split; [split; [done|by intros ?]|]. by intros [?| ->].
Qed.

(** X17. When the update of the account record fails, [toggle_active]
    puts the flag back and reports the error once.  For any behaviour
    of the database: the update is attempted on the account with
    [enabled] negated; if it answers a nonzero code, the account
    afterwards has the truth value of [enabled] it had before, every
    other field untouched, and is the very same record when the flag
    was 0 or 1; exactly one message, the update error, is raised; and
    the database is as the failed update left it. *)
Theorem toggle_active_rolls_back {Db : Type}
    (update : AutocryptAccount → Db → Z * Db) (a : AutocryptAccount)
    (db : Db) :
  (update (with_enabled (c_not (enabled a)) a) db).1 ≠ 0%Z →
  ∃ a',
    toggle_active Db update a db
    = (a', (update (with_enabled (c_not (enabled a)) a) db).2,
       [update_error])
    ∧ email_addr a' = email_addr a ∧ keyid a' = keyid a
    ∧ prefer_encrypt a' = prefer_encrypt a
    ∧ (enabled a' = 0%Z ↔ enabled a = 0%Z)
    ∧ (enabled a = 0%Z ∨ enabled a = 1%Z → a' = a).
Proof.
  intros He. unfold toggle_active.
  destruct (update (with_enabled (c_not (enabled a)) a) db) as [rc db'].
  simpl in He. rewrite decide_True by done.
  eexists. split; [reflexivity|]. cbn.
  do 3 (split; [done|]). split; [apply c_not_c_not|].
  intros H01%c_not_c_not. rewrite H01. by destruct a.
Qed.

Lemma toggle_active_rolls_back_witness :
  (never_ok (with_enabled (c_not (enabled acct0)) acct0) 7).1 ≠ 0%Z
  ∧ toggle_active nat never_ok acct0 7 = (acct0, 7, [update_error])
  ∧ ∃ a',
      toggle_active nat never_ok acct0 7
      = (a', (never_ok (with_enabled (c_not (enabled acct0)) acct0) 7).2,
         [update_error])
      ∧ email_addr a' = email_addr acct0 ∧ keyid a' = keyid acct0
      ∧ prefer_encrypt a' = prefer_encrypt acct0
      ∧ (enabled a' = 0%Z ↔ enabled acct0 = 0%Z)
      ∧ (enabled acct0 = 0%Z ∨ enabled acct0 = 1%Z → a' = acct0).
Proof.
  split; [vm_compute; congruence|]. split; [vm_compute; reflexivity|].
  apply (toggle_active_rolls_back never_ok acct0 7). vm_compute; congruence.
Defined.

(** X18. When the updates succeed, a toggle negates its flag and
    nothing else, raising no message, and toggling twice gives back
    the account for a flag that was 0 or 1; the two toggles act on
    different fields, so that the account after toggling both flags
    does not depend on the order. *)
Theorem toggle_succeeds_and_undoes {Db : Type}
    (update : AutocryptAccount → Db → Z * Db) (a : AutocryptAccount)
    (db : Db) :
  (∀ a' db', (update a' db').1 = 0%Z) →
  (∃ db1 db2,
     toggle_active Db update a db
     = (with_enabled (c_not (enabled a)) a, db1, [])
     ∧ toggle_active Db update (with_enabled (c_not (enabled a)) a) db1
       = (with_enabled (c_not (c_not (enabled a))) a, db2, [])
     ∧ (enabled a = 0%Z ∨ enabled a = 1%Z →
        with_enabled (c_not (c_not (enabled a))) a = a))
  ∧ (∃ db1 db2,
       toggle_prefer_encrypt Db update a db
       = (with_prefer_encrypt (c_not (prefer_encrypt a)) a, db1, [])
       ∧ toggle_prefer_encrypt Db update
           (with_prefer_encrypt (c_not (prefer_encrypt a)) a) db1
         = (with_prefer_encrypt (c_not (c_not (prefer_encrypt a))) a, db2, [])
       ∧ (prefer_encrypt a = 0%Z ∨ prefer_encrypt a = 1%Z →
          with_prefer_encrypt (c_not (c_not (prefer_encrypt a))) a = a))
  ∧ (∀ db1 db2,
       (toggle_prefer_encrypt Db update
          (toggle_active Db update a db1).1.1 db2).1.1
       = (toggle_active Db update
            (toggle_prefer_encrypt Db update a db2).1.1 db1).1.1).
Proof.
  intros Hok.
  assert (∀ a0 db0,
            toggle_active Db update a0 db0
            = (with_enabled (c_not (enabled a0)) a0,
               (update (with_enabled (c_not (enabled a0)) a0) db0).2, []))
    as Ha.
  { intros a0 db0. unfold toggle_active.
    specialize (Hok (with_enabled (c_not (enabled a0)) a0) db0).
    destruct (update (with_enabled (c_not (enabled a0)) a0) db0) as [rc db'].
    simpl in Hok. by rewrite decide_False by (by intros ?). }
  assert (∀ a0 db0,
            toggle_prefer_encrypt Db update a0 db0
            = (with_prefer_encrypt (c_not (prefer_encrypt a0)) a0,
               (update (with_prefer_encrypt (c_not (prefer_encrypt a0)) a0)
                  db0).2, []))
    as Hp.
  { intros a0 db0. unfold toggle_prefer_encrypt.
    specialize (Hok (with_prefer_encrypt (c_not (prefer_encrypt a0)) a0) db0).
    destruct (update (with_prefer_encrypt (c_not (prefer_encrypt a0)) a0) db0)
      as [rc db'].
    simpl in Hok. by rewrite decide_False by (by intros ?). }
  split; [|split].
  - eexists _, _. split; [apply Ha|]. split; [by rewrite Ha|].
    intros H01%c_not_c_not. rewrite H01. by destruct a.
  - eexists _, _. split; [apply Hp|]. split; [by rewrite Hp|].
    intros H01%c_not_c_not. rewrite H01. by destruct a.
  - intros db1 db2. by rewrite !Ha, !Hp.
Qed.

Lemma toggle_succeeds_and_undoes_witness :
  (∀ a' db', (always_ok a' db').1 = 0%Z)
  ∧ toggle_active nat always_ok acct0 7
    = (with_enabled 0 acct0, 8, [])
  ∧ toggle_active nat always_ok (with_enabled 0 acct0) 8 = (acct0, 9, [])
  ∧ (∃ db1 db2,
       toggle_active nat always_ok acct0 7
       = (with_enabled (c_not (enabled acct0)) acct0, db1, [])
       ∧ toggle_active nat always_ok
           (with_enabled (c_not (enabled acct0)) acct0) db1
         = (with_enabled (c_not (c_not (enabled acct0))) acct0, db2, [])
       ∧ (enabled acct0 = 0%Z ∨ enabled acct0 = 1%Z →
          with_enabled (c_not (c_not (enabled acct0))) acct0 = acct0))
  ∧ (∃ db1 db2,
       toggle_prefer_encrypt nat always_ok acct0 7
       = (with_prefer_encrypt (c_not (prefer_encrypt acct0)) acct0, db1, [])
       ∧ toggle_prefer_encrypt nat always_ok
           (with_prefer_encrypt (c_not (prefer_encrypt acct0)) acct0) db1
         = (with_prefer_encrypt (c_not (c_not (prefer_encrypt acct0))) acct0,
            db2, [])
       ∧ (prefer_encrypt acct0 = 0%Z ∨ prefer_encrypt acct0 = 1%Z →
          with_prefer_encrypt (c_not (c_not (prefer_encrypt acct0))) acct0
          = acct0))
  ∧ (∀ db1 db2,
       (toggle_prefer_encrypt nat always_ok
          (toggle_active nat always_ok acct0 db1).1.1 db2).1.1
       = (toggle_active nat always_ok
            (toggle_prefer_encrypt nat always_ok acct0 db2).1.1 db1).1.1).
Proof.
  split; [intros; reflexivity|]. split; [vm_compute; reflexivity|].
  split; [vm_compute; reflexivity|].
  apply (toggle_succeeds_and_undoes always_ok acct0 7).
  intros; reflexivity.
Defined.

(** X19. When the update of the account record fails,
    [toggle_prefer_encrypt] puts the flag back and reports the error
    once: the same as [toggle_active], for the flag
    [prefer_encrypt]. *)
Theorem toggle_prefer_encrypt_rolls_back {Db : Type}
    (update : AutocryptAccount → Db → Z * Db) (a : AutocryptAccount)
    (db : Db) :
  (update (with_prefer_encrypt (c_not (prefer_encrypt a)) a) db).1 ≠ 0%Z →
  ∃ a',
    toggle_prefer_encrypt Db update a db
    = (a', (update (with_prefer_encrypt (c_not (prefer_encrypt a)) a) db).2,
       [update_error])
    ∧ email_addr a' = email_addr a ∧ keyid a' = keyid a
    ∧ enabled a' = enabled a
    ∧ (prefer_encrypt a' = 0%Z ↔ prefer_encrypt a = 0%Z)
    ∧ (prefer_encrypt a = 0%Z ∨ prefer_encrypt a = 1%Z → a' = a).
Proof.
  intros Hp. unfold toggle_prefer_encrypt.
  destruct (update (with_prefer_encrypt (c_not (prefer_encrypt a)) a) db)
    as [rc db'].
  simpl in Hp. rewrite decide_True by done.
  eexists. split; [reflexivity|]. cbn.
  do 3 (split; [done|]). split; [apply c_not_c_not|].
  intros H01%c_not_c_not. rewrite H01. by destruct a.
Qed.

Lemma toggle_prefer_encrypt_rolls_back_witness :
  (never_ok (with_prefer_encrypt (c_not (prefer_encrypt acct0)) acct0) 7).1
  ≠ 0%Z
  ∧ toggle_prefer_encrypt nat never_ok acct0 7 = (acct0, 7, [update_error])
  ∧ ∃ a',
      toggle_prefer_encrypt nat never_ok acct0 7
      = (a',
         (never_ok
            (with_prefer_encrypt (c_not (prefer_encrypt acct0)) acct0) 7).2,
         [update_error])
      ∧ email_addr a' = email_addr acct0 ∧ keyid a' = keyid acct0
      ∧ enabled a' = enabled acct0
      ∧ (prefer_encrypt a' = 0%Z ↔ prefer_encrypt acct0 = 0%Z)
      ∧ (prefer_encrypt acct0 = 0%Z ∨ prefer_encrypt acct0 = 1%Z
         → a' = acct0).
Proof.
  split; [vm_compute; congruence|]. split; [vm_compute; reflexivity|].
  apply (toggle_prefer_encrypt_rolls_back never_ok acct0 7).
  vm_compute; congruence.
Defined.
